(** * apple_admin: the administrative console, embedded in Rocq

  A shallow embedding of the client logic of the admin panel
  (src/lib/api.ts, context/AuthContext.tsx, pages/Products.tsx,
  pages/Categories.tsx, pages/Orders.tsx, pages/FAQ.tsx,
  pages/AboutUs.tsx, pages/HeroSettings.tsx) and the properties of its
  specification.

  Conventions of the embedding
  - A JavaScript string is a [string]: a sequence of code units, each an
    [ascii] read as the code unit U+0000..U+00FF (Latin-1).
  - [localStorage] is a finite map from keys to values; the cookie jar is
    an ordered list of cookies, and [document.cookie] is read and written
    through the strings the source builds and parses.
  - Asynchronous handlers are functions from the state before the call and
    the answer of the server to the state after it, together with the list
    of requests and notifications they issued.
  - Values typed [any] in the source are [JsVal] trees. *)

From Stdlib Require Import ZArith NArith Ascii String List Bool Lia.
From Stdlib Require Import Numbers.DecimalString Numbers.DecimalPos Numbers.DecimalZ.
From stdpp Require Import base option gmap strings.
Import ListNotations.

Local Open Scope string_scope.
Local Open Scope list_scope.

(* ===================================================================== *)
(** * JavaScript strings *)
(* ===================================================================== *)

Module JsString.

Definition code (c : ascii) : N := N_of_ascii c.

Definition in_range (lo hi : N) (c : ascii) : bool :=
  (lo <=? code c)%N && (code c <=? hi)%N.

(** [a-z], [0-9], [A-Z] *)
Definition is_lower (c : ascii) : bool := in_range 97 122 c.
Definition is_digit (c : ascii) : bool := in_range 48 57 c.
Definition is_upper (c : ascii) : bool := in_range 65 90 c.

(** The upper-case letters of the Latin-1 supplement: U+00C0..U+00DE
    without the multiplication sign U+00D7. *)
Definition is_upper_latin1 (c : ascii) : bool :=
  in_range 192 222 c && negb (code c =? 215)%N.

(** [String.prototype.toLowerCase] on one code unit below U+0100: the
    upper-case letters move up by 32, everything else stays. *)
Definition lower_char (c : ascii) : ascii :=
  if is_upper c || is_upper_latin1 c then ascii_of_N (code c + 32) else c.

Fixpoint toLowerCase (s : string) : string :=
  match s with
  | EmptyString => EmptyString
  | String c s' => String (lower_char c) (toLowerCase s')
  end.

(** White space of [String.prototype.trim] below U+0100: TAB, LF, VT, FF,
    CR, SPACE and NO-BREAK SPACE. *)
Definition is_space (c : ascii) : bool :=
  in_range 9 13 c || (code c =? 32)%N || (code c =? 160)%N.

Fixpoint trimStart (s : string) : string :=
  match s with
  | EmptyString => EmptyString
  | String c s' => if is_space c then trimStart s' else s
  end.

(** [trimEnd] keeps a character when it is not white space or when
    something is left after it. *)
Fixpoint trimEnd (s : string) : string :=
  match s with
  | EmptyString => EmptyString
  | String c s' =>
      match trimEnd s' with
      | EmptyString => if is_space c then EmptyString else String c EmptyString
      | r => String c r
      end
  end.

Definition trim (s : string) : string := trimEnd (trimStart s).

Fixpoint startsWith (s p : string) {struct p} : bool :=
  match p with
  | EmptyString => true
  | String a p' =>
      match s with
      | String b s' => Ascii.eqb a b && startsWith s' p'
      | EmptyString => false
      end
  end.

(** [s.split(sep)] for a separator of one character: never the empty
    list, one more piece than there are separators. *)
Fixpoint split (sep : ascii) (s : string) : list string :=
  match s with
  | EmptyString => [EmptyString]
  | String c s' =>
      if Ascii.eqb c sep then EmptyString :: split sep s'
      else match split sep s' with
           | p :: ps => String c p :: ps
           | [] => [String c EmptyString]
           end
  end.

Fixpoint drop (n : nat) (s : string) : string :=
  match n, s with
  | O, _ => s
  | S n', String _ s' => drop n' s'
  | S _, EmptyString => EmptyString
  end.

Fixpoint join (sep : string) (l : list string) : string :=
  match l with
  | [] => EmptyString
  | [x] => x
  | x :: rest => x ++ sep ++ join sep rest
  end.

Fixpoint all_chars (p : ascii -> bool) (s : string) : bool :=
  match s with
  | EmptyString => true
  | String c s' => p c && all_chars p s'
  end.

Definition is_empty (s : string) : bool :=
  match s with EmptyString => true | _ => false end.

(** ** Global replacement by a regular expression

    [s.replace(/re/g, rep)] scans [s] from the left. At every position
    the expression is tried; a match of [n] characters is replaced by
    [rep] and the scan goes on behind it, otherwise the character is
    copied. A [matcher] is the expression seen from one position: it is
    told whether the position is the start of the input and what is left
    of the input, and answers with the length of its match. Both
    expressions of the source match at least one character. *)
Definition matcher := bool -> string -> option nat.

(** [skip] counts the characters of the current match that are still to
    be passed over. *)
Fixpoint replace_from (m : matcher) (rep : string)
         (at_start : bool) (skip : nat) (s : string) : string :=
  match s with
  | EmptyString => EmptyString
  | String c s' =>
      match skip with
      | S k => replace_from m rep false k s'
      | O =>
          match m at_start s with
          | Some (S n) => rep ++ replace_from m rep false n s'
          | _ => String c (replace_from m rep false 0 s')
          end
      end
  end.

Definition replace_global (m : matcher) (rep : string) (s : string) : string :=
  replace_from m rep true 0 s.

End JsString.

(* ===================================================================== *)
(** * Slug derivation (pages/Products.tsx and pages/Categories.tsx) *)
(* ===================================================================== *)

Module Slug.
Import JsString.

(** The character class [a-z0-9]. *)
Definition is_slug_char (c : ascii) : bool := is_lower c || is_digit c.

Definition is_hyphen (c : ascii) : bool := Ascii.eqb c "-".

(** Length of the longest prefix made of characters outside [a-z0-9]. *)
Fixpoint span_outside (s : string) : nat :=
  match s with
  | EmptyString => 0
  | String c s' => if is_slug_char c then 0 else S (span_outside s')
  end.

(** The expression /[^a-z0-9]+/ : greedy, one character at least. *)
Definition re_non_alnum_plus : matcher :=
  fun _ s => match span_outside s with O => None | n => Some n end.

(** The expression /(^-|-$)/ : a hyphen at the start of the input, or
    else a hyphen that is the last character of the input. *)
Definition re_edge_hyphen : matcher :=
  fun at_start s =>
    match s with
    | String c rest =>
        if is_hyphen c then
          if at_start then Some 1
          else if is_empty rest then Some 1 else None
        else None
    | EmptyString => None
    end.

(** [name.toLowerCase().replace(/[^a-z0-9]+/g, '-').replace(/(^-|-$)/g, '')] *)
Definition generateSlug (name : string) : string :=
  replace_global re_edge_hyphen ""
    (replace_global re_non_alnum_plus "-" (toLowerCase name)).

(** ** The derivation as the specification words it *)

(** The maximal runs of a string: consecutive characters that are all
    inside, or all outside, [a-z0-9]; the flag tells which. *)
Fixpoint runs (s : string) : list (bool * string) :=
  match s with
  | EmptyString => []
  | String c s' =>
      let b := is_slug_char c in
      match runs s' with
      | (b', r) :: rest =>
          if Bool.eqb b b' then (b, String c r) :: rest
          else (b, String c EmptyString) :: (b', r) :: rest
      | [] => [(b, String c EmptyString)]
      end
  end.

(** A run is not empty and of one kind; neighbours are of different
    kinds, which makes every run maximal. *)
Definition run_ok (run : bool * string) : bool :=
  negb (is_empty (snd run))
  && all_chars (fun c => Bool.eqb (is_slug_char c) (fst run)) (snd run).

Fixpoint alternating (l : list (bool * string)) : bool :=
  match l with
  | (b1, _) :: rest =>
      match rest with
      | (b2, _) :: _ => negb (Bool.eqb b1 b2) && alternating rest
      | [] => true
      end
  | [] => true
  end.

Definition hyphen_for_run (run : bool * string) : string :=
  if fst run then snd run else "-".

Fixpoint concat_strings (l : list string) : string :=
  match l with
  | [] => EmptyString
  | x :: rest => x ++ concat_strings rest
  end.

Definition collapse_runs (s : string) : string :=
  concat_strings (map hyphen_for_run (runs s)).

Fixpoint strip_leading_hyphens (s : string) : string :=
  match s with
  | EmptyString => EmptyString
  | String c s' => if is_hyphen c then strip_leading_hyphens s' else s
  end.

Fixpoint strip_trailing_hyphens (s : string) : string :=
  match s with
  | EmptyString => EmptyString
  | String c s' =>
      match strip_trailing_hyphens s' with
      | EmptyString => if is_hyphen c then EmptyString else String c EmptyString
      | r => String c r
      end
  end.

Definition strip_hyphens (s : string) : string :=
  strip_trailing_hyphens (strip_leading_hyphens s).

Definition slug_spec (name : string) : string :=
  strip_hyphens (collapse_runs (toLowerCase name)).

(** Shape of a slug: no hyphen next to a hyphen, none at either end. *)
Definition head_is_hyphen (s : string) : bool :=
  match s with String c _ => is_hyphen c | EmptyString => false end.

Fixpoint last_is_hyphen (s : string) : bool :=
  match s with
  | EmptyString => false
  | String c EmptyString => is_hyphen c
  | String _ s' => last_is_hyphen s'
  end.

Fixpoint no_double_hyphen (s : string) : bool :=
  match s with
  | EmptyString => true
  | String c s' =>
      negb (is_hyphen c && head_is_hyphen s') && no_double_hyphen s'
  end.

(** The two replacements as scans: [collapse_scan in_run] copies the
    characters of [a-z0-9] and writes one hyphen when a run of other
    characters begins; [chop_leading_hyphen] and [chop_trailing_hyphen]
    remove one hyphen at the start and one at the end. *)
Fixpoint collapse_scan (in_run : bool) (s : string) : string :=
  match s with
  | EmptyString => EmptyString
  | String c s' =>
      if is_slug_char c then String c (collapse_scan false s')
      else if in_run then collapse_scan true s'
      else String "-" (collapse_scan true s')
  end.

Definition chop_leading_hyphen (s : string) : string :=
  match s with
  | String c s' => if is_hyphen c then s' else s
  | EmptyString => EmptyString
  end.

Fixpoint chop_trailing_hyphen (s : string) : string :=
  match s with
  | EmptyString => EmptyString
  | String c EmptyString => if is_hyphen c then EmptyString else s
  | String c s' => String c (chop_trailing_hyphen s')
  end.

End Slug.

(* ===================================================================== *)
(** * JavaScript values, exceptions and numbers *)
(* ===================================================================== *)

Module Js.
Import JsString.

Set Warnings "-register-all".

(** The values of the untyped parts of the source ([any], response
    bodies). Numbers are modelled on the integers. An object is the list
    of its own properties in insertion order, each key bound once. *)
Inductive JsVal : Type :=
| JUndefined
| JNull
| JBool (b : bool)
| JNum (n : Z)
| JStr (s : string)
| JArr (items : list JsVal)
| JObj (fields : list (string * JsVal)).

(** What a [throw] carries: an [Error] built by the source, a [TypeError]
    of the engine, or the error with which axios rejects a request
    ([error.response?.status], absent when no response arrived). *)
Inductive JsError : Type :=
| Error (message : string)
| TypeError (message : string)
| AxiosError (status : option Z).

Inductive result (A : Type) : Type :=
| Ok (a : A)
| Throw (e : JsError).
Arguments Ok {A} a.
Arguments Throw {A} e.

Definition bind {A B : Type} (r : result A) (k : A -> result B) : result B :=
  match r with
  | Ok a => k a
  | Throw e => Throw e
  end.

(** ToBoolean *)
Definition truthy (v : JsVal) : bool :=
  match v with
  | JUndefined | JNull => false
  | JBool b => b
  | JNum n => negb (n =? 0)%Z
  | JStr s => negb (is_empty s)
  | JArr _ | JObj _ => true
  end.

(** [a || b] *)
Definition or_else (a b : JsVal) : JsVal := if truthy a then a else b.

Fixpoint lookup_field (k : string) (fields : list (string * JsVal)) : option JsVal :=
  match fields with
  | [] => None
  | (k', v) :: rest => if String.eqb k k' then Some v else lookup_field k rest
  end.

(** [v.k] for a property name [k] that is no array index and that
    [Object.prototype] does not define: reading from [undefined] or
    [null] throws, a missing property reads as [undefined]; arrays and
    strings own [length]. *)
Definition get (v : JsVal) (k : string) : result JsVal :=
  match v with
  | JUndefined | JNull => Throw (TypeError "Cannot read properties of undefined")
  | JObj fields => Ok (default JUndefined (lookup_field k fields))
  | JArr items =>
      Ok (if String.eqb k "length" then JNum (Z.of_nat (List.length items)) else JUndefined)
  | JStr s =>
      Ok (if String.eqb k "length" then JNum (Z.of_nat (String.length s)) else JUndefined)
  | JBool _ | JNum _ => Ok JUndefined
  end.

(** [v?.k] *)
Definition get_opt (v : JsVal) (k : string) : JsVal :=
  match get v k with
  | Ok x => x
  | Throw _ => JUndefined
  end.

(** [Array.isArray(v) ? v : []], as the list of the elements *)
Definition array_or_empty (v : JsVal) : list JsVal :=
  match v with
  | JArr items => items
  | _ => []
  end.

(** [v === s] for a string [s] *)
Definition strict_eq_str (v : JsVal) (s : string) : bool :=
  match v with
  | JStr s' => String.eqb s' s
  | _ => false
  end.

Fixpoint set_field (k : string) (x : JsVal) (fields : list (string * JsVal))
  : list (string * JsVal) :=
  match fields with
  | [] => [(k, x)]
  | (k', v) :: rest =>
      if String.eqb k k' then (k, x) :: rest else (k', v) :: set_field k x rest
  end.

Fixpoint index_fields (i : nat) (items : list JsVal) : list (string * JsVal) :=
  match items with
  | [] => []
  | x :: rest =>
      (NilZero.string_of_uint (Nat.to_uint i), x) :: index_fields (S i) rest
  end.

(** The own enumerable properties that a spread [{...v}] copies. *)
Definition own_fields (v : JsVal) : list (string * JsVal) :=
  match v with
  | JObj fields => fields
  | JArr items => index_fields 0 items
  | JStr s => index_fields 0 (map (fun c => JStr (String c EmptyString)) (list_ascii_of_string s))
  | _ => []
  end.

(** [{ ...v, k: x }] : the key keeps its place when [v] has it already. *)
Definition spread_with (v : JsVal) (k : string) (x : JsVal) : JsVal :=
  JObj (set_field k x (own_fields v)).

(** [o[k] = x] on the own properties of an object that an object literal
    created: an own property is overwritten; a missing one is created,
    except that the name [__proto__] then reaches the setter that
    [Object.prototype] defines, which creates no property. *)
Definition assign_field (k : string) (x : JsVal) (fields : list (string * JsVal))
  : list (string * JsVal) :=
  match lookup_field k fields with
  | Some _ => set_field k x fields
  | None => if String.eqb k "__proto__" then fields else set_field k x fields
  end.

(** The numbers of the model are the integers that a [number] holds
    exactly, from -(2^53 - 1) to 2^53 - 1. *)
Definition safe_integer (n : Z) : bool := (Z.abs n <=? 2 ^ 53 - 1)%Z.

(** [n.toString()] and [Number(s)] on the safe integers. [Number] skips
    the white space around the literal and reads the empty string as 0.
    The literals of the model are the decimal integers with an optional
    minus sign, which are all that [toString] prints on the safe
    integers. Fractions, exponents, a plus sign, [Infinity] and
    hexadecimal literals are outside the model, as are the integers that
    are not safe: on them [Number] and [number_toString] say nothing
    about the program, and the theorems that read a number assume
    [safe_integer] or [integer_text]. *)
Definition number_toString (n : Z) : string :=
  NilZero.string_of_int (Z.to_int n).

Definition Number (s : string) : option Z :=
  let t := trim s in
  if is_empty t then Some 0%Z
  else option_map Z.of_int (NilZero.int_of_string t).

(** [Number(s) || 0] : [NaN] and 0 are falsy. *)
Definition number_or_zero (s : string) : Z := default 0%Z (Number s).


(** ToString, as a template literal or [localStorage.setItem] applies
    it to a value. *)
Fixpoint to_string (v : JsVal) : string :=
  match v with
  | JUndefined => "undefined"
  | JNull => "null"
  | JBool true => "true"
  | JBool false => "false"
  | JNum n => number_toString n
  | JStr s => s
  | JArr items =>
      join ","
        ((fix each (l : list JsVal) : list string :=
            match l with
            | [] => []
            | (JUndefined | JNull) :: rest => EmptyString :: each rest
            | x :: rest => to_string x :: each rest
            end) items)
  | JObj _ => "[object Object]"
  end.

(** The envelope [{ data: <payload>, timestamp }] of the backend. *)
Definition envelope (payload timestamp : JsVal) : JsVal :=
  JObj [("data", payload); ("timestamp", timestamp)].

(** The payloads of the data model: a list of records, or one record.
    No record of the data model has a field called [data]. *)
Definition is_payload (p : JsVal) : bool :=
  match p with
  | JArr _ => true
  | JObj fields =>
      match lookup_field "data" fields with
      | None => true
      | Some _ => false
      end
  | _ => false
  end.

(** [response.data.data || response.data], the idiom with which every
    page and the auth context read a response body [data]. *)
Definition unwrap (data : JsVal) : result JsVal :=
  bind (get data "data") (fun inner => Ok (or_else inner data)).

End Js.

(* ===================================================================== *)
(** * The browser: storage, cookies, location, and the record of effects *)
(* ===================================================================== *)

Module Browser.
Import JsString Js.

Inductive Method : Type := GET | POST | PATCH | PUT | DELETE.

Record Request : Type := mkRequest {
  method : Method;
  url : string;
  headers : gmap string string;
  body : JsVal
}.

Record Cookie : Type := mkCookie {
  ck_name : string;
  ck_value : string;
  ck_path : string;
  ck_expires : option Z   (* seconds since the epoch; [None]: session *)
}.

(** What a handler does to the outside, in the order it does it. *)
Inductive Event : Type :=
| StorageSet (key value : string)
| StorageRemoved (key : string)
| CookieAssigned (text : string)
| Navigated (href : string)
| RequestSent (request : Request)
| Notified (message kind : string)
| ConsoleError (label : string).

Record World : Type := mkWorld {
  localStorage : gmap string string;
  cookie_jar : list Cookie;
  pathname : string;          (* window.location.pathname *)
  now : Z;                    (* the clock, seconds since the epoch *)
  log : list Event
}.

(** ** The state monad of handlers *)

Definition Eff (A : Type) : Type := World -> A * World.

Definition ret {A : Type} (a : A) : Eff A := fun w => (a, w).

Definition bind {A B : Type} (c : Eff A) (k : A -> Eff B) : Eff B :=
  fun w => let (a, w') := c w in k a w'.

Definition read {A : Type} (f : World -> A) : Eff A := fun w => (f w, w).

(** [w] with [events] added to its log. *)
Definition logged (w : World) (events : list Event) : World :=
  mkWorld (localStorage w) (cookie_jar w) (pathname w) (now w) (log w ++ events).

Definition emit (e : Event) : Eff unit := fun w => (tt, logged w [e]).

Definition exec {A : Type} (c : Eff A) (w : World) : World := snd (c w).
Definition eval {A : Type} (c : Eff A) (w : World) : A := fst (c w).

Declare Scope eff_scope.
Delimit Scope eff_scope with eff.
Notation "'let*' x ':=' c 'in' k" := (bind c (fun x => k))
  (at level 10, x name, c at level 100, k at level 200) : eff_scope.
Notation "c1 ';;' c2" := (bind c1 (fun _ => c2))
  (at level 100, c2 at level 200, right associativity) : eff_scope.

(** ** localStorage *)

Definition getItem (key : string) : Eff (option string) :=
  read (fun w => localStorage w !! key).

Definition setItem (key value : string) : Eff unit :=
  fun w => emit (StorageSet key value)
             (mkWorld (<[key := value]> (localStorage w)) (cookie_jar w)
                      (pathname w) (now w) (log w)).

Definition removeItem (key : string) : Eff unit :=
  fun w => emit (StorageRemoved key)
             (mkWorld (delete key (localStorage w)) (cookie_jar w)
                      (pathname w) (now w) (log w)).

(** ** window.location *)

(** [window.location.href = href] for an absolute path: the document at
    [href] is loaded. *)
Definition navigate (href : string) : Eff unit :=
  fun w => emit (Navigated href)
             (mkWorld (localStorage w) (cookie_jar w) href (now w) (log w)).

(** ** Dates of the form "Thu, 01 Jan 1970 00:00:00 GMT" *)

Definition parse_nat (s : string) : option Z :=
  option_map Z.of_uint (NilZero.uint_of_string s).

Definition month_number (m : string) : option Z :=
  let names := ["Jan"; "Feb"; "Mar"; "Apr"; "May"; "Jun";
                "Jul"; "Aug"; "Sep"; "Oct"; "Nov"; "Dec"] in
  (fix go (l : list string) (i : Z) : option Z :=
     match l with
     | [] => None
     | n :: rest => if String.eqb n m then Some i else go rest (i + 1)%Z
     end) names 1%Z.

(** Days between 1970-01-01 and the civil date [y]-[m]-[d]. *)
Definition days_from_civil (y m d : Z) : Z :=
  let y' := if (m <=? 2)%Z then (y - 1)%Z else y in
  let era := (y' / 400)%Z in
  let yoe := (y' - era * 400)%Z in
  let mp := if (m <=? 2)%Z then (m + 9)%Z else (m - 3)%Z in
  let doy := ((153 * mp + 2) / 5 + d - 1)%Z in
  let doe := (yoe * 365 + yoe / 4 - yoe / 100 + doy)%Z in
  (era * 146097 + doe - 719468)%Z.

Definition parse_http_date (s : string) : option Z :=
  match split " " s with
  | [_; dd; mon; yyyy; time; _] =>
      match split ":" time with
      | [hh; mi; ss] =>
          match parse_nat dd, month_number mon, parse_nat yyyy,
                parse_nat hh, parse_nat mi, parse_nat ss with
          | Some d, Some m, Some y, Some h, Some i, Some sec =>
              Some (days_from_civil y m d * 86400 + h * 3600 + i * 60 + sec)%Z
          | _, _, _, _, _, _ => None
          end
      | _ => None
      end
  | _ => None
  end.

(** ** document.cookie *)

(** The part of [s] before the first [sep], and the part behind it when
    there is one. *)
Fixpoint before (sep : ascii) (s : string) : string :=
  match s with
  | EmptyString => EmptyString
  | String c s' => if Ascii.eqb c sep then EmptyString else String c (before sep s')
  end.

Fixpoint behind (sep : ascii) (s : string) : option string :=
  match s with
  | EmptyString => None
  | String c s' => if Ascii.eqb c sep then Some s' else behind sep s'
  end.

Definition parse_attribute (part : string) : string * string :=
  (toLowerCase (trim (before "=" part)), trim (default EmptyString (behind "=" part))).

Fixpoint attribute (k : string) (attrs : list (string * string)) : option string :=
  match attrs with
  | [] => None
  | (k', v) :: rest =>
      match attribute k rest with
      | Some v' => Some v'            (* the last occurrence wins *)
      | None => if String.eqb k k' then Some v else None
      end
  end.

(** The directory of the current document, the path of a cookie written
    without a [path] attribute. *)
Fixpoint up_to_last_slash (s : string) : option string :=
  match s with
  | EmptyString => None
  | String c s' =>
      match up_to_last_slash s' with
      | Some r => Some (String c r)
      | None => if Ascii.eqb c "/" then Some EmptyString else None
      end
  end.

Definition default_path (pathname : string) : string :=
  match up_to_last_slash pathname with
  | Some EmptyString | None => "/"
  | Some dir => dir
  end.

Definition same_cookie (name path : string) (c : Cookie) : bool :=
  String.eqb (ck_name c) name && String.eqb (ck_path c) path.

Fixpoint store_cookie (c : Cookie) (jar : list Cookie) : list Cookie :=
  match jar with
  | [] => [c]
  | c' :: rest =>
      if same_cookie (ck_name c) (ck_path c) c' then c :: rest
      else c' :: store_cookie c rest
  end.

Definition evict_cookie (name path : string) (jar : list Cookie) : list Cookie :=
  List.filter (fun c => negb (same_cookie name path c)) jar.

Definition is_live (now : Z) (c : Cookie) : bool :=
  match ck_expires c with
  | None => true
  | Some t => (now <? t)%Z
  end.

(** The cookie that the text [name=value; attribute; ...] describes at
    time [now]: [max-age] takes precedence over [expires]. *)
Definition parse_cookie (pathname : string) (now : Z) (text : string) : Cookie :=
  let parts := split ";" text in
  let pair := hd EmptyString parts in
  let attrs := map parse_attribute (tl parts) in
  let name := match behind "=" pair with
              | Some _ => trim (before "=" pair)
              | None => EmptyString
              end in
  let value := match behind "=" pair with
               | Some v => trim v
               | None => trim pair
               end in
  let path := match attribute "path" attrs with
              | Some (String "/" p) => String "/" p
              | _ => default_path pathname
              end in
  let expires :=
    match attribute "max-age" attrs ≫= (fun v => option_map Z.of_int (NilZero.int_of_string v)) with
    | Some delta => Some (now + delta)%Z
    | None => attribute "expires" attrs ≫= parse_http_date
    end in
  mkCookie name value path expires.

(** [document.cookie = text] : an expired cookie evicts the one of its
    name and path, a live one replaces it or is added. *)
Definition assign_cookie (text : string) : Eff unit :=
  fun w =>
    let c := parse_cookie (pathname w) (now w) text in
    let jar := if is_live (now w) c then store_cookie c (cookie_jar w)
               else evict_cookie (ck_name c) (ck_path c) (cookie_jar w) in
    emit (CookieAssigned text)
      (mkWorld (localStorage w) jar (pathname w) (now w) (log w)).

(** The characters of a cookie value (RFC 6265, cookie-octet): the
    printable US-ASCII characters without the space, the double quote,
    the comma, the semicolon and the backslash. *)
Definition cookie_octet (c : ascii) : bool :=
  (code c =? 33)%N || in_range 35 43 c || in_range 45 58 c
  || in_range 60 91 c || in_range 93 126 c.

Definition cookie_safe (s : string) : bool := all_chars cookie_octet s.

(** A cookie is visible to the document when its path is the path of the
    document, or a prefix of it that ends at a slash. *)
Fixpoint ends_with_slash (s : string) : bool :=
  match s with
  | EmptyString => false
  | String c EmptyString => Ascii.eqb c "/"
  | String _ s' => ends_with_slash s'
  end.

Definition path_matches (cpath pathname : string) : bool :=
  String.eqb cpath pathname ||
  (startsWith pathname cpath &&
   (ends_with_slash cpath
    || startsWith (JsString.drop (String.length cpath) pathname) "/")).

Definition cookie_text (c : Cookie) : string :=
  if is_empty (ck_name c) then ck_value c else ck_name c ++ "=" ++ ck_value c.

(** The order in which cookies are listed (RFC 6265, 5.4): those with
    longer paths first, and among paths of equal length the cookie that
    was stored earlier first. The jar holds the cookies in the order in
    which they were stored. *)
Fixpoint insert_by_path (c : Cookie) (listed : list Cookie) : list Cookie :=
  match listed with
  | [] => [c]
  | c' :: rest =>
      if (String.length (ck_path c) <? String.length (ck_path c'))%nat
      then c' :: insert_by_path c rest
      else c :: listed
  end.

Definition listing_order (cookies : list Cookie) : list Cookie :=
  List.fold_right insert_by_path [] cookies.

(** The cookies that a script at the location of [w] sees, as they are
    listed. *)
Definition visible_cookies (w : World) : list Cookie :=
  listing_order
    (List.filter (fun c => is_live (now w) c && path_matches (ck_path c) (pathname w))
                 (cookie_jar w)).

(** Reading [document.cookie]. *)
Definition document_cookie : Eff string :=
  read (fun w => join "; " (map cookie_text (visible_cookies w))).

(** The value of the first cookie called [name] in that list. *)
Definition cookie_value (name : string) (w : World) : option string :=
  option_map ck_value
    (List.find (fun c => String.eqb (ck_name c) name) (visible_cookies w)).

(** A cookie as a browser stores it: the name is not empty and holds
    neither white space nor a semicolon nor an equals sign, the value is
    made of cookie-octets. *)
Definition cookie_name_char (c : ascii) : bool :=
  cookie_octet c && negb (Ascii.eqb c "=").

Definition well_formed_cookie (c : Cookie) : bool :=
  negb (is_empty (ck_name c))
  && all_chars cookie_name_char (ck_name c)
  && cookie_safe (ck_value c).

(** Every cookie called [name] of the jar is one for the whole site, as
    the cookies are that this program writes ([path=/]). *)
Definition site_wide (name : string) (jar : list Cookie) : bool :=
  forallb (fun c => implb (String.eqb (ck_name c) name) (String.eqb (ck_path c) "/")) jar.

End Browser.

(* ===================================================================== *)
(** * The API client (src/lib/api.ts) *)
(* ===================================================================== *)

Module Api.
Import JsString Js Browser.
Local Open Scope eff_scope.

Record Response : Type := mkResponse {
  status : Z;
  data : JsVal
}.

(** What comes back for a request: nothing (network failure), or a
    status and a parsed body. *)
Inductive ServerAnswer : Type :=
| NoResponse
| Reply (status : Z) (data : JsVal).

Definition base_headers : gmap string string :=
  {[ "Content-Type" := "application/json" ]}.

(** Truthiness of a [string | null | undefined]. *)
Definition has_token (token : option string) : bool :=
  match token with
  | Some t => negb (is_empty t)
  | None => false
  end.

Definition with_authorization (config : Request) (token : string) : Request :=
  mkRequest (method config) (url config)
            (<["Authorization" := ("Bearer " ++ token)%string]> (headers config))
            (body config).

(** [api.interceptors.request.use((config) => ...)] *)
Definition request_interceptor (config : Request) : Eff Request :=
  let* stored := getItem "admin_token" in
  let* token :=
    (if has_token stored then ret stored
     else
       let* text := document_cookie in
       let cookies := split ";" text in
       match List.find (fun cookie => startsWith (trim cookie) "admin_token=") cookies with
       | Some authCookie => ret (nth_error (split "=" authCookie) 1)
       | None => ret stored
       end) in
  ret (match token with
       | Some t => if has_token token then with_authorization config t else config
       | None => config
       end).

Definition expired_cookie_text : string :=
  "admin_token=; path=/; expires=Thu, 01 Jan 1970 00:00:00 GMT".

(** The rejection handler of [api.interceptors.response.use]: it always
    ends in [Promise.reject(error)]. *)
Definition response_rejected (error : JsError) : Eff JsError :=
  match error with
  | AxiosError (Some 401%Z) =>
      removeItem "admin_token" ;;
      assign_cookie expired_cookie_text ;;
      let* path := read pathname in
      (if negb (String.eqb path "/login") then navigate "/login" else ret tt) ;;
      ret error
  | _ => ret error
  end.

(** axios settles a request by its status: 2xx resolves, anything else
    and a missing response reject. *)
Definition settle (answer : ServerAnswer) : result Response :=
  match answer with
  | Reply st d =>
      if (200 <=? st)%Z && (st <? 300)%Z then Ok (mkResponse st d)
      else Throw (AxiosError (Some st))
  | NoResponse => Throw (AxiosError None)
  end.

(** One request through the client: the request interceptor, the wire,
    the response interceptor. *)
Definition send (config : Request) (answer : ServerAnswer) : Eff (result Response) :=
  let* config' := request_interceptor config in
  emit (RequestSent config') ;;
  match settle answer with
  | Ok response => ret (Ok response)
  | Throw error => let* e := response_rejected error in ret (Throw e)
  end.

Definition api_get (url : string) : ServerAnswer -> Eff (result Response) :=
  send (mkRequest GET url base_headers JUndefined).

Definition api_post (url : string) (body : JsVal) : ServerAnswer -> Eff (result Response) :=
  send (mkRequest POST url base_headers body).

Definition api_patch (url : string) (body : JsVal) : ServerAnswer -> Eff (result Response) :=
  send (mkRequest PATCH url base_headers body).

Definition api_put (url : string) (body : JsVal) : ServerAnswer -> Eff (result Response) :=
  send (mkRequest PUT url base_headers body).

Definition api_delete (url : string) : ServerAnswer -> Eff (result Response) :=
  send (mkRequest DELETE url base_headers JUndefined).

(** The requests of a log, without their headers. *)
Definition request_line (e : Event) : option (Method * string * JsVal) :=
  match e with
  | RequestSent r => Some (method r, url r, body r)
  | _ => None
  end.

Definition requests_in (events : list Event) : list (Method * string * JsVal) :=
  omap request_line events.

Definition navigations_in (events : list Event) : list string :=
  omap (fun e => match e with Navigated h => Some h | _ => None end) events.

(** [c], run in [w], adds events to the log of [w] of which the requests
    are [reqs]. *)
Definition issues {A : Type} (c : Eff A) (w : World)
           (reqs : list (Method * string * JsVal)) : Prop :=
  exists events, log (exec c w) = log w ++ events /\ requests_in events = reqs.

(** The events that [c] adds to the log of [w]. *)
Definition events_of {A : Type} (c : Eff A) (w : World) : list Event :=
  List.skipn (List.length (log w)) (log (exec c w)).

(** The notifications of a log: message and kind. *)
Definition notification_line (e : Event) : option (string * string) :=
  match e with
  | Notified message kind => Some (message, kind)
  | _ => None
  end.

Definition notifications_in (events : list Event) : list (string * string) :=
  omap notification_line events.

(** [c], run in [w], adds events to the log of [w] of which the requests
    are [reqs] and the notifications are [notes]. *)
Definition reports {A : Type} (c : Eff A) (w : World)
           (reqs : list (Method * string * JsVal)) (notes : list (string * string)) : Prop :=
  exists events,
    log (exec c w) = log w ++ events /\
    requests_in events = reqs /\ notifications_in events = notes.

End Api.

(* ===================================================================== *)
(** * The auth context (src/context/AuthContext.tsx) *)
(* ===================================================================== *)

(** The source holds two revisions of the provider. The embedding
    follows the later one, which mirrors the token into a cookie on login
    and expires that cookie on logout; the earlier one writes local
    storage only. *)
Module Auth.
Import JsString Js Browser Api.
Local Open Scope eff_scope.

Record State : Type := mkState {
  user : JsVal;               (* User | null *)
  isAuthenticated : bool;
  isLoading : bool
}.

Definition initial : State := mkState JNull false true.

Definition seven_days : Z := 7 * 24 * 60 * 60.

Definition token_cookie_text (access_token : JsVal) : string :=
  "admin_token=" ++ to_string access_token ++ "; path=/; max-age="
    ++ number_toString seven_days ++ "; SameSite=Lax".

Definition invalid_response : JsError := Error "Invalid response: user data missing".
Definition access_denied : JsError := Error "Access denied. Admin privileges required.".

Definition logout (st : State) : Eff State :=
  removeItem "admin_token" ;;
  assign_cookie expired_cookie_text ;;
  ret (mkState JNull false false).

(** The body of the [try] of [fetchUser]: the user when the role is
    admin. *)
Definition admin_of (r : result Response) : result (option JsVal) :=
  Js.bind r (fun response =>
  Js.bind (unwrap (data response)) (fun userData =>
  Js.bind (get userData "role") (fun role =>
  Ok (if strict_eq_str role "admin" then Some userData else None)))).

Definition fetchUser (answer : ServerAnswer) (st : State) : Eff State :=
  let* r := api_get "/users/me" answer in
  let* st' :=
    match admin_of r with
    | Ok (Some userData) => ret (mkState userData true (isLoading st))
    | Ok None => logout st
    | Throw _ => emit (ConsoleError "Failed to fetch user:") ;; logout st
    end in
  ret (mkState (user st') (isAuthenticated st') false).

(** [login]: the result is what the promise settles with, the state is
    the state of the provider afterwards. *)
Definition login (email password : string) (answer : ServerAnswer) (st : State)
  : Eff (result unit * State) :=
  let* r := api_post "/auth/login"
              (JObj [("email", JStr email); ("password", JStr password)]) answer in
  match Js.bind r (fun response => unwrap (data response)) with
  | Throw e => ret (Throw e, st)
  | Ok responseData =>
      match get responseData "access_token", get responseData "user" with
      | Ok access_token, Ok userData =>
          if negb (truthy userData) then ret (Throw invalid_response, st)
          else if negb (strict_eq_str (get_opt userData "role") "admin")
          then ret (Throw access_denied, st)
          else
            setItem "admin_token" (to_string access_token) ;;
            assign_cookie (token_cookie_text access_token) ;;
            ret (Ok tt, mkState userData true (isLoading st))
      | Throw e, _ | _, Throw e => ret (Throw e, st)
      end
  end.

(** The effect that runs when the provider mounts: the token of local
    storage, or else the one of the cookie, which is then written back to
    local storage; with a token the user is fetched, without one the
    loading state ends. [answer] answers the request for the user. *)
Definition mount (answer : ServerAnswer) (st : State) : Eff State :=
  let* stored := getItem "admin_token" in
  let* token :=
    (if has_token stored then ret stored
     else
       let* text := document_cookie in
       let cookies := split ";" text in
       match List.find (fun cookie => startsWith (trim cookie) "admin_token=") cookies with
       | Some authCookie =>
           let token := nth_error (split "=" authCookie) 1 in
           setItem "admin_token" (default "undefined" token) ;;
           ret token
       | None => ret stored
       end) in
  if has_token token then fetchUser answer st
  else ret (mkState (user st) (isAuthenticated st) false).

(** What [PrivateRoute] of App.tsx renders for a state of the provider. *)
Inductive Rendered : Type :=
| Spinner
| Children
| NavigateTo (path : string).

Definition PrivateRoute (st : State) : Rendered :=
  if isLoading st then Spinner
  else if isAuthenticated st then Children
  else NavigateTo "/login".

End Auth.

(* ===================================================================== *)
(** * The list pages: Categories, FAQ, About Us, and Hero Settings *)
(* ===================================================================== *)

Module Pages.
Import JsString Js Browser Api.
Local Open Scope eff_scope.

(** The body of the [try] of a list fetch:
    [Array.isArray(d) ? d : []] for [d = response.data.data || response.data]. *)
Definition collection_of (r : result Response) : result (list JsVal) :=
  Js.bind r (fun response =>
  Js.bind (unwrap (data response)) (fun d => Ok (array_or_empty d))).

(** [try { ... set(list) } catch (error) { console.error(label, error); set([]) }] :
    the collection that the page is left with. *)
Definition load_list (url label : string) (answer : ServerAnswer) : Eff (list JsVal) :=
  let* r := api_get url answer in
  match collection_of r with
  | Ok l => ret l
  | Throw _ => emit (ConsoleError label) ;; ret []
  end.

(** A list fetch fails when the request is rejected (no response, or a
    status outside 2xx) or when the body cannot be read. *)
Definition fetch_failed (answer : ServerAnswer) : Prop :=
  match answer with
  | NoResponse => True
  | Reply st d => ~ (200 <= st < 300)%Z \/ d = JNull \/ d = JUndefined
  end.

(** The state that the list fetch of a page touches. *)
Record ListState : Type := mkListState {
  items : list JsVal;
  loading : bool
}.

(** pages/Categories.tsx *)
Definition fetchCategories (answer : ServerAnswer) (st : ListState) : Eff ListState :=
  let* l := load_list "/categories" "Failed to fetch categories:" answer in
  ret (mkListState l false).

(** pages/FAQ.tsx *)
Definition fetchFAQs (answer : ServerAnswer) (st : ListState) : Eff ListState :=
  let* l := load_list "/settings/faq" "Failed to fetch FAQs:" answer in
  ret (mkListState l false).

(** pages/AboutUs.tsx *)
Definition fetchAboutUs (answer : ServerAnswer) (st : ListState) : Eff ListState :=
  let* l := load_list "/settings/about-us" "Failed to fetch About Us sections:" answer in
  ret (mkListState l false).

(** pages/HeroSettings.tsx: a singleton, no collection. *)
Record HeroState : Type := mkHeroState {
  settings : JsVal;           (* HeroSettings | null *)
  hero_loading : bool
}.

Definition fetchSettings (answer : ServerAnswer) (st : HeroState) : Eff HeroState :=
  let* r := api_get "/settings/hero" answer in
  match Js.bind r (fun response => unwrap (data response)) with
  | Ok settingsData => ret (mkHeroState settingsData false)
  | Throw _ =>
      emit (ConsoleError "Failed to load settings:") ;;
      ret (mkHeroState (settings st) false)
  end.

End Pages.

(* ===================================================================== *)
(** * The Orders page (src/pages/Orders.tsx) *)
(* ===================================================================== *)

Module Orders.
Import JsString Js Browser Api Pages.
Local Open Scope eff_scope.

Record State : Type := mkState {
  orders : list JsVal;
  loading : bool;
  selectedOrder : JsVal;      (* any, initially null *)
  showModal : bool
}.

Definition initial : State := mkState [] true JNull false.

Definition fetchOrders (answer : ServerAnswer) (st : State) : Eff State :=
  let* l := load_list "/orders/admin/all" "Failed to fetch orders:" answer in
  ret (mkState l false (selectedOrder st) (showModal st)).

(** [selectedOrder && selectedOrder.id === id] *)
Definition is_selected (st : State) (id : string) : bool :=
  truthy (selectedOrder st) && strict_eq_str (get_opt (selectedOrder st) "id") id.

(** [updateStatus(id, status)]. The handler awaits the PATCH; the list
    fetch it then starts is not awaited, its answer is [list_answer]. The
    closure reads [selectedOrder] of the state [st] it was created in. *)
Definition updateStatus (id status : string)
           (patch_answer list_answer : ServerAnswer) (st : State) : Eff State :=
  let* r := api_patch ("/orders/" ++ id ++ "/status")
                      (JObj [("status", JStr status)]) patch_answer in
  match r with
  | Ok _ =>
      emit (Notified "Order status updated successfully" "success") ;;
      let* st' := fetchOrders list_answer st in
      ret (if is_selected st id
           then mkState (orders st') (loading st')
                        (spread_with (selectedOrder st) "status" (JStr status))
                        (showModal st')
           else st')
  | Throw _ =>
      emit (Notified "Failed to update order status" "error") ;;
      emit (ConsoleError "Failed to update status:") ;;
      ret st
  end.

Definition openOrderDetails (orderId : string) (answer : ServerAnswer) (st : State)
  : Eff State :=
  let* r := api_get ("/orders/admin/" ++ orderId) answer in
  match Js.bind r (fun response => unwrap (data response)) with
  | Ok orderData => ret (mkState (orders st) (loading st) orderData true)
  | Throw _ =>
      emit (Notified "Failed to load order details" "error") ;;
      emit (ConsoleError "Failed to fetch order details:") ;;
      ret st
  end.

Definition closeModal (st : State) : State :=
  mkState (orders st) (loading st) JNull false.

(** [closeOrder]: [updateStatus] catches its own failures, so the [catch]
    of [closeOrder] is never entered. *)
Definition closeOrder (orderId : string)
           (patch_answer list_answer : ServerAnswer) (st : State) : Eff State :=
  let* st' := updateStatus orderId "delivered" patch_answer list_answer st in
  emit (Notified "Order closed successfully" "success") ;;
  ret (closeModal st').

(** ** The controls that the page renders for an order *)

Inductive Status : Type := pending | processing | shipped | delivered | cancelled.

Definition status_name (s : Status) : string :=
  match s with
  | pending => "pending"
  | processing => "processing"
  | shipped => "shipped"
  | delivered => "delivered"
  | cancelled => "cancelled"
  end.

Definition status_eqb (a b : Status) : bool :=
  String.eqb (status_name a) (status_name b).

(** The [<option>]s of the status [<select>], in the table row and in the
    detail modal alike. *)
Definition select_options : list Status :=
  [pending; processing; shipped; delivered; cancelled].

(** A [<select value={order.status}>] fires [onChange] for every option
    other than the one it shows. *)
Definition select_changes (current : Status) : list Status :=
  List.filter (fun o => negb (status_eqb o current)) select_options.

(** [order.status !== 'delivered' && order.status !== 'cancelled'] guards
    the Close Order button. *)
Definition close_order_shown (current : Status) : bool :=
  negb (String.eqb (status_name current) "delivered")
  && negb (String.eqb (status_name current) "cancelled").

(** The status changes that the controls of an order in state [current]
    hand to [updateStatus]: those of the select, and [delivered] from the
    Close Order button. *)
Definition issuable (current : Status) : list Status :=
  select_changes current ++ (if close_order_shown current then [delivered] else []).

(** The transitions that the specification allows. *)
Definition spec_allowed (from to : Status) : bool :=
  match from, to with
  | pending, processing | processing, shipped | shipped, delivered => true
  | (pending | processing | shipped), cancelled => true
  | _, _ => false
  end.

End Orders.

(* ===================================================================== *)
(** * The Products page (src/pages/Products.tsx) *)
(* ===================================================================== *)

(** The embedding follows the later of the two revisions that the source
    holds of this page: the one with specs, variants and image upload. *)
Module Products.
Import JsString Js Browser Api Pages.
Local Open Scope eff_scope.

(** [{ en, ru, ar }] : a language that is missing reads [JUndefined]. *)
Record Translations : Type := mkTranslations {
  en : JsVal;
  ru : JsVal;
  ar : JsVal
}.

(** [{ colors, storage, versions }] with entries of type [A]. *)
Record Variants (A : Type) : Type := mkVariants {
  colors : A;
  storage : A;
  versions : A
}.
Arguments mkVariants {A} colors storage versions.
Arguments colors {A} v.
Arguments storage {A} v.
Arguments versions {A} v.

(** A product as the page receives it: the fields of [interface Product]
    and the three that the page reads through [(product as any)]. *)
Module Product.
Record t : Type := mk {
  id : string;
  name : string;
  slug : string;
  description : option string;
  price : Z;
  categoryId : option string;
  images : list string;
  stock : Z;
  featured : bool;
  badge : option string;
  translations : option Translations;
  specs : JsVal;
  variants : option (Variants (option (list JsVal)))
}.
End Product.

(** The state of the form ([formData]). *)
Module Form.
Record t : Type := mk {
  name : string;
  description : string;
  price : string;
  categoryId : string;
  images : list JsVal;
  stock : string;
  featured : bool;
  badge : string;
  specs : JsVal;
  variants : Variants (list JsVal);
  translations : Translations
}.
End Form.

(** The body of the request ([dataToSend]). *)
Module Payload.
Record t : Type := mk {
  name : string;
  description : string;
  slug : string;
  images : list JsVal;
  price : Z;
  stock : Z;
  categoryId : option string;
  featured : bool;
  badge : option string;
  specs : JsVal;
  variants : Variants (list string);
  translations : Translations
}.
End Payload.

Record State : Type := mkState {
  products : list JsVal;
  categories : list JsVal;
  loading : bool;
  showModal : bool;
  editingProduct : option Product.t;
  saving : bool;
  uploadingImages : bool;
  formData : Form.t
}.

(** [{ name: n, description: d }] *)
Definition translation (n d : string) : JsVal :=
  JObj [("name", JStr n); ("description", JStr d)].

Definition empty_form : Form.t :=
  Form.mk "" "" "" "" [JStr ""] "" false "" (JObj [])
          (mkVariants [] [] [])
          (mkTranslations (translation "" "") (translation "" "") (translation "" "")).

Definition initial : State :=
  mkState [] [] true false None false false empty_form.

Definition fetchProducts (answer : ServerAnswer) (st : State) : Eff State :=
  let* l := load_list "/products" "Failed to fetch products:" answer in
  ret (mkState l (categories st) false (showModal st) (editingProduct st)
               (saving st) (uploadingImages st) (formData st)).

Definition fetchCategories (answer : ServerAnswer) (st : State) : Eff State :=
  let* l := load_list "/categories" "Failed to fetch categories:" answer in
  ret (mkState (products st) l (loading st) (showModal st) (editingProduct st)
               (saving st) (uploadingImages st) (formData st)).

Definition with_form (st : State) (f : Form.t) : State :=
  mkState (products st) (categories st) (loading st) (showModal st)
          (editingProduct st) (saving st) (uploadingImages st) f.

Definition with_uploading (st : State) (b : bool) : State :=
  mkState (products st) (categories st) (loading st) (showModal st)
          (editingProduct st) (saving st) b (formData st).

Definition with_images (f : Form.t) (imgs : list JsVal) : Form.t :=
  Form.mk (Form.name f) (Form.description f) (Form.price f) (Form.categoryId f)
          imgs (Form.stock f) (Form.featured f) (Form.badge f) (Form.specs f)
          (Form.variants f) (Form.translations f).

Definition openAddModal (st : State) : State :=
  mkState (products st) (categories st) (loading st) true None
          (saving st) (uploadingImages st) empty_form.

(** [typeof v === 'object'] *)
Definition typeof_object (v : JsVal) : bool :=
  match v with
  | JNull | JArr _ | JObj _ => true
  | _ => false
  end.

(** [colors.length > 0 && typeof colors[0] === 'object' && colors[0].name] *)
Definition legacy_colors (colors : list JsVal) : result bool :=
  match colors with
  | [] => Ok false
  | first :: _ =>
      if typeof_object first
      then Js.bind (get first "name") (fun n => Ok (truthy n))
      else Ok false
  end.

(** [colors.map((color) => color.name)] *)
Fixpoint color_names (colors : list JsVal) : result (list JsVal) :=
  match colors with
  | [] => Ok []
  | color :: rest =>
      Js.bind (get color "name") (fun n =>
      Js.bind (color_names rest) (fun ns => Ok (n :: ns)))
  end.

(** The form that [openEditModal(product)] fills in. *)
Definition edit_form (product : Product.t) : result Form.t :=
  let translations :=
    default (mkTranslations JUndefined JUndefined JUndefined)
            (Product.translations product) in
  let specs := or_else (Product.specs product) (JObj []) in
  let variants :=
    default (mkVariants (Some []) (Some []) (Some [])) (Product.variants product) in
  let colors := default [] (colors variants) in
  Js.bind (legacy_colors colors) (fun legacy =>
  Js.bind (if legacy then color_names colors else Ok colors) (fun colors =>
  let description := default "" (Product.description product) in
  let fallback := translation (Product.name product) description in
  Ok (Form.mk
        (Product.name product)
        description
        (number_toString (Product.price product))
        (default "" (Product.categoryId product))
        (match Product.images product with
         | [] => [JStr ""]
         | imgs => map JStr imgs
         end)
        (number_toString (Product.stock product))
        (Product.featured product)
        (default "" (Product.badge product))
        specs
        (mkVariants colors
                    (default [] (storage variants))
                    (default [] (versions variants)))
        (mkTranslations (or_else (en translations) fallback)
                        (or_else (ru translations) fallback)
                        (or_else (ar translations) fallback))))).

(** [openEditModal]: [setEditingProduct(product)] comes first; when the
    legacy test throws, the handler is left with that update made and
    neither the form nor the modal touched. The result is how the
    handler ends, the state is the state of the page afterwards. *)
Definition openEditModal (product : Product.t) (st : State) : result unit * State :=
  match edit_form product with
  | Ok f =>
      (Ok tt,
       mkState (products st) (categories st) (loading st) true (Some product)
               (saving st) (uploadingImages st) f)
  | Throw e =>
      (Throw e,
       mkState (products st) (categories st) (loading st) (showModal st) (Some product)
               (saving st) (uploadingImages st) (formData st))
  end.

Definition closeModal (st : State) : State :=
  mkState (products st) (categories st) (loading st) false None
          (saving st) (uploadingImages st) (formData st).

(** [list.flatMap(x => x.split(',').map(y => y.trim())).filter(x => x !== '')] *)
Fixpoint split_entries (l : list JsVal) : result (list string) :=
  match l with
  | [] => Ok []
  | JStr s :: rest =>
      Js.bind (split_entries rest) (fun r => Ok (map trim (split "," s) ++ r))
  | _ :: _ => Throw (TypeError "split is not a function")
  end.

Definition processed (l : list JsVal) : result (list string) :=
  Js.bind (split_entries l) (fun r =>
  Ok (List.filter (fun x => negb (is_empty x)) r)).

(** [images.filter(img => img.trim() !== '')] *)
Fixpoint non_blank (l : list JsVal) : result (list JsVal) :=
  match l with
  | [] => Ok []
  | JStr s :: rest =>
      Js.bind (non_blank rest) (fun r =>
      Ok (if is_empty (trim s) then r else JStr s :: r))
  | _ :: _ => Throw (TypeError "trim is not a function")
  end.

(** [x || undefined] for a string *)
Definition or_undefined (s : string) : option string :=
  if is_empty s then None else Some s.

Definition dataToSend (formData : Form.t) : result Payload.t :=
  Js.bind (processed (colors (Form.variants formData))) (fun cs =>
  Js.bind (processed (storage (Form.variants formData))) (fun ss =>
  Js.bind (processed (versions (Form.variants formData))) (fun vs =>
  Js.bind (non_blank (Form.images formData)) (fun imgs =>
  Ok (Payload.mk
        (Form.name formData)
        (Form.description formData)
        (Slug.generateSlug (Form.name formData))
        imgs
        (number_or_zero (Form.price formData))
        (number_or_zero (Form.stock formData))
        (or_undefined (Form.categoryId formData))
        (Form.featured formData)
        (or_undefined (Form.badge formData))
        (Form.specs formData)
        (mkVariants cs ss vs)
        (Form.translations formData)))))).

Definition optional_field (k : string) (v : option string) : list (string * JsVal) :=
  match v with
  | Some s => [(k, JStr s)]
  | None => []
  end.

(** The object that goes on the wire; a field that is [undefined] is
    left out by the serialisation. *)
Definition payload_json (d : Payload.t) : JsVal :=
  JObj ([("name", JStr (Payload.name d));
         ("description", JStr (Payload.description d));
         ("slug", JStr (Payload.slug d));
         ("images", JArr (Payload.images d));
         ("price", JNum (Payload.price d));
         ("stock", JNum (Payload.stock d))]
        ++ optional_field "categoryId" (Payload.categoryId d)
        ++ [("featured", JBool (Payload.featured d))]
        ++ optional_field "badge" (Payload.badge d)
        ++ [("specs", Payload.specs d);
            ("variants",
             JObj [("colors", JArr (map JStr (colors (Payload.variants d))));
                   ("storage", JArr (map JStr (storage (Payload.variants d))));
                   ("versions", JArr (map JStr (versions (Payload.variants d))))]);
            ("translations",
             JObj [("en", en (Payload.translations d));
                   ("ru", ru (Payload.translations d));
                   ("ar", ar (Payload.translations d))])]).

Definition with_saving (st : State) (b : bool) : State :=
  mkState (products st) (categories st) (loading st) (showModal st)
          (editingProduct st) b (uploadingImages st) (formData st).

(** [handleSubmit]: [save_answer] answers the PATCH or POST, [list_answer]
    the list fetch that follows a successful save. *)
Definition handleSubmit (save_answer list_answer : ServerAnswer) (st : State)
  : Eff State :=
  let failed :=
    emit (Notified (match editingProduct st with
                    | Some _ => "Failed to update product"
                    | None => "Failed to create product"
                    end) "error") ;;
    emit (ConsoleError "Failed to save product:") ;;
    ret (with_saving st false) in
  match dataToSend (formData st) with
  | Throw _ => failed
  | Ok d =>
      let* r :=
        match editingProduct st with
        | Some p => api_patch ("/products/" ++ Product.id p) (payload_json d) save_answer
        | None => api_post "/products" (payload_json d) save_answer
        end in
      match r with
      | Throw _ => failed
      | Ok _ =>
          emit (Notified (match editingProduct st with
                          | Some _ => "Product updated successfully"
                          | None => "Product created successfully"
                          end) "success") ;;
          let* st' := fetchProducts list_answer st in
          ret (with_saving (closeModal st') false)
      end
  end.

(** ** The operations on the image fields of the form *)

Definition addImageField (f : Form.t) : Form.t :=
  with_images f (Form.images f ++ [JStr ""]).

(** [images.filter((_, i) => i !== index)] *)
Fixpoint remove_at {A : Type} (index : nat) (l : list A) : list A :=
  match l, index with
  | [], _ => []
  | _ :: rest, O => rest
  | x :: rest, S i => x :: remove_at i rest
  end.

Definition removeImageField (index : nat) (f : Form.t) : Form.t :=
  with_images f (match remove_at index (Form.images f) with
                 | [] => [JStr ""]
                 | newImages => newImages
                 end).

(** [newImages[index] = value] on an array: a write behind the end
    extends the array, the holes in between read [undefined]. *)
Fixpoint array_set (index : nat) (value : JsVal) (l : list JsVal) : list JsVal :=
  match l, index with
  | [], O => [value]
  | [], S i => JUndefined :: array_set i value []
  | _ :: rest, O => value :: rest
  | x :: rest, S i => x :: array_set i value rest
  end.

Definition updateImageField (index : nat) (value : string) (f : Form.t) : Form.t :=
  with_images f (array_set index (JStr value) (Form.images f)).

(** [response.data.data?.images || response.data.images || []] *)
Definition uploaded_images (body : JsVal) : result JsVal :=
  Js.bind (get body "data") (fun inner =>
  let first := match inner with
               | JUndefined | JNull => JUndefined
               | _ => get_opt inner "images"
               end in
  Js.bind (get body "images") (fun second =>
  Ok (or_else (or_else first second) (JArr [])))).

(** The elements that [...v] spreads into an array literal. *)
Definition spread_elements (v : JsVal) : result (list JsVal) :=
  match v with
  | JArr items => Ok items
  | JStr s => Ok (map (fun c => JStr (String c EmptyString)) (list_ascii_of_string s))
  | _ => Throw (TypeError "is not iterable")
  end.

Definition is_empty_string (v : JsVal) : bool :=
  match v with
  | JStr s => is_empty s
  | _ => false
  end.

(** [handleImageUpload] once the files have passed the checks of type and
    size: the upload request and what its answer does to the form. *)
Definition handleImageUpload (files : JsVal) (answer : ServerAnswer) (st : State)
  : Eff State :=
  let* r := send (mkRequest POST "/products/images"
                    (<["Content-Type" := "multipart/form-data"]> base_headers)
                    files) answer in
  match Js.bind r (fun response =>
        Js.bind (uploaded_images (data response)) spread_elements) with
  | Ok uploadedImages =>
      let currentImages :=
        List.filter (fun img => negb (is_empty_string img))
                    (Form.images (formData st)) in
      emit (Notified (number_toString (Z.of_nat (List.length uploadedImages))
                      ++ " image(s) uploaded successfully") "success") ;;
      ret (with_uploading
             (with_form st (with_images (formData st) (currentImages ++ uploadedImages)))
             false)
  | Throw _ =>
      emit (Notified "Failed to upload images" "error") ;;
      emit (ConsoleError "Failed to upload images:") ;;
      ret (with_uploading st false)
  end.

(** ** The checks in front of the upload *)

(** What the handler reads of a selected file. *)
Record File : Type := mkFile {
  file_type : string;         (* the MIME type *)
  file_size : Z               (* bytes *)
}.

Definition max_image_size : Z := 5 * 1024 * 1024.

(** The loop over the files: the message for the first file that is no
    image or is larger than 5MB. *)
Fixpoint first_refusal (files : list File) : option string :=
  match files with
  | [] => None
  | file :: rest =>
      if negb (startsWith (file_type file) "image/")
      then Some "Please select only image files"
      else if (file_size file >? max_image_size)%Z
      then Some "Image size must be less than 5MB"
      else first_refusal rest
  end.

Definition file_json (file : File) : JsVal :=
  JObj [("type", JStr (file_type file)); ("size", JNum (file_size file))].

(** The [onChange] of the file input: [files] is [e.target.files]. *)
Definition onImageInput (files : option (list File)) (answer : ServerAnswer) (st : State)
  : Eff State :=
  match files with
  | None | Some [] => ret st
  | Some selected =>
      match first_refusal selected with
      | Some message => emit (Notified message "error") ;; ret st
      | None => handleImageUpload (JArr (map file_json selected)) answer st
      end
  end.

(** ** Deleting a product *)

(** [handleDelete(id)]: [confirmed] is the answer of the [confirm]
    dialog. *)
Definition handleDelete (id : string) (confirmed : bool)
           (delete_answer list_answer : ServerAnswer) (st : State) : Eff State :=
  if negb confirmed then ret st
  else
    let* r := api_delete ("/products/" ++ id) delete_answer in
    match r with
    | Ok _ =>
        emit (Notified "Product deleted successfully" "success") ;;
        fetchProducts list_answer st
    | Throw _ =>
        emit (Notified "Failed to delete product" "error") ;;
        emit (ConsoleError "Failed to delete product:") ;;
        ret st
    end.

(** ** The rows of the specifications *)

Definition with_specs (f : Form.t) (specs : JsVal) : Form.t :=
  Form.mk (Form.name f) (Form.description f) (Form.price f) (Form.categoryId f)
          (Form.images f) (Form.stock f) (Form.featured f) (Form.badge f) specs
          (Form.variants f) (Form.translations f).

(** [delete o[k]] on the properties of an object *)
Definition remove_field (k : string) (fields : list (string * JsVal))
  : list (string * JsVal) :=
  List.filter (fun kv => negb (String.eqb k (fst kv))) fields.

(** The rows that the form shows: [Object.entries(formData.specs)]. *)
Definition spec_rows (f : Form.t) : list (string * JsVal) := own_fields (Form.specs f).

(** The name input of the row [key]:
    [{ ...specs }], [delete newSpecs[key]], [newSpecs[name] = value],
    where [value] is the value that the row shows. *)
Definition renameSpec (key name : string) (f : Form.t) : Form.t :=
  let fields := own_fields (Form.specs f) in
  let value := default JUndefined (lookup_field key fields) in
  with_specs f (JObj (assign_field name value (remove_field key fields))).

(** The value input of the row [key]:
    [{ ...specs }], [newSpecs[key] = value]. *)
Definition updateSpec (key value : string) (f : Form.t) : Form.t :=
  with_specs f (JObj (assign_field key (JStr value) (own_fields (Form.specs f)))).

(** The remove button of the row [key]. *)
Definition removeSpec (key : string) (f : Form.t) : Form.t :=
  with_specs f (JObj (remove_field key (own_fields (Form.specs f)))).

(** "+ Add specification": the new row is named after the clock,
    [`spec_${Date.now()}`]. *)
Definition addSpec (date_now : Z) (f : Form.t) : Form.t :=
  with_specs f (JObj (assign_field ("spec_" ++ number_toString date_now) (JStr "")
                                   (own_fields (Form.specs f)))).

(** ** Opening the edit form and submitting it unchanged *)



(** An entry of a variant list in the current shape: a text that is not
    empty, has no comma and no white space around it. *)
Definition clean_entry (s : string) : bool :=
  negb (is_empty s)
  && all_chars (fun c => negb (Ascii.eqb c ",")) s
  && String.eqb (trim s) s.

Definition not_blank (s : string) : bool := negb (is_empty (trim s)).



End Products.

(* ===================================================================== *)
(** * The Categories page (src/pages/Categories.tsx) *)
(* ===================================================================== *)

Module Categories.
Import JsString Js Browser Api Pages.
Local Open Scope eff_scope.

Module Category.
Record t : Type := mk {
  id : string;
  name : string;
  description : string;
  slug : string;
  imageUrl : option string;
  translations : option Products.Translations   (* (category as any).translations *)
}.
End Category.

Module Form.
Record t : Type := mk {
  name : string;
  description : string;
  imageUrl : string;
  translations : Products.Translations
}.
End Form.

Module Payload.
Record t : Type := mk {
  name : string;
  description : string;
  slug : string;
  imageUrl : option string;
  translations : Products.Translations
}.
End Payload.

Record State : Type := mkState {
  list : ListState;           (* categories, loading *)
  showModal : bool;
  editingCategory : option Category.t;
  formData : Form.t;
  saving : bool
}.

Definition empty_form : Form.t :=
  Form.mk "" "" ""
    (Products.mkTranslations (Products.translation "" "") (Products.translation "" "")
                             (Products.translation "" "")).

Definition initial : State :=
  mkState (mkListState [] true) false None empty_form false.

Definition openAddModal (st : State) : State :=
  mkState (list st) true None empty_form (saving st).

Definition edit_form (category : Category.t) : Form.t :=
  let translations :=
    default (Products.mkTranslations JUndefined JUndefined JUndefined)
            (Category.translations category) in
  let fallback := Products.translation (Category.name category)
                                       (Category.description category) in
  Form.mk (Category.name category)
          (Category.description category)
          (default "" (Category.imageUrl category))
          (Products.mkTranslations
             (or_else (Products.en translations) fallback)
             (or_else (Products.ru translations) fallback)
             (or_else (Products.ar translations) fallback)).

Definition openEditModal (category : Category.t) (st : State) : State :=
  mkState (list st) true (Some category) (edit_form category) (saving st).

(** Unlike the Products page, closing the modal also resets the form. *)
Definition closeModal (st : State) : State :=
  mkState (list st) false None empty_form (saving st).

Definition dataToSend (formData : Form.t) : Payload.t :=
  Payload.mk (Form.name formData)
             (Form.description formData)
             (Slug.generateSlug (Form.name formData))
             (Products.or_undefined (Form.imageUrl formData))
             (Form.translations formData).

Definition payload_json (d : Payload.t) : JsVal :=
  JObj ([("name", JStr (Payload.name d));
         ("description", JStr (Payload.description d));
         ("slug", JStr (Payload.slug d))]
        ++ Products.optional_field "imageUrl" (Payload.imageUrl d)
        ++ [("translations",
             JObj [("en", Products.en (Payload.translations d));
                   ("ru", Products.ru (Payload.translations d));
                   ("ar", Products.ar (Payload.translations d))])]).

Definition with_saving (st : State) (b : bool) : State :=
  mkState (list st) (showModal st) (editingCategory st) (formData st) b.

Definition with_list (st : State) (l : ListState) : State :=
  mkState l (showModal st) (editingCategory st) (formData st) (saving st).

Definition handleSubmit (save_answer list_answer : ServerAnswer) (st : State)
  : Eff State :=
  let d := dataToSend (formData st) in
  let* r :=
    match editingCategory st with
    | Some c => api_patch ("/categories/" ++ Category.id c) (payload_json d) save_answer
    | None => api_post "/categories" (payload_json d) save_answer
    end in
  match r with
  | Ok _ =>
      emit (Notified (match editingCategory st with
                      | Some _ => "Category updated successfully"
                      | None => "Category created successfully"
                      end) "success") ;;
      let* l := fetchCategories list_answer (list st) in
      ret (with_saving (closeModal (with_list st l)) false)
  | Throw _ =>
      emit (Notified (match editingCategory st with
                      | Some _ => "Failed to update category"
                      | None => "Failed to create category"
                      end) "error") ;;
      emit (ConsoleError "Failed to save category:") ;;
      ret (with_saving st false)
  end.

Definition handleDelete (category : Category.t) (confirmed : bool)
           (delete_answer list_answer : ServerAnswer) (st : State) : Eff State :=
  if negb confirmed then ret st
  else
    let* r := api_delete ("/categories/" ++ Category.id category) delete_answer in
    match r with
    | Ok _ =>
        emit (Notified "Category deleted successfully" "success") ;;
        let* l := fetchCategories list_answer (list st) in
        ret (with_list st l)
    | Throw _ =>
        emit (Notified "Failed to delete category" "error") ;;
        emit (ConsoleError "Failed to delete category:") ;;
        ret st
    end.

End Categories.

(* ===================================================================== *)
(** * The About Us page (src/pages/AboutUs.tsx) *)
(* ===================================================================== *)

Module AboutUs.
Import JsString Js Browser Api Pages.
Local Open Scope eff_scope.

Inductive Lang : Type := en | ru | ar.

(** [{ en, ru, ar }], each an object with an open set of fields. *)
Record Translations : Type := mkTranslations {
  t_en : JsVal;
  t_ru : JsVal;
  t_ar : JsVal
}.

Definition translation_of (t : Translations) (lang : Lang) : JsVal :=
  match lang with
  | en => t_en t
  | ru => t_ru t
  | ar => t_ar t
  end.

Module Section.
Record t : Type := mk {
  id : string;
  key : string;
  translations : option Translations
}.
End Section.

Module Form.
Record t : Type := mk {
  key : string;
  translations : Translations
}.
End Form.

Record State : Type := mkState {
  list : ListState;           (* aboutUsSections, loading *)
  showModal : bool;
  editingSection : option Section.t;
  formData : Form.t;
  saving : bool
}.

Definition empty_form : Form.t :=
  Form.mk "" (mkTranslations (JObj []) (JObj []) (JObj [])).

Definition initial : State :=
  mkState (mkListState [] true) false None empty_form false.

Definition openAddModal (st : State) : State :=
  mkState (list st) true None empty_form (saving st).

Definition openEditModal (section : Section.t) (st : State) : State :=
  let translations :=
    default (mkTranslations JUndefined JUndefined JUndefined)
            (Section.translations section) in
  mkState (list st) true (Some section)
          (Form.mk (Section.key section)
                   (mkTranslations (or_else (t_en translations) (JObj []))
                                   (or_else (t_ru translations) (JObj []))
                                   (or_else (t_ar translations) (JObj []))))
          (saving st).

Definition closeModal (st : State) : State :=
  mkState (list st) false None (formData st) (saving st).

(** [updateTranslation(lang, field, value)] *)
Definition updateTranslation (lang : Lang) (field : string) (value : JsVal)
           (f : Form.t) : Form.t :=
  let t := Form.translations f in
  let changed := spread_with (translation_of t lang) field value in
  Form.mk (Form.key f)
          (match lang with
           | en => mkTranslations changed (t_ru t) (t_ar t)
           | ru => mkTranslations (t_en t) changed (t_ar t)
           | ar => mkTranslations (t_en t) (t_ru t) changed
           end).

(** [formData.translations[lang]?.[field] || ''] *)
Definition getTranslationValue (lang : Lang) (field : string) (f : Form.t) : JsVal :=
  let t := translation_of (Form.translations f) lang in
  or_else (match t with
           | JUndefined | JNull => JUndefined
           | _ => get_opt t field
           end) (JStr "").

Definition payload_json (f : Form.t) : JsVal :=
  JObj [("key", JStr (Form.key f));
        ("translations",
         JObj [("en", t_en (Form.translations f));
               ("ru", t_ru (Form.translations f));
               ("ar", t_ar (Form.translations f))])].

Definition with_saving (st : State) (b : bool) : State :=
  mkState (list st) (showModal st) (editingSection st) (formData st) b.

Definition with_list (st : State) (l : ListState) : State :=
  mkState l (showModal st) (editingSection st) (formData st) (saving st).

(** An update is addressed by the key that the section had when the
    modal was opened, not by the key of the form. *)
Definition handleSubmit (save_answer list_answer : ServerAnswer) (st : State)
  : Eff State :=
  let* r :=
    match editingSection st with
    | Some section =>
        api_put ("/settings/about-us/" ++ Section.key section)
                (payload_json (formData st)) save_answer
    | None => api_post "/settings/about-us" (payload_json (formData st)) save_answer
    end in
  match r with
  | Ok _ =>
      emit (Notified (match editingSection st with
                      | Some _ => "About Us section updated successfully"
                      | None => "About Us section created successfully"
                      end) "success") ;;
      let* l := fetchAboutUs list_answer (list st) in
      ret (with_saving (closeModal (with_list st l)) false)
  | Throw _ =>
      emit (Notified (match editingSection st with
                      | Some _ => "Failed to update About Us section"
                      | None => "Failed to create About Us section"
                      end) "error") ;;
      emit (ConsoleError "Failed to save About Us section:") ;;
      ret (with_saving st false)
  end.

Definition handleDelete (key : string) (confirmed : bool)
           (delete_answer list_answer : ServerAnswer) (st : State) : Eff State :=
  if negb confirmed then ret st
  else
    let* r := api_delete ("/settings/about-us/" ++ key) delete_answer in
    match r with
    | Ok _ =>
        emit (Notified "About Us section deleted successfully" "success") ;;
        let* l := fetchAboutUs list_answer (list st) in
        ret (with_list st l)
    | Throw _ =>
        emit (Notified "Failed to delete About Us section" "error") ;;
        emit (ConsoleError "Failed to delete About Us section:") ;;
        ret st
    end.

End AboutUs.

(* ===================================================================== *)
(** * The upload of the hero image (src/pages/HeroSettings.tsx) *)
(* ===================================================================== *)

Module Hero.
Import JsString Js Browser Api Pages.
Local Open Scope eff_scope.

Record State : Type := mkState {
  hero : HeroState;           (* settings, loading *)
  uploading : bool
}.

(** [handleImageUpload]: [file] is [e.target.files?.[0]]; [upload_answer]
    answers the POST, [settings_answer] the fetch of the settings that
    follows an accepted upload. *)
Definition handleImageUpload (file : option Products.File)
           (upload_answer settings_answer : ServerAnswer) (st : State) : Eff State :=
  match file with
  | None => ret st
  | Some f =>
      if negb (startsWith (Products.file_type f) "image/")
      then emit (Notified "Please select an image file" "error") ;; ret st
      else if (Products.file_size f >? 5 * 1024 * 1024)%Z
      then emit (Notified "Image size must be less than 5MB" "error") ;; ret st
      else
        let* r := send (mkRequest POST "/settings/hero/image"
                          (<["Content-Type" := "multipart/form-data"]> base_headers)
                          (Products.file_json f)) upload_answer in
        match r with
        | Ok _ =>
            emit (Notified "Image uploaded successfully" "success") ;;
            let* h := fetchSettings settings_answer (hero st) in
            ret (mkState h false)
        | Throw _ =>
            emit (Notified "Failed to upload image" "error") ;;
            emit (ConsoleError "Failed to upload image:") ;;
            ret (mkState (hero st) false)
        end
  end.

End Hero.

(* ===================================================================== *)
(** * Sample inputs *)
(* ===================================================================== *)

Module Samples.
Import JsString Js Browser Api.

(** A session on the orders page: token in both stores. *)
Definition signed_in : World :=
  mkWorld {[ "admin_token" := "T0K3N" ]}
          [mkCookie "theme" "dark" "/" None;
           mkCookie "admin_token" "T0K3N" "/" (Some 1700604800%Z)]
          "/orders" 1700000000 [].

(** A fresh visit of the login page: no token anywhere. *)
Definition signed_out : World :=
  mkWorld ∅ [mkCookie "theme" "dark" "/" None] "/login" 1700000000 [].

(** Local storage was cleared, the cookie survived; the token is padded
    base64. *)
Definition cookie_only : World :=
  mkWorld ∅ [mkCookie "admin_token" "YWJjZA==" "/" (Some 1700604800%Z)]
          "/products" 1700000000 [].

(** Local storage is empty and two token cookies are visible at
    /products: the one for the whole site, stored first, and one for
    /products. *)
Definition two_paths : World :=
  mkWorld ∅ [mkCookie "admin_token" "ROOT" "/" None;
             mkCookie "admin_token" "DEEP" "/products" None]
          "/products" 1700000000 [].

Definition list_products : Request :=
  mkRequest GET "/products" base_headers JUndefined.

Definition admin_user : JsVal :=
  JObj [("id", JStr "u1"); ("email", JStr "admin@apple-clone.com");
        ("fullName", JStr "Admin"); ("role", JStr "admin")].

Definition customer_user : JsVal :=
  JObj [("id", JStr "u2"); ("email", JStr "jo@example.com");
        ("fullName", JStr "Jo"); ("role", JStr "customer")].

Definition login_body (user : JsVal) : JsVal :=
  envelope (JObj [("access_token", JStr "T0K3N"); ("user", user)])
           (JStr "2024-01-01T00:00:00.000Z").

(** A login answer without the user. *)
Definition login_body_no_user : JsVal :=
  envelope (JObj [("access_token", JStr "T0K3N")]) (JStr "2024-01-01T00:00:00.000Z").

(** The orders page with the detail modal open on order o1. *)
Definition order_o1 : JsVal :=
  JObj [("id", JStr "o1"); ("status", JStr "shipped"); ("total", JNum 1299);
        ("items", JArr [JObj [("id", JStr "i1"); ("quantity", JNum 1)]])].

Definition orders_with_modal : Orders.State :=
  Orders.mkState [JObj [("id", JStr "o1"); ("status", JStr "shipped")]]
                 false order_o1 true.



(** An upload that the server accepts without returning an image. *)
Definition upload_without_images : ServerAnswer :=
  Reply 201 (envelope (JObj [("images", JArr [])]) (JStr "2024-01-01T00:00:00.000Z")).

End Samples.

(* ===================================================================== *)
(** * Properties of the slug derivation *)
(* ===================================================================== *)

Section SlugProperties.
Import JsString Slug.

Lemma replace_from_skip (m : matcher) (rep s : string) (k : nat) (b : bool) :
  replace_from m rep b (S k) s = replace_from m rep false 0 (drop (S k) s).
Proof.
  revert k b. induction s as [|c s IH]; intros k b; [reflexivity|].
  destruct k as [|k]; simpl.
  - now destruct s.
  - apply IH.
Qed.

Lemma replace_from_drop (m : matcher) (rep s : string) (k : nat) :
  replace_from m rep false k s = replace_from m rep false 0 (drop k s).
Proof.
  destruct k as [|k]; [now destruct s | apply replace_from_skip].
Qed.

Lemma drop_length (s : string) (k : nat) :
  String.length (drop k s) <= String.length s.
Proof.
  revert k. induction s as [|c s IH]; intros [|k]; simpl; try lia.
  specialize (IH k). lia.
Qed.

Lemma collapse_scan_in_run (s : string) :
  collapse_scan true s = collapse_scan false (drop (span_outside s) s).
Proof.
  induction s as [|c s IH]; [reflexivity|].
  simpl. destruct (is_slug_char c) eqn:E; simpl.
  - now rewrite E.
  - exact IH.
Qed.

Lemma replace_non_alnum_scan (s : string) (b : bool) :
  replace_from re_non_alnum_plus "-" b 0 s = collapse_scan false s.
Proof.
  remember (String.length s) as n eqn:Hn.
  revert s b Hn.
  induction n as [n IH] using lt_wf_ind. intros s b Hn.
  destruct s as [|c s]; [reflexivity|].
  simpl in Hn. cbn [replace_from collapse_scan].
  unfold re_non_alnum_plus. cbn [span_outside].
  destruct (is_slug_char c) eqn:E.
  - f_equal. apply (IH (String.length s)); [lia | reflexivity].
  - cbn [append]. f_equal.
    rewrite replace_from_drop, collapse_scan_in_run.
    apply (IH (String.length (drop (span_outside s) s))); [|reflexivity].
    pose proof (drop_length s (span_outside s)). lia.
Qed.

Lemma collapse_scan_runs (s : string) :
  collapse_scan false s = collapse_runs s /\
  collapse_scan true s =
    match runs s with
    | (false, _) :: rest => concat_strings (map hyphen_for_run rest)
    | l => concat_strings (map hyphen_for_run l)
    end.
Proof.
  unfold collapse_runs.
  induction s as [|c s [IHf IHt]]; [split; reflexivity|].
  cbn [collapse_scan runs].
  destruct (is_slug_char c) eqn:E, (runs s) as [|[[] r] rest];
    cbn [Bool.eqb map concat_strings hyphen_for_run fst snd append] in *;
    rewrite ?IHf, ?IHt; split; reflexivity.
Qed.

Lemma slug_char_not_hyphen (c : ascii) :
  is_slug_char c = true -> is_hyphen c = false.
Proof.
  destruct c as [[] [] [] [] [] [] [] []]; vm_compute; congruence.
Qed.

Lemma collapse_scan_no_double (s : string) (b : bool) :
  no_double_hyphen (collapse_scan b s) = true /\
  head_is_hyphen (collapse_scan true s) = false.
Proof.
  revert b. induction s as [|c s IH]; intros b; [split; reflexivity|].
  cbn [collapse_scan].
  destruct (is_slug_char c) eqn:E.
  - cbn [no_double_hyphen head_is_hyphen].
    rewrite (slug_char_not_hyphen c E). cbn.
    split; [apply (IH false) | reflexivity].
  - destruct (IH true) as [IH1 IH2].
    destruct b; [now split|].
    cbn [no_double_hyphen head_is_hyphen]. rewrite IH1, IH2.
    split; reflexivity.
Qed.

Lemma replace_edge_inner (t : string) :
  replace_from re_edge_hyphen "" false 0 t = chop_trailing_hyphen t.
Proof.
  induction t as [|c t IH]; [reflexivity|].
  cbn [replace_from re_edge_hyphen chop_trailing_hyphen].
  destruct t as [|c' t].
  - cbn. now destruct (is_hyphen c).
  - cbn [is_empty]. destruct (is_hyphen c); now rewrite IH.
Qed.

Lemma replace_edge_global (t : string) :
  replace_global re_edge_hyphen "" t =
  chop_trailing_hyphen (chop_leading_hyphen t).
Proof.
  unfold replace_global. destruct t as [|c t]; [reflexivity|].
  cbn [replace_from re_edge_hyphen chop_leading_hyphen].
  destruct (is_hyphen c) eqn:E; cbn [append].
  - apply replace_edge_inner.
  - rewrite replace_edge_inner.
    destruct t; cbn [chop_trailing_hyphen]; now rewrite ?E.
Qed.

Lemma strip_leading_once (t : string) :
  no_double_hyphen t = true ->
  strip_leading_hyphens t = chop_leading_hyphen t /\
  no_double_hyphen (chop_leading_hyphen t) = true.
Proof.
  destruct t as [|c t]; [now split|].
  cbn [no_double_hyphen strip_leading_hyphens chop_leading_hyphen].
  destruct (is_hyphen c) eqn:E; cbn [andb negb].
  - intros H. apply andb_prop in H as [Hh Hn]. split; [|exact Hn].
    destruct t as [|c' t]; [reflexivity|]. cbn in Hh |- *.
    now destruct (is_hyphen c').
  - intros H. split; [reflexivity|].
    cbn [no_double_hyphen]. now rewrite E.
Qed.

Lemma chop_trailing_empty (t : string) :
  chop_trailing_hyphen t = "" ->
  t = "" \/ exists c, t = String c "" /\ is_hyphen c = true.
Proof.
  destruct t as [|c [|c' t]]; cbn; [now left | |discriminate].
  destruct (is_hyphen c) eqn:E; [|discriminate].
  intros _. right. now exists c.
Qed.

Lemma strip_trailing_once (t : string) :
  no_double_hyphen t = true ->
  strip_trailing_hyphens t = chop_trailing_hyphen t.
Proof.
  induction t as [|c t IH]; [reflexivity|].
  cbn [no_double_hyphen]. intros H. apply andb_prop in H as [Hh Hn].
  specialize (IH Hn).
  change (strip_trailing_hyphens (String c t)) with
    (match strip_trailing_hyphens t with
     | EmptyString => if is_hyphen c then EmptyString else String c EmptyString
     | r => String c r
     end).
  rewrite IH. clear IH.
  destruct t as [|c' t]; [reflexivity|].
  change (chop_trailing_hyphen (String c (String c' t))) with
    (String c (chop_trailing_hyphen (String c' t))).
  destruct (chop_trailing_hyphen (String c' t)) eqn:Ec; [|reflexivity].
  apply chop_trailing_empty in Ec as [Ec|[d [Ec Hd]]]; [discriminate|].
  injection Ec as -> ->. cbn in Hh. rewrite Hd in Hh.
  destruct (is_hyphen c); [discriminate | reflexivity].
Qed.

Lemma generateSlug_scan (name : string) :
  generateSlug name =
  chop_trailing_hyphen (chop_leading_hyphen (collapse_scan false (toLowerCase name))).
Proof.
  unfold generateSlug. rewrite replace_edge_global.
  unfold replace_global. now rewrite replace_non_alnum_scan.
Qed.

(** [runs] cuts a string into its maximal runs. *)
Lemma runs_concat (s : string) : concat_strings (map snd (runs s)) = s.
Proof.
  induction s as [|c s IH]; [reflexivity|].
  cbn [runs]. destruct (runs s) as [|[b' r] rest].
  - cbn in IH |- *. now rewrite <- IH.
  - cbn [map snd concat_strings] in IH.
    destruct (Bool.eqb (is_slug_char c) b'); cbn [map snd concat_strings];
      now rewrite <- IH.
Qed.

Lemma runs_maximal (s : string) :
  forallb run_ok (runs s) = true /\ alternating (runs s) = true.
Proof.
  induction s as [|c s [IHok IHalt]]; [split; reflexivity|].
  cbn [runs]. destruct (runs s) as [|[b' r] rest].
  - split; [|reflexivity]. cbn. now rewrite eqb_reflx.
  - cbn [forallb] in IHok. apply andb_prop in IHok as [Hr Hrest].
    unfold run_ok in Hr. cbn [fst snd] in Hr. apply andb_prop in Hr as [Hne Hall].
    destruct (Bool.eqb (is_slug_char c) b') eqn:E.
    + split.
      * cbn [forallb]. rewrite Hrest. unfold run_ok. cbn [fst snd is_empty all_chars negb].
        apply eqb_prop in E. rewrite <- E in Hall. now rewrite eqb_reflx, Hall.
      * cbn [alternating] in IHalt |- *. apply eqb_prop in E. now rewrite E.
    + split.
      * cbn [forallb]. rewrite Hrest. unfold run_ok.
        cbn [fst snd is_empty all_chars negb]. now rewrite eqb_reflx, Hne, Hall.
      * cbn [alternating] in IHalt |- *. rewrite E. cbn [negb andb]. exact IHalt.
Qed.

Lemma collapse_scan_chars (s : string) (b : bool) :
  all_chars (fun c => is_slug_char c || is_hyphen c) (collapse_scan b s) = true.
Proof.
  revert b. induction s as [|c s IH]; intros b; [reflexivity|].
  cbn [collapse_scan]. destruct (is_slug_char c) eqn:E.
  - cbn [all_chars]. now rewrite E, IH.
  - destruct b; [apply IH|]. cbn [all_chars]. now rewrite IH.
Qed.

Lemma chop_trailing_chars (p : ascii -> bool) (u : string) :
  all_chars p u = true -> all_chars p (chop_trailing_hyphen u) = true.
Proof.
  induction u as [|c u IH]; [reflexivity|].
  cbn [all_chars]. intros H. apply andb_prop in H as [Hc Hu].
  destruct u as [|c' u].
  - cbn. destruct (is_hyphen c); [reflexivity|]. cbn. now rewrite Hc.
  - change (chop_trailing_hyphen (String c (String c' u)))
      with (String c (chop_trailing_hyphen (String c' u))).
    cbn [all_chars]. now rewrite Hc, (IH Hu).
Qed.

Lemma chop_trailing_head (u : string) :
  head_is_hyphen (chop_trailing_hyphen u) = true -> head_is_hyphen u = true.
Proof.
  destruct u as [|c [|c' u]]; cbn; try easy.
  destruct (is_hyphen c) eqn:E; cbn; rewrite ?E; easy.
Qed.

Lemma chop_trailing_no_double (u : string) :
  no_double_hyphen u = true ->
  no_double_hyphen (chop_trailing_hyphen u) = true /\
  last_is_hyphen (chop_trailing_hyphen u) = false.
Proof.
  induction u as [|c u IH]; [now split|].
  cbn [no_double_hyphen]. intros H. apply andb_prop in H as [Hadj Hu].
  destruct (IH Hu) as [IHnd IHlast].
  destruct u as [|c' u].
  - cbn. destruct (is_hyphen c) eqn:E; [now split|]. cbn. now rewrite E.
  - change (chop_trailing_hyphen (String c (String c' u)))
      with (String c (chop_trailing_hyphen (String c' u))).
    destruct (chop_trailing_hyphen (String c' u)) as [|x rest] eqn:Ec.
    + apply chop_trailing_empty in Ec as [Ec|[d [Ec Hd]]]; [discriminate|].
      injection Ec as -> ->. cbn in Hadj. rewrite Hd, andb_true_r in Hadj.
      apply negb_true_iff in Hadj. cbn. now rewrite Hadj.
    + split.
      * change (no_double_hyphen (String c (String x rest))) with
          (negb (is_hyphen c && head_is_hyphen (String x rest))
           && no_double_hyphen (String x rest)).
        rewrite IHnd, andb_true_r.
        destruct (is_hyphen c) eqn:E; [|reflexivity].
        cbn [andb] in Hadj |- *. apply negb_true_iff in Hadj.
        destruct (head_is_hyphen (String x rest)) eqn:Eh; [|reflexivity].
        rewrite <- Ec in Eh. apply chop_trailing_head in Eh. congruence.
      * exact IHlast.
Qed.

(** A slug is made of [a-z0-9] and single hyphens, and neither starts
    nor ends with a hyphen. *)
Lemma generateSlug_shape (name : string) :
  all_chars (fun c => is_slug_char c || is_hyphen c) (generateSlug name) = true /\
  no_double_hyphen (generateSlug name) = true /\
  head_is_hyphen (generateSlug name) = false /\
  last_is_hyphen (generateSlug name) = false.
Proof.
  rewrite generateSlug_scan.
  set (t := collapse_scan false (toLowerCase name)).
  pose proof (collapse_scan_chars (toLowerCase name) false) as Hchars. fold t in Hchars.
  destruct (collapse_scan_no_double (toLowerCase name) false) as [Hnd _]. fold t in Hnd.
  destruct (strip_leading_once t Hnd) as [_ Hnd'].
  assert (Hchars' : all_chars (fun c => is_slug_char c || is_hyphen c)
                              (chop_leading_hyphen t) = true).
  { destruct t as [|c t']; [reflexivity|]. cbn [chop_leading_hyphen].
    destruct (is_hyphen c); [|exact Hchars].
    cbn [all_chars] in Hchars. now apply andb_prop in Hchars as [_ ?]. }
  assert (Hhead : head_is_hyphen (chop_leading_hyphen t) = false).
  { destruct t as [|c t']; [reflexivity|]. cbn [chop_leading_hyphen].
    destruct (is_hyphen c) eqn:E; [|cbn; exact E].
    cbn [no_double_hyphen] in Hnd. rewrite E in Hnd. cbn [andb] in Hnd.
    apply andb_prop in Hnd as [H _]. now apply negb_true_iff in H. }
  destruct (chop_trailing_no_double _ Hnd') as [H1 H2].
  repeat split.
  - now apply chop_trailing_chars.
  - exact H1.
  - destruct (head_is_hyphen (chop_trailing_hyphen (chop_leading_hyphen t))) eqn:E;
      [|reflexivity].
    apply chop_trailing_head in E. congruence.
  - exact H2.
Qed.

(** C1. [generateSlug] is a function of its argument alone and computes,
    for every input string, the lower-cased input in which every maximal
    run of characters outside [a-z0-9] is replaced by one hyphen and from
    which the hyphens at the start and at the end are stripped; on
    "iPhone 15 Pro!" it gives "iphone-15-pro". *)
Theorem generateSlug_meets_spec :
  (forall name : string, generateSlug name = slug_spec name) /\
  generateSlug "iPhone 15 Pro!" = "iphone-15-pro".
Proof.
  split; [|reflexivity].
  intros name. rewrite generateSlug_scan. unfold slug_spec, strip_hyphens.
  destruct (collapse_scan_runs (toLowerCase name)) as [<- _].
  destruct (collapse_scan_no_double (toLowerCase name) false) as [Hnd _].
  destruct (strip_leading_once _ Hnd) as [-> Hnd'].
  now rewrite (strip_trailing_once _ Hnd').
Qed.

End SlugProperties.

(* ===================================================================== *)
(** * Properties of the API client *)
(* ===================================================================== *)

Section ApiProperties.
Import JsString Js Browser Api.

Lemma events_of_logged {A : Type} (c : Eff A) (w : World) (evs : list Event) :
  log (exec c w) = log w ++ evs -> events_of c w = evs.
Proof. unfold events_of. intros ->. apply drop_app_length. Qed.

(** The request interceptor only reads, and leaves method, address and
    body of the request as they are. *)
Lemma request_interceptor_reads (config : Request) (w : World) :
  exec (request_interceptor config) w = w /\
  method (eval (request_interceptor config) w) = method config /\
  url (eval (request_interceptor config) w) = url config /\
  body (eval (request_interceptor config) w) = body config.
Proof.
  unfold request_interceptor, exec, eval, Browser.bind, getItem, document_cookie,
    read, ret.
  destruct (has_token (localStorage w !! "admin_token")) eqn:Hs.
  - destruct (localStorage w !! "admin_token") as [t|]; [|easy].
    now destruct (has_token (Some t)).
  - destruct (List.find _ _) as [authCookie|].
    + destruct (nth_error (split "=" authCookie) 1) as [t|]; [|easy].
      now destruct (has_token (Some t)).
    + destruct (localStorage w !! "admin_token") as [t|]; [|easy].
      now rewrite Hs.
Qed.

Lemma send_unfold (config : Request) (answer : ServerAnswer) (w : World) :
  send config answer w =
  let w1 := logged w [RequestSent (eval (request_interceptor config) w)] in
  match settle answer with
  | Ok response => (Ok response, w1)
  | Throw error => (Throw (eval (response_rejected error) w1),
                    exec (response_rejected error) w1)
  end.
Proof.
  destruct (request_interceptor_reads config w) as [Hw _].
  unfold send, Browser.bind at 1.
  unfold exec, eval in *.
  destruct (request_interceptor config w) as [config' w'] eqn:E.
  cbn in Hw. subst w'. cbn.
  unfold Browser.bind, emit. cbn.
  destruct (settle answer); cbn; [reflexivity|].
  unfold Browser.bind, ret.
  now destruct (response_rejected e _).
Qed.

(** A status inside 200..299 resolves with the response and touches
    nothing but the log. *)
Lemma send_resolved (config : Request) (st : Z) (d : JsVal) (w : World) :
  (200 <= st < 300)%Z ->
  send config (Reply st d) w =
  (Ok (mkResponse st d), logged w [RequestSent (eval (request_interceptor config) w)]).
Proof.
  intros H. rewrite send_unfold. cbn.
  replace (200 <=? st)%Z with true by lia.
  replace (st <? 300)%Z with true by lia.
  reflexivity.
Qed.

Lemma expired_cookie_parsed (path : string) (t : Z) :
  parse_cookie path t expired_cookie_text = mkCookie "admin_token" "" "/" (Some 0%Z).
Proof. vm_compute. reflexivity. Qed.

(** What a 401 does to the world. *)
Lemma unauthorized_world (w : World) :
  (0 <= now w)%Z ->
  exec (response_rejected (AxiosError (Some 401%Z))) w =
  mkWorld (delete "admin_token" (localStorage w))
          (evict_cookie "admin_token" "/" (cookie_jar w))
          "/login" (now w)
          (log w ++ [StorageRemoved "admin_token"; CookieAssigned expired_cookie_text]
                 ++ (if String.eqb (pathname w) "/login" then []
                     else [Navigated "/login"])).
Proof.
  intros Hnow.
  unfold response_rejected, exec, Browser.bind, removeItem, assign_cookie, read,
    navigate, ret, emit, logged.
  cbn [fst snd localStorage cookie_jar pathname now log].
  rewrite expired_cookie_parsed.
  unfold is_live. cbn [ck_expires ck_name ck_path].
  replace (now w <? 0)%Z with false by lia.
  destruct (String.eqb (pathname w) "/login") eqn:E; cbn.
  - apply String.eqb_eq in E. rewrite <- !app_assoc. cbn. now rewrite E.
  - rewrite <- !app_assoc. reflexivity.
Qed.

Lemma evict_cookie_idemp (name path : string) (jar : list Cookie) :
  evict_cookie name path (evict_cookie name path jar) = evict_cookie name path jar.
Proof.
  unfold evict_cookie. induction jar as [|c jar IH]; [reflexivity|].
  cbn. destruct (negb (same_cookie name path c)) eqn:E; cbn; rewrite ?E, IH; reflexivity.
Qed.

Lemma evict_cookie_gone (name path : string) (jar : list Cookie) :
  List.existsb (same_cookie name path) (evict_cookie name path jar) = false.
Proof.
  unfold evict_cookie. induction jar as [|c jar IH]; [reflexivity|].
  cbn. destruct (same_cookie name path c) eqn:E; cbn; rewrite ?E, IH; reflexivity.
Qed.

(** C2. Whatever request it answers, a response with status 401 makes the
    client reject the call and run the rejection handler, which removes
    the stored token and the cookie exactly once and leaves the location
    at /login, with one navigation when the location was another one and
    none when it was /login already; a second 401, arriving at /login,
    navigates nowhere and leaves token, cookies and location as they
    are. *)
Theorem unauthorized_clears_and_redirects
  (config : Request) (d : JsVal) (w : World) (Hclock : (0 <= now w)%Z) :
  let unauthorized := AxiosError (Some 401%Z) in
  let handler := response_rejected unauthorized in
  let w1 := exec handler w in
  send config (Reply 401 d) w =
    (Throw unauthorized,
     exec handler (logged w [RequestSent (eval (request_interceptor config) w)])) /\
  eval handler w = unauthorized /\
  localStorage w1 !! "admin_token" = None /\
  List.existsb (same_cookie "admin_token" "/") (cookie_jar w1) = false /\
  pathname w1 = "/login" /\
  events_of handler w =
    [StorageRemoved "admin_token"; CookieAssigned expired_cookie_text]
    ++ (if String.eqb (pathname w) "/login" then [] else [Navigated "/login"]) /\
  events_of handler w1 =
    [StorageRemoved "admin_token"; CookieAssigned expired_cookie_text] /\
  localStorage (exec handler w1) = localStorage w1 /\
  cookie_jar (exec handler w1) = cookie_jar w1 /\
  pathname (exec handler w1) = pathname w1.
Proof.
  intros unauthorized handler w1.
  assert (Hw1 : w1 = exec handler w) by reflexivity.
  unfold handler, unauthorized in Hw1. rewrite (unauthorized_world w Hclock) in Hw1.
  assert (Hclock1 : (0 <= now w1)%Z) by (rewrite Hw1; exact Hclock).
  pose proof (unauthorized_world w1 Hclock1) as Hw2.
  fold unauthorized in Hw2. fold handler in Hw2.
  assert (Hev : forall v, eval handler v = unauthorized).
  { intros v. unfold handler, unauthorized, response_rejected, eval, Browser.bind.
    destruct (removeItem _ v) as [? v1]. destruct (assign_cookie _ v1) as [? v2].
    destruct (read pathname v2) as [p v3].
    destruct (negb (p =? "/login")%string);
      [destruct (navigate _ v3) | destruct (ret tt v3)]; reflexivity. }
  repeat split.
  - rewrite send_unfold. cbn. rewrite Hev. reflexivity.
  - apply Hev.
  - rewrite Hw1. cbn. apply lookup_delete_eq.
  - rewrite Hw1. cbn. apply evict_cookie_gone.
  - rewrite Hw1. reflexivity.
  - apply events_of_logged. fold w1. rewrite Hw1. reflexivity.
  - apply events_of_logged. rewrite Hw2. cbn [log].
    replace (pathname w1) with "/login" by (rewrite Hw1; reflexivity).
    reflexivity.
  - rewrite Hw2. cbn [localStorage]. rewrite Hw1. cbn. apply delete_delete_eq.
  - rewrite Hw2. cbn [cookie_jar]. rewrite Hw1. cbn. apply evict_cookie_idemp.
  - rewrite Hw2. cbn [pathname]. rewrite Hw1. reflexivity.
Qed.

End ApiProperties.

Section ApiWitnesses.
Import JsString Js Browser Api Samples.

Lemma unauthorized_clears_and_redirects_witness :
  (0 <= now signed_in)%Z /\
  events_of (response_rejected (AxiosError (Some 401%Z))) signed_in =
    [StorageRemoved "admin_token"; CookieAssigned expired_cookie_text;
     Navigated "/login"] /\
  events_of (response_rejected (AxiosError (Some 401%Z)))
            (exec (response_rejected (AxiosError (Some 401%Z))) signed_in) =
    [StorageRemoved "admin_token"; CookieAssigned expired_cookie_text].
Proof.
  assert (H : (0 <= now signed_in)%Z) by (cbn; lia).
  split; [exact H|].
  destruct (unauthorized_clears_and_redirects list_products JNull signed_in H)
    as (_ & _ & _ & _ & _ & Hfirst & Hsecond & _).
  split; [exact Hfirst | exact Hsecond].
Defined.

End ApiWitnesses.

(* ===================================================================== *)
(** * Properties of the auth context *)
(* ===================================================================== *)

Section StringFacts.
Import JsString.

Lemma all_chars_impl (p q : ascii -> bool) (s : string) :
  (forall c, p c = true -> q c = true) ->
  all_chars p s = true -> all_chars q s = true.
Proof.
  intros Hpq. induction s as [|c s IH]; [reflexivity|].
  cbn. intros H. apply andb_prop in H as [Hc Hs].
  now rewrite (Hpq c Hc), (IH Hs).
Qed.

Lemma append_cons (c : ascii) (s t : string) :
  (String c s ++ t = String c (s ++ t))%string.
Proof. reflexivity. Qed.

Lemma all_chars_app (p : ascii -> bool) (s t : string) :
  all_chars p (s ++ t) = all_chars p s && all_chars p t.
Proof.
  induction s as [|c s IH]; [reflexivity|].
  rewrite append_cons. cbn [all_chars]. now rewrite IH, andb_assoc.
Qed.

Lemma append_assoc (a b c : string) : ((a ++ b) ++ c = a ++ (b ++ c))%string.
Proof. induction a as [|x a IH]; [reflexivity|]. rewrite !append_cons. now rewrite IH. Qed.

Lemma split_no_sep (sep : ascii) (p : string) :
  all_chars (fun c => negb (Ascii.eqb c sep)) p = true ->
  split sep p = [p] /\
  forall rest, split sep (p ++ String sep rest) = p :: split sep rest.
Proof.
  induction p as [|c p IH]; cbn [all_chars].
  - intros _. split; [reflexivity|]. intros rest.
    change (EmptyString ++ String sep rest)%string with (String sep rest).
    cbn [split]. now rewrite Ascii.eqb_refl.
  - intros H. apply andb_prop in H as [Hc Hp].
    apply negb_true_iff in Hc.
    destruct (IH Hp) as [IH1 IH2]. split.
    + cbn [split]. now rewrite Hc, IH1.
    + intros rest. rewrite append_cons. cbn [split]. now rewrite Hc, IH2.
Qed.

Lemma trimEnd_no_space (s : string) :
  all_chars (fun c => negb (is_space c)) s = true -> trimEnd s = s.
Proof.
  induction s as [|c s IH]; [reflexivity|].
  cbn. intros H. apply andb_prop in H as [Hc Hs].
  rewrite (IH Hs). apply negb_true_iff in Hc. rewrite Hc.
  now destruct s.
Qed.

Lemma trim_no_space (s : string) :
  all_chars (fun c => negb (is_space c)) s = true -> trim s = s.
Proof.
  intros H. unfold trim.
  assert (Hs : trimStart s = s).
  { destruct s as [|c s]; [reflexivity|]. cbn in H |- *.
    apply andb_prop in H as [Hc _]. apply negb_true_iff in Hc. now rewrite Hc. }
  rewrite Hs. now apply trimEnd_no_space.
Qed.

Lemma cookie_octet_plain (c : ascii) :
  Browser.cookie_octet c = true ->
  negb (Ascii.eqb c ";") = true /\ negb (is_space c) = true.
Proof.
  destruct c as [[] [] [] [] [] [] [] []]; vm_compute; intuition congruence.
Qed.

End StringFacts.

Section AuthProperties.
Import JsString Js Browser Api Auth.

Lemma strict_eq_str_true (v : JsVal) (s : string) :
  strict_eq_str v s = true <-> v = JStr s.
Proof.
  destruct v; cbn; try (split; [discriminate | congruence]).
  rewrite String.eqb_eq. split; congruence.
Qed.

Lemma get_defined (v : JsVal) (k k' : string) (x : JsVal) :
  get v k = Ok x -> exists y, get v k' = Ok y.
Proof. destruct v; cbn; intros H; try discriminate; eauto. Qed.

(** The cookie that [login] writes parses to the token, for the whole
    site, expiring 7 * 24 * 60 * 60 seconds from now. *)
Lemma token_cookie_parsed (path : string) (t : Z) (tok : string) :
  cookie_safe tok = true ->
  parse_cookie path t (token_cookie_text (JStr tok)) =
  mkCookie "admin_token" tok "/" (Some (t + seven_days)%Z).
Proof.
  intros Hsafe.
  assert (Hsemi : all_chars (fun c => negb (Ascii.eqb c ";")) tok = true).
  { revert Hsafe. apply all_chars_impl. intros c Hc. now apply cookie_octet_plain. }
  assert (Hspace : all_chars (fun c => negb (is_space c)) tok = true).
  { revert Hsafe. apply all_chars_impl. intros c Hc. now apply cookie_octet_plain. }
  assert (Htext : token_cookie_text (JStr tok) =
                  ("admin_token=" +:+ tok)
                  +:+ String ";" " path=/; max-age=604800; SameSite=Lax").
  { unfold token_cookie_text. cbn [to_string]. rewrite append_assoc. reflexivity. }
  assert (Hsplit : split ";" (token_cookie_text (JStr tok)) =
                   ["admin_token=" +:+ tok; " path=/"; " max-age=604800"; " SameSite=Lax"]).
  { rewrite Htext.
    assert (Hp : all_chars (fun c => negb (Ascii.eqb c ";")) ("admin_token=" +:+ tok) = true)
      by (rewrite all_chars_app, Hsemi; reflexivity).
    destruct (split_no_sep ";" _ Hp) as [_ ->]. reflexivity. }
  unfold parse_cookie. rewrite Hsplit. cbn [hd tl].
  change (behind "=" ("admin_token=" +:+ tok)) with (Some tok).
  change (before "=" ("admin_token=" +:+ tok)) with "admin_token".
  cbv beta iota zeta.
  rewrite (trim_no_space tok Hspace).
  reflexivity.
Qed.

Lemma login_unfold (email password : string) (status : Z) (body : JsVal)
      (st : State) (w : World) :
  (200 <= status < 300)%Z ->
  exists w1,
    localStorage w1 = localStorage w /\ cookie_jar w1 = cookie_jar w /\
    pathname w1 = pathname w /\ now w1 = now w /\
    login email password (Reply status body) st w =
    match unwrap body with
    | Throw e => (Throw e, st, w1)
    | Ok responseData =>
        match get responseData "access_token", get responseData "user" with
        | Ok access_token, Ok userData =>
            if negb (truthy userData) then (Throw invalid_response, st, w1)
            else if negb (strict_eq_str (get_opt userData "role") "admin")
            then (Throw access_denied, st, w1)
            else
              (Ok tt, mkState userData true (isLoading st),
               exec (assign_cookie (token_cookie_text access_token))
                    (exec (setItem "admin_token" (to_string access_token)) w1))
        | Throw e, _ | _, Throw e => (Throw e, st, w1)
        end
    end.
Proof.
  intros Hst.
  exists (logged w [RequestSent
            (eval (request_interceptor
                     (mkRequest POST "/auth/login" base_headers
                        (JObj [("email", JStr email); ("password", JStr password)]))) w)]).
  split; [reflexivity|]. split; [reflexivity|].
  split; [reflexivity|]. split; [reflexivity|].
  unfold login, api_post, Browser.bind at 1.
  rewrite (send_resolved _ _ _ _ Hst). cbn [Js.bind data].
  destruct (unwrap body) as [rd|e]; [|reflexivity].
  destruct (get rd "access_token") as [tokv|e], (get rd "user") as [u|e'];
    try reflexivity.
  destruct (negb (truthy u)); [reflexivity|].
  destruct (negb (strict_eq_str _ _)); reflexivity.
Qed.

(** C3 (amended). A login answered with an admin user stores the access
    token in local storage and in a cookie for the whole site that
    expires seven days later, and makes the state authenticated. A login
    answered with a user of another role throws the access-denied error; a
    login answered without a user throws the invalid-response error; both
    leave local storage, the cookies and the state as they were. *)
Theorem login_outcomes :
  (forall email password status body responseData userData tok st w,
      (200 <= status < 300)%Z ->
      unwrap body = Ok responseData ->
      get responseData "user" = Ok userData ->
      truthy userData = true ->
      get_opt userData "role" = JStr "admin" ->
      get responseData "access_token" = Ok (JStr tok) ->
      cookie_safe tok = true ->
      let out := login email password (Reply status body) st w in
      fst out = (Ok tt, mkState userData true (isLoading st)) /\
      localStorage (snd out) = <["admin_token" := tok]> (localStorage w) /\
      cookie_jar (snd out) =
        store_cookie (mkCookie "admin_token" tok "/" (Some (now w + 7 * 86400)%Z))
                     (cookie_jar w)) /\
  (forall email password status body responseData userData st w,
      (200 <= status < 300)%Z ->
      unwrap body = Ok responseData ->
      get responseData "user" = Ok userData ->
      truthy userData = true ->
      get_opt userData "role" <> JStr "admin" ->
      let out := login email password (Reply status body) st w in
      fst out = (Throw access_denied, st) /\
      localStorage (snd out) = localStorage w /\
      cookie_jar (snd out) = cookie_jar w) /\
  (forall email password status body responseData userData st w,
      (200 <= status < 300)%Z ->
      unwrap body = Ok responseData ->
      get responseData "user" = Ok userData ->
      truthy userData = false ->
      let out := login email password (Reply status body) st w in
      fst out = (Throw invalid_response, st) /\
      localStorage (snd out) = localStorage w /\
      cookie_jar (snd out) = cookie_jar w).
Proof.
  split; [|split].
  - intros email password status body rd u tok st w Hst Hun Hu Htr Hrole Htok Hsafe out.
    destruct (login_unfold email password status body st w Hst)
      as (w1 & Hls & Hjar & Hpath & Hnow & Heq).
    unfold out. rewrite Heq, Hun, Htok, Hu, Htr, Hrole. cbn [negb strict_eq_str].
    rewrite String.eqb_refl. cbn [negb fst snd to_string].
    unfold exec, setItem, assign_cookie, emit, logged.
    cbn [fst snd localStorage cookie_jar pathname now log].
    rewrite (token_cookie_parsed _ _ _ Hsafe).
    unfold is_live. cbn [ck_expires ck_name ck_path].
    replace (now w1 <? now w1 + seven_days)%Z with true
      by (symmetry; apply Z.ltb_lt; unfold seven_days; lia).
    cbn [cookie_jar localStorage]. rewrite Hls, Hjar, Hnow.
    repeat split.
  - intros email password status body rd u st w Hst Hun Hu Htr Hrole out.
    destruct (login_unfold email password status body st w Hst)
      as (w1 & Hls & Hjar & _ & _ & Heq).
    unfold out. rewrite Heq, Hun, Hu, Htr.
    destruct (get_defined rd "user" "access_token" u Hu) as [tokv ->].
    destruct (strict_eq_str (get_opt u "role") "admin") eqn:E.
    + apply strict_eq_str_true in E. contradiction.
    + cbn. auto.
  - intros email password status body rd u st w Hst Hun Hu Htr out.
    destruct (login_unfold email password status body st w Hst)
      as (w1 & Hls & Hjar & _ & _ & Heq).
    unfold out. rewrite Heq, Hun, Hu, Htr.
    destruct (get_defined rd "user" "access_token" u Hu) as [tokv ->].
    cbn. auto.
Qed.

End AuthProperties.

Section AuthWitnesses.
Import JsString Js Browser Api Auth Samples.

(** The answer without a user is refused with another error than the
    access-denied one. *)
Lemma login_without_user_is_not_access_denied :
  fst (fst (login "admin@apple-clone.com" "admin123"
                  (Reply 200 login_body_no_user) initial signed_out))
    = Throw (Error "Invalid response: user data missing") /\
  fst (fst (login "admin@apple-clone.com" "admin123"
                  (Reply 200 login_body_no_user) initial signed_out))
    <> Throw access_denied.
Proof. split; [reflexivity | vm_compute; discriminate]. Qed.

Lemma login_outcomes_witness :
  (fst (login "admin@apple-clone.com" "admin123"
              (Reply 200 (login_body admin_user)) initial signed_out)
     = (Ok tt, mkState admin_user true true) /\
   localStorage (snd (login "admin@apple-clone.com" "admin123"
                            (Reply 200 (login_body admin_user)) initial signed_out))
     = <["admin_token" := "T0K3N"]> (localStorage signed_out) /\
   cookie_jar (snd (login "admin@apple-clone.com" "admin123"
                          (Reply 200 (login_body admin_user)) initial signed_out))
     = store_cookie
         (mkCookie "admin_token" "T0K3N" "/" (Some (now signed_out + 7 * 86400)%Z))
         (cookie_jar signed_out)) /\
  (fst (login "jo@example.com" "secret"
              (Reply 201 (login_body customer_user)) initial signed_out)
     = (Throw access_denied, initial) /\
   localStorage (snd (login "jo@example.com" "secret"
                            (Reply 201 (login_body customer_user)) initial signed_out))
     = localStorage signed_out /\
   cookie_jar (snd (login "jo@example.com" "secret"
                          (Reply 201 (login_body customer_user)) initial signed_out))
     = cookie_jar signed_out) /\
  (fst (login "admin@apple-clone.com" "admin123"
              (Reply 200 login_body_no_user) initial signed_out)
     = (Throw invalid_response, initial) /\
   localStorage (snd (login "admin@apple-clone.com" "admin123"
                            (Reply 200 login_body_no_user) initial signed_out))
     = localStorage signed_out /\
   cookie_jar (snd (login "admin@apple-clone.com" "admin123"
                          (Reply 200 login_body_no_user) initial signed_out))
     = cookie_jar signed_out).
Proof.
  destruct login_outcomes as (Hadmin & Hother & Hmissing).
  split; [|split].
  - apply (Hadmin _ _ 200%Z (login_body admin_user)
                  (JObj [("access_token", JStr "T0K3N"); ("user", admin_user)])
                  admin_user "T0K3N");
      first [lia | reflexivity].
  - apply (Hother _ _ 201%Z (login_body customer_user)
                  (JObj [("access_token", JStr "T0K3N"); ("user", customer_user)])
                  customer_user);
      first [lia | reflexivity | (cbn; discriminate)].
  - apply (Hmissing _ _ 200%Z login_body_no_user
                    (JObj [("access_token", JStr "T0K3N")]) JUndefined);
      first [lia | reflexivity].
Defined.

End AuthWitnesses.

(* ===================================================================== *)
(** * Properties of the fetches *)
(* ===================================================================== *)

Section FetchProperties.
Import JsString Js Browser Api Pages.

Lemma response_rejected_eval (e : JsError) (w : World) :
  eval (response_rejected e) w = e.
Proof.
  unfold response_rejected.
  destruct e as [m|m|[[|p|p]|]]; try reflexivity.
  destruct (Pos.eq_dec p 401%positive) as [->|Hp].
  - unfold eval, Browser.bind.
    destruct (removeItem _ w) as [? v1]. destruct (assign_cookie _ v1) as [? v2].
    destruct (read pathname v2) as [q v3].
    destruct (negb (q =? "/login")%string);
      [destruct (navigate _ v3) | destruct (ret tt v3)]; reflexivity.
  - do 9 (destruct p as [p|p|]; try reflexivity); exfalso; apply Hp; reflexivity.
Qed.

(** A request settles for the caller as axios settles it. *)
Lemma send_eval (config : Request) (answer : ServerAnswer) (w : World) :
  eval (send config answer) w = settle answer.
Proof.
  unfold eval. rewrite send_unfold. cbv zeta.
  destruct (settle answer); cbn [fst]; [reflexivity|].
  now rewrite response_rejected_eval.
Qed.

(** The collection a list fetch leaves: the array of the answer, or the
    empty list. *)
Lemma load_list_eval (url label : string) (answer : ServerAnswer) (w : World) :
  eval (load_list url label answer) w =
  match collection_of (settle answer) with
  | Ok l => l
  | Throw _ => []
  end.
Proof.
  pose proof (send_eval (mkRequest GET url base_headers JUndefined) answer w) as H.
  unfold load_list, api_get, eval, Browser.bind in *.
  destruct (send _ answer w) as [r w1]. cbn [fst] in H. subst r.
  destruct (collection_of (settle answer)); [reflexivity|].
  unfold emit, ret. reflexivity.
Qed.

Lemma fetch_failed_throws (answer : ServerAnswer) :
  fetch_failed answer -> exists e, collection_of (settle answer) = Throw e.
Proof.
  destruct answer as [|st d]; cbn.
  - eauto.
  - intros [H|[->| ->]].
    + replace ((200 <=? st)%Z && (st <? 300)%Z) with false by lia. cbn. eauto.
    + destruct ((200 <=? st)%Z && (st <? 300)%Z); cbn; eauto.
    + destruct ((200 <=? st)%Z && (st <? 300)%Z); cbn; eauto.
Qed.

Lemma load_list_failed (url label : string) (answer : ServerAnswer) (w : World) :
  fetch_failed answer -> eval (load_list url label answer) w = [].
Proof.
  intros H. rewrite load_list_eval.
  now destruct (fetch_failed_throws answer H) as [e ->].
Qed.

Lemma eval_bind_ret {A B : Type} (c : Eff A) (f : A -> B) (w : World) :
  eval (Browser.bind c (fun a => ret (f a))) w = f (eval c w).
Proof. unfold eval, Browser.bind, ret. now destruct (c w). Qed.

(** C7. On each of the five pages that hold a collection (Products,
    Categories, Orders, FAQ, About Us), a list fetch that fails (no
    response, a status outside 2xx, or an unreadable body) leaves the
    collection empty, whatever it held before, and ends the loading
    state; the category list of the Products page is emptied likewise. *)
Theorem failed_list_fetch_empties_collection
  (answer : ServerAnswer) (w : World)
  (products_page : Products.State) (orders_page : Orders.State)
  (categories_page faq_page about_page : ListState)
  (Hfail : fetch_failed answer) :
  (Products.products (eval (Products.fetchProducts answer products_page) w) = [] /\
   Products.loading (eval (Products.fetchProducts answer products_page) w) = false) /\
  Products.categories (eval (Products.fetchCategories answer products_page) w) = [] /\
  (Orders.orders (eval (Orders.fetchOrders answer orders_page) w) = [] /\
   Orders.loading (eval (Orders.fetchOrders answer orders_page) w) = false) /\
  eval (fetchCategories answer categories_page) w = mkListState [] false /\
  eval (fetchFAQs answer faq_page) w = mkListState [] false /\
  eval (fetchAboutUs answer about_page) w = mkListState [] false.
Proof.
  unfold Products.fetchProducts, Products.fetchCategories, Orders.fetchOrders,
    fetchCategories, fetchFAQs, fetchAboutUs.
  rewrite !eval_bind_ret. cbn [Products.products Products.loading
    Products.categories Orders.orders Orders.loading].
  rewrite !(load_list_failed _ _ answer w Hfail).
  repeat split.
Qed.

(** The singleton page is different: a failed fetch keeps the settings
    that the page held. *)
Lemma failed_settings_fetch_keeps (answer : ServerAnswer) (st : HeroState) (w : World) :
  fetch_failed answer ->
  eval (fetchSettings answer st) w = mkHeroState (settings st) false.
Proof.
  intros Hfail.
  pose proof (send_eval (mkRequest GET "/settings/hero" base_headers JUndefined) answer w) as H.
  unfold fetchSettings, api_get, eval, Browser.bind in *.
  destruct (send _ answer w) as [r w1]. cbn [fst] in H. subst r.
  destruct (fetch_failed_throws answer Hfail) as [e He].
  unfold collection_of in He.
  destruct (settle answer) as [r|e']; cbn [Js.bind] in *.
  - destruct (unwrap (data r)); [discriminate|]. reflexivity.
  - reflexivity.
Qed.

End FetchProperties.

Section FetchWitnesses.
Import JsString Js Browser Api Pages Samples.

Lemma failed_list_fetch_empties_collection_witness :
  fetch_failed (Reply 500 (JStr "Internal Server Error")) /\
  Orders.orders
    (eval (Orders.fetchOrders (Reply 500 (JStr "Internal Server Error"))
             (Orders.mkState [JObj [("id", JStr "o1")]] true JNull false))
          signed_in) = [].
Proof.
  assert (H : fetch_failed (Reply 500 (JStr "Internal Server Error")))
    by (left; lia).
  split; [exact H|].
  exact (proj1 (proj1 (proj2 (proj2
    (failed_list_fetch_empties_collection
       (Reply 500 (JStr "Internal Server Error")) signed_in
       Products.initial
       (Orders.mkState [JObj [("id", JStr "o1")]] true JNull false)
       (mkListState [] true) (mkListState [] true) (mkListState [] true) H))))).
Defined.

End FetchWitnesses.

(* ===================================================================== *)
(** * The envelope *)
(* ===================================================================== *)

Section EnvelopeProperties.
Import JsString Js Browser Api Pages.

Lemma payload_truthy (p : JsVal) : is_payload p = true -> truthy p = true.
Proof. destruct p; cbn; congruence. Qed.

Lemma unwrap_raw (p : JsVal) : is_payload p = true -> unwrap p = Ok p.
Proof.
  destruct p as [| | | | |items|fields]; cbn; try discriminate.
  - reflexivity.
  - unfold unwrap. cbn. destruct (lookup_field "data" fields); [discriminate|].
    reflexivity.
Qed.

Lemma unwrap_envelope (p ts : JsVal) : truthy p = true -> unwrap (envelope p ts) = Ok p.
Proof. intros H. unfold unwrap, envelope, or_else. cbn. now rewrite H. Qed.

(** Two answers that unwrap alike are alike to a caller that reads the
    body through [unwrap]. *)
Lemma settle_unwrap_envelope (status : Z) (p ts : JsVal) :
  is_payload p = true ->
  Js.bind (settle (Reply status (envelope p ts))) (fun r => unwrap (data r)) =
  Js.bind (settle (Reply status p)) (fun r => unwrap (data r)).
Proof.
  intros H. cbn. destruct ((200 <=? status)%Z && (status <? 300)%Z); cbn [Js.bind data].
  - now rewrite (unwrap_raw _ H), (unwrap_envelope _ _ (payload_truthy _ H)).
  - reflexivity.
Qed.


Lemma split_run {A : Type} (c : Eff A) (w : World) : c w = (eval c w, exec c w).
Proof. unfold eval, exec. now destruct (c w). Qed.




End EnvelopeProperties.

Section EnvelopeWitnesses.
Import JsString Js Browser Api Pages Samples.

(** Outside the payloads of the data model the idiom is not transparent:
    an envelope around [null] is read as the envelope itself, and a raw
    record that has a [data] field is read as that field. *)
Lemma unwrap_envelope_of_null :
  unwrap (envelope JNull (JStr "t")) = Ok (envelope JNull (JStr "t")).
Proof. reflexivity. Qed.

Lemma unwrap_record_with_data_field :
  unwrap (JObj [("id", JStr "x"); ("data", JStr "inner")]) = Ok (JStr "inner").
Proof. reflexivity. Qed.

End EnvelopeWitnesses.

(* ===================================================================== *)
(** * Properties of the Orders page *)
(* ===================================================================== *)

Section RequestAccounting.
Import JsString Js Browser Api.

Lemma eval_bind {A B : Type} (c : Eff A) (k : A -> Eff B) (w : World) :
  eval (Browser.bind c k) w = eval (k (eval c w)) (exec c w).
Proof. unfold eval, exec, Browser.bind. now destruct (c w). Qed.

Lemma exec_bind {A B : Type} (c : Eff A) (k : A -> Eff B) (w : World) :
  exec (Browser.bind c k) w = exec (k (eval c w)) (exec c w).
Proof. unfold eval, exec, Browser.bind. now destruct (c w). Qed.

Lemma issues_ret {A : Type} (a : A) (w : World) : issues (ret a) w [].
Proof. exists []. split; [|reflexivity]. cbn. now rewrite app_nil_r. Qed.

Lemma issues_bind {A B : Type} (c : Eff A) (k : A -> Eff B) (w : World)
      (r1 r2 : list (Method * string * JsVal)) :
  issues c w r1 -> issues (k (eval c w)) (exec c w) r2 ->
  issues (Browser.bind c k) w (r1 ++ r2).
Proof.
  intros (e1 & H1 & <-) (e2 & H2 & <-). exists (e1 ++ e2). split.
  - rewrite exec_bind, H2, H1. now rewrite app_assoc.
  - unfold requests_in. apply omap_app.
Qed.

Lemma issues_emit_quiet (e : Event) (w : World) :
  request_line e = None -> issues (emit e) w [].
Proof.
  intros H. exists [e]. split; [reflexivity|].
  unfold requests_in. cbn. now rewrite H.
Qed.

Lemma response_rejected_other (e : JsError) :
  e <> AxiosError (Some 401%Z) -> response_rejected e = ret e.
Proof.
  destruct e as [m|m|[[|p|p]|]]; try reflexivity.
  intros H. do 9 (destruct p as [p|p|]; try reflexivity).
  exfalso. apply H. reflexivity.
Qed.

Lemma response_rejected_quiet (e : JsError) (w : World) :
  issues (response_rejected e) w [].
Proof.
  assert (Hcases : e = AxiosError (Some 401%Z) \/ e <> AxiosError (Some 401%Z)).
  { destruct e as [m|m|[z|]]; try (right; discriminate).
    destruct (Z.eq_dec z 401%Z) as [->|Hz]; [now left | right; congruence]. }
  destruct Hcases as [->|Hne].
  - unfold response_rejected.
    change [] with (@nil (Method * string * JsVal) ++ ([] ++ ([] ++ ([] ++ [])))).
    apply issues_bind.
    { eexists. split; [reflexivity|reflexivity]. }
    apply issues_bind.
    { eexists. split; [reflexivity|reflexivity]. }
    apply issues_bind.
    { exists []. split; [cbn; now rewrite app_nil_r | reflexivity]. }
    apply issues_bind; [|apply issues_ret].
    destruct (negb _); [|apply issues_ret].
    eexists. split; reflexivity.
  - rewrite (response_rejected_other e Hne). apply issues_ret.
Qed.

(** One request goes out per call of the client, with the method, the
    address and the body that the caller gave. *)
Lemma issues_send (config : Request) (answer : ServerAnswer) (w : World) :
  issues (send config answer) w [(method config, url config, body config)].
Proof.
  destruct (request_interceptor_reads config w) as (_ & Hm & Hu & Hb).
  unfold issues. unfold exec at 1. rewrite send_unfold. cbv zeta.
  destruct (settle answer) as [r|e]; cbn [snd].
  - eexists. split; [reflexivity|]. cbn. now rewrite Hm, Hu, Hb.
  - destruct (response_rejected_quiet e
               (logged w [RequestSent (eval (request_interceptor config) w)]))
      as (evs & Hlog & Hreq).
    exists (RequestSent (eval (request_interceptor config) w) :: evs). split.
    + rewrite Hlog. cbn. now rewrite <- app_assoc.
    + cbn. rewrite Hm, Hu, Hb. unfold requests_in in Hreq. now rewrite Hreq.
Qed.

Lemma issues_events {A : Type} (c : Eff A) (w : World)
      (reqs : list (Method * string * JsVal)) :
  issues c w reqs -> requests_in (events_of c w) = reqs.
Proof. intros (evs & Hlog & <-). now rewrite (events_of_logged c w evs Hlog). Qed.

Lemma issues_load_list (url label : string) (answer : ServerAnswer) (w : World) :
  issues (Pages.load_list url label answer) w [(GET, url, JUndefined)].
Proof.
  unfold Pages.load_list.
  apply (issues_bind _ _ w [(GET, url, JUndefined)] []); [apply issues_send|].
  destruct (Pages.collection_of _); [apply issues_ret|].
  apply (issues_bind _ _ _ [] []); [now apply issues_emit_quiet | apply issues_ret].
Qed.

End RequestAccounting.

(* ===================================================================== *)
(** * What the pages consume of an answer *)
(* ===================================================================== *)

Section EnvelopeTheorem.
Import JsString Js Browser Api Pages Samples.








End EnvelopeTheorem.

Section OrdersProperties.
Import JsString Js Browser Api Pages Orders.

Lemma lookup_set_field (k k' : string) (x : JsVal) (fields : list (string * JsVal)) :
  lookup_field k' (set_field k x fields) =
  if String.eqb k' k then Some x else lookup_field k' fields.
Proof.
  induction fields as [|[k0 v0] fields IH]; cbn.
  - now destruct (String.eqb k' k).
  - destruct (String.eqb k k0) eqn:E0; cbn.
    + apply String.eqb_eq in E0. subst k0.
      now destruct (String.eqb k' k).
    + destruct (String.eqb k' k0) eqn:E1.
      * apply String.eqb_eq in E1. subst k0.
        rewrite String.eqb_sym in E0. now rewrite E0.
      * exact IH.
Qed.

(** [{ ...order, status }] changes the status and nothing else. *)
Lemma spread_with_frame (order : JsVal) (k : string) (x : JsVal) :
  get (spread_with order k x) k = Ok x /\
  forall k', k' <> k ->
    (exists fields, order = JObj fields) ->
    get (spread_with order k x) k' = get order k'.
Proof.
  unfold spread_with. cbn [get]. split.
  - now rewrite lookup_set_field, String.eqb_refl.
  - intros k' Hne [fields ->]. cbn [own_fields get].
    rewrite lookup_set_field.
    apply String.eqb_neq in Hne. now rewrite Hne.
Qed.

Lemma is_selected_object (st : State) (id : string) :
  is_selected st id = true -> exists fields, selectedOrder st = JObj fields.
Proof.
  unfold is_selected, get_opt. intros H. apply andb_prop in H as [_ H].
  destruct (selectedOrder st) as [| | | | s|items|fields]; cbn in H;
    try discriminate; eauto.
Qed.

Lemma issues_updateStatus (id status : string) (pa la : ServerAnswer)
      (st : State) (w : World) :
  issues (updateStatus id status pa la st) w
    ((PATCH, "/orders/" +:+ id +:+ "/status", JObj [("status", JStr status)])
     :: match settle pa with
        | Ok _ => [(GET, "/orders/admin/all", JUndefined)]
        | Throw _ => []
        end).
Proof.
  unfold updateStatus, api_patch.
  apply (issues_bind _ _ w [_] _); [apply issues_send|].
  rewrite send_eval.
  destruct (settle pa) as [r|e].
  - apply (issues_bind _ _ _ [] [_]); [now apply issues_emit_quiet|].
    apply (issues_bind _ _ _ [_] []); [|apply issues_ret].
    unfold fetchOrders.
    apply (issues_bind _ _ _ [_] []); [apply issues_load_list | apply issues_ret].
  - apply (issues_bind _ _ _ [] []); [now apply issues_emit_quiet|].
    apply (issues_bind _ _ _ [] []); [now apply issues_emit_quiet | apply issues_ret].
Qed.

Lemma updateStatus_state (id status : string) (pa la : ServerAnswer)
      (st : State) (w : World) (r : Response) :
  settle pa = Ok r ->
  exists listed,
    eval (updateStatus id status pa la st) w =
    mkState listed false
            (if is_selected st id
             then spread_with (selectedOrder st) "status" (JStr status)
             else selectedOrder st)
            (showModal st).
Proof.
  intros Hpa. unfold updateStatus, api_patch.
  rewrite eval_bind, send_eval, Hpa.
  rewrite eval_bind, eval_bind.
  match goal with
  | |- context [eval (fetchOrders la st) ?w2] =>
      assert (Hf : eval (fetchOrders la st) w2 =
                   mkState (eval (load_list "/orders/admin/all"
                                    "Failed to fetch orders:" la) w2)
                           false (selectedOrder st) (showModal st))
        by (unfold fetchOrders;
            apply (eval_bind_ret _ (fun l => mkState l false (selectedOrder st)
                                                     (showModal st))));
      rewrite Hf;
      exists (eval (load_list "/orders/admin/all" "Failed to fetch orders:" la) w2)
  end.
  unfold ret, eval. cbn [fst orders loading showModal].
  destruct (is_selected st id); reflexivity.
Qed.

(** C5. Selecting "delivered" in a status dropdown runs
    [updateStatus(id, "delivered")]. Whatever the server answers, the
    handler issues exactly one PATCH, to /orders/<id>/status with the body
    [{ status: "delivered" }]; the only other request is the GET of the
    list that follows an accepted PATCH. When the PATCH is accepted and the
    detail modal shows that order, the order of the modal becomes
    [{ ...selectedOrder, status: "delivered" }]: it is computed from the
    order the modal held, not from the answer of the list fetch, its
    status reads "delivered" and its other fields read as before. *)
Theorem status_select_delivered :
  (forall (id : string) (pa la : ServerAnswer) (st : State) (w : World),
      requests_in (events_of (updateStatus id "delivered" pa la st) w) =
      (PATCH, "/orders/" +:+ id +:+ "/status", JObj [("status", JStr "delivered")])
      :: match settle pa with
         | Ok _ => [(GET, "/orders/admin/all", JUndefined)]
         | Throw _ => []
         end) /\
  (forall (id : string) (pa la : ServerAnswer) (st : State) (w : World) (r : Response),
      settle pa = Ok r ->
      showModal st = true ->
      is_selected st id = true ->
      let st' := eval (updateStatus id "delivered" pa la st) w in
      showModal st' = true /\
      selectedOrder st' = spread_with (selectedOrder st) "status" (JStr "delivered") /\
      get (selectedOrder st') "status" = Ok (JStr "delivered") /\
      forall k, k <> "status" -> get (selectedOrder st') k = get (selectedOrder st) k) /\
  (forall (id : string) (pa la la' : ServerAnswer) (st : State) (w : World),
      selectedOrder (eval (updateStatus id "delivered" pa la st) w) =
      selectedOrder (eval (updateStatus id "delivered" pa la' st) w)).
Proof.
  split; [|split].
  - intros id pa la st w. apply issues_events, issues_updateStatus.
  - intros id pa la st w r Hpa Hshow Hsel st'.
    destruct (updateStatus_state id "delivered" pa la st w r Hpa) as [listed Hst].
    unfold st'. rewrite Hst, Hsel. cbn [showModal selectedOrder].
    destruct (spread_with_frame (selectedOrder st) "status" (JStr "delivered"))
      as [Hstatus Hframe].
    repeat split; auto.
    intros k Hk. apply Hframe; [exact Hk|]. now apply (is_selected_object st id).
  - intros id pa la la' st w.
    destruct (settle pa) as [r|e] eqn:Hpa.
    + destruct (updateStatus_state id "delivered" pa la st w r Hpa) as [l1 ->].
      destruct (updateStatus_state id "delivered" pa la' st w r Hpa) as [l2 ->].
      reflexivity.
    + unfold updateStatus, api_patch. rewrite !eval_bind, !send_eval, Hpa.
      reflexivity.
Qed.

(** The controls of an order offer every status but the current one. *)
Lemma issuable_any_other (s t : Status) : In t (issuable s) <-> t <> s.
Proof.
  split.
  - destruct s, t; cbn; intros H Heq; try discriminate;
      repeat (destruct H as [H|H]; try discriminate); contradiction.
  - destruct s, t; cbn; intros H; try (exfalso; apply H; reflexivity); tauto.
Qed.

(** C6 (amended). The controls of an order let the administrator issue a
    change from its status to every other one of the five statuses, the
    terminal statuses delivered and cancelled included, because the
    status select offers all five options in every state; only the Close
    Order button is limited to orders that are neither delivered nor
    cancelled. Whichever status is picked, [updateStatus] sends it in the
    body of one PATCH to /orders/<id>/status. *)
Theorem order_transitions_unrestricted :
  (forall s t : Status, In t (issuable s) <-> t <> s) /\
  (forall s : Status, close_order_shown s = true <-> s <> delivered /\ s <> cancelled) /\
  (forall (t : Status) (id : string) (pa la : ServerAnswer) (st : State) (w : World),
      List.filter (fun '(m, _, _) => match m with PATCH => true | _ => false end)
                  (requests_in (events_of (updateStatus id (status_name t) pa la st) w))
      = [(PATCH, "/orders/" +:+ id +:+ "/status", JObj [("status", JStr (status_name t))])]).
Proof.
  split; [exact issuable_any_other|]. split.
  - intros s. destruct s; cbn; split; try discriminate; try (intros [? ?]; congruence);
      try (split; discriminate); tauto.
  - intros t id pa la st w.
    rewrite (issues_events _ _ _ (issues_updateStatus id (status_name t) pa la st w)).
    cbn. now destruct (settle pa).
Qed.

(** The claim as it is written fails: from a delivered order the page
    issues a change to pending, and the chain of the specification does
    not allow it. *)
Lemma delivered_order_can_be_reopened :
  In pending (issuable delivered) /\ spec_allowed delivered pending = false /\
  ~ (forall s t : Status, In t (issuable s) -> spec_allowed s t = true).
Proof.
  assert (H : In pending (issuable delivered)) by (cbn; tauto).
  split; [exact H|]. split; [reflexivity|].
  intros Hall. specialize (Hall delivered pending H). discriminate.
Qed.

End OrdersProperties.

Section OrdersWitnesses.
Import JsString Js Browser Api Pages Orders Samples.

Lemma status_select_delivered_witness :
  requests_in (events_of (updateStatus "o1" "delivered" (Reply 200 JNull) NoResponse
                            orders_with_modal) signed_in)
    = [(PATCH, "/orders/o1/status", JObj [("status", JStr "delivered")]);
       (GET, "/orders/admin/all", JUndefined)] /\
  selectedOrder (eval (updateStatus "o1" "delivered" (Reply 200 JNull) NoResponse
                         orders_with_modal) signed_in)
    = spread_with order_o1 "status" (JStr "delivered") /\
  get (selectedOrder (eval (updateStatus "o1" "delivered" (Reply 200 JNull) NoResponse
                              orders_with_modal) signed_in)) "total"
    = get order_o1 "total".
Proof.
  destruct status_select_delivered as (Hrequests & Hmodal & _).
  split; [exact (Hrequests "o1" (Reply 200 JNull) NoResponse orders_with_modal signed_in)|].
  destruct (Hmodal "o1" (Reply 200 JNull) NoResponse orders_with_modal signed_in
                   (mkResponse 200 JNull) eq_refl eq_refl eq_refl)
    as (_ & Hselected & _ & Hframe).
  split; [exact Hselected|].
  apply Hframe. discriminate.
Defined.

End OrdersWitnesses.

(* ===================================================================== *)
(** * The token of a request *)
(* ===================================================================== *)

Section RequestTokenProperties.
Import JsString Js Browser Api Samples.

(** A token in local storage goes into the header, whatever the cookies
    hold. *)
Lemma request_token_from_storage (config : Request) (w : World) (t : string) :
  localStorage w !! "admin_token" = Some t -> t <> "" ->
  eval (request_interceptor config) w = with_authorization config t /\
  headers (eval (request_interceptor config) w) !! "Authorization"
    = Some ("Bearer " +:+ t).
Proof.
  intros Hls Ht.
  assert (Heq : eval (request_interceptor config) w = with_authorization config t).
  { unfold request_interceptor, eval, Browser.bind, getItem, read, ret.
    cbn [fst snd]. rewrite Hls.
    assert (Hhas : has_token (Some t) = true) by (destruct t; [contradiction | reflexivity]).
    rewrite Hhas. cbn [fst snd]. now rewrite Hhas. }
  split; [exact Heq|]. rewrite Heq. cbn. apply lookup_insert_eq.
Qed.

(** Without a token in local storage and without cookies the request
    goes out as it is, with no [Authorization] header. *)
Lemma request_without_token (config : Request) (w : World) :
  has_token (localStorage w !! "admin_token") = false ->
  cookie_jar w = [] ->
  headers config !! "Authorization" = None ->
  eval (request_interceptor config) w = config /\
  headers (eval (request_interceptor config) w) !! "Authorization" = None /\
  forall answer, issues (send config answer) w [(method config, url config, body config)].
Proof.
  intros Hls Hjar Hhdr.
  assert (Heq : eval (request_interceptor config) w = config).
  { unfold request_interceptor, eval, Browser.bind, getItem, document_cookie,
      visible_cookies, read, ret.
    cbn [fst snd]. rewrite Hls, Hjar. cbn.
    destruct (localStorage w !! "admin_token") as [t|]; [|reflexivity].
    now rewrite Hls. }
  split; [exact Heq|]. split; [now rewrite Heq|].
  intros answer. apply issues_send.
Qed.

(** With the token in the cookie alone, the header carries the value of
    the cookie provided that the value holds no equals sign. *)
Lemma request_token_from_cookie (config : Request) (w : World)
      (v : string) (expires : option Z) :
  has_token (localStorage w !! "admin_token") = false ->
  cookie_jar w = [mkCookie "admin_token" v "/" expires] ->
  is_live (now w) (mkCookie "admin_token" v "/" expires) = true ->
  path_matches "/" (pathname w) = true ->
  cookie_safe v = true ->
  all_chars (fun c => negb (Ascii.eqb c "=")) v = true ->
  v <> "" ->
  eval (request_interceptor config) w = with_authorization config v.
Proof.
  intros Hls Hjar Hlive Hpath Hsafe Heq Hv.
  assert (Hsemi : all_chars (fun c => negb (Ascii.eqb c ";")) ("admin_token=" +:+ v) = true).
  { rewrite all_chars_app. cbn.
    revert Hsafe. apply all_chars_impl. intros c Hc. now apply cookie_octet_plain. }
  assert (Hspace : all_chars (fun c => negb (is_space c)) ("admin_token=" +:+ v) = true).
  { rewrite all_chars_app. cbn.
    revert Hsafe. apply all_chars_impl. intros c Hc. now apply cookie_octet_plain. }
  assert (Hhas : has_token (Some v) = true) by (destruct v; [contradiction | reflexivity]).
  unfold request_interceptor, eval, Browser.bind, getItem, document_cookie,
    visible_cookies, read, ret.
  cbn [fst snd]. rewrite Hls, Hjar. cbn [List.filter]. rewrite Hlive.
  cbn [ck_path]. rewrite Hpath. unfold listing_order.
  cbn [andb List.fold_right insert_by_path map join cookie_text ck_name ck_value is_empty].
  change ("admin_token" +:+ "=" +:+ v) with ("admin_token=" +:+ v).
  destruct (split_no_sep ";" _ Hsemi) as [-> _].
  cbn [List.find]. rewrite (trim_no_space _ Hspace).
  change (startsWith ("admin_token=" +:+ v) "admin_token=") with true.
  cbv iota.
  change ("admin_token=" +:+ v) with ("admin_token" +:+ String "=" v).
  destruct (split_no_sep "=" "admin_token" eq_refl) as [_ ->].
  destruct (split_no_sep "=" v Heq) as [-> _].
  cbn [nth_error fst]. now rewrite Hhas.
Qed.

(** C9 at the failing input: local storage is empty and the cookie holds
    the token "YWJjZA=="; the header that the interceptor attaches is
    "Bearer YWJjZA", the token cut at its first equals sign. *)
Theorem cookie_token_is_cut_at_equals_sign :
  localStorage cookie_only !! "admin_token" = None /\
  cookie_value "admin_token" cookie_only = Some "YWJjZA==" /\
  eval document_cookie cookie_only = "admin_token=YWJjZA==" /\
  headers (eval (request_interceptor list_products) cookie_only) !! "Authorization"
    = Some "Bearer YWJjZA".
Proof. repeat split; vm_compute; reflexivity. Qed.

End RequestTokenProperties.

(* ===================================================================== *)
(** * Properties of the Products form *)
(* ===================================================================== *)

Section ImageFieldProperties.
Import JsString Js Browser Api Pages Products Samples.

Lemma edit_form_images (p : Product.t) (f : Form.t) :
  edit_form p = Ok f ->
  Form.images f = match Product.images p with
                  | [] => [JStr ""]
                  | imgs => map JStr imgs
                  end.
Proof.
  unfold edit_form. intros H.
  destruct (legacy_colors _) as [legacy|e]; [|discriminate].
  cbn [Js.bind] in H.
  destruct (if legacy then _ else _) as [cs|e]; [|discriminate].
  cbn [Js.bind] in H. injection H as <-. reflexivity.
Qed.

Lemma array_set_nonempty (index : nat) (value : JsVal) (l : list JsVal) :
  array_set index value l <> [].
Proof. destruct l, index; discriminate. Qed.

(** Opening the form and editing the image fields one by one never
    leaves the form without an image field: [openAddModal] starts with
    one empty field, [openEditModal] with the images of the product or
    with one empty field, [addImageField] and [updateImageField] keep what
    is there, and [removeImageField] puts one empty field back when it
    removed the last one. *)
Lemma image_fields_kept_by_field_operations :
  (forall st, Form.images (formData (openAddModal st)) = [JStr ""]) /\
  (forall p st st', openEditModal p st = (Ok tt, st') ->
                    Form.images (formData st') <> [] /\
                    (Product.images p = [] -> Form.images (formData st') = [JStr ""])) /\
  (forall f, Form.images (addImageField f) <> []) /\
  (forall index f, Form.images (removeImageField index f) <> []) /\
  (forall f x, Form.images f = [x] -> Form.images (removeImageField 0 f) = [JStr ""]) /\
  (forall index value f, Form.images (updateImageField index value f) <> []).
Proof.
  split; [reflexivity|]. split.
  { intros p st st' H. unfold openEditModal in H.
    destruct (edit_form p) as [f|e] eqn:E; [|discriminate].
    injection H as <-. cbn [formData].
    rewrite (edit_form_images p f E).
    split; [destruct (Product.images p); discriminate|].
    now intros ->. }
  split.
  { intros f. unfold addImageField, with_images. cbn [Form.images].
    destruct (Form.images f); discriminate. }
  split.
  { intros index f. unfold removeImageField, with_images. cbn [Form.images].
    destruct (remove_at index (Form.images f)); discriminate. }
  split.
  { intros f x H. unfold removeImageField, with_images. cbn [Form.images].
    now rewrite H. }
  intros index value f. unfold updateImageField, with_images. cbn [Form.images].
  apply array_set_nonempty.
Qed.

(** C10 at the failing input: the form has just been opened for a new
    product and holds one empty image field; an upload that the server
    accepts without returning an image leaves the form with no image
    field at all. *)
Theorem upload_without_images_clears_image_fields :
  Form.images (formData (openAddModal initial)) = [JStr ""] /\
  Form.images
    (formData (eval (handleImageUpload (JStr "files") upload_without_images
                       (openAddModal initial)) signed_in)) = [].
Proof. split; reflexivity. Qed.

End ImageFieldProperties.

Section NumberFacts.
Import JsString Js.






End NumberFacts.

Section EditRoundTrip.
Import JsString Js Browser Api Pages Products.

Lemma split_entries_clean (l : list string) :
  forallb clean_entry l = true -> split_entries (map JStr l) = Ok l.
Proof.
  induction l as [|s l IH]; [reflexivity|].
  cbn [forallb]. intros H. apply andb_prop in H as [Hc Hl].
  cbn [map split_entries]. rewrite (IH Hl). cbn [Js.bind].
  unfold clean_entry in Hc. apply andb_prop in Hc as [Hc Htrim].
  apply andb_prop in Hc as [_ Hcomma].
  destruct (split_no_sep "," s Hcomma) as [-> _].
  cbn [map app]. apply String.eqb_eq in Htrim. now rewrite Htrim.
Qed.

Lemma filter_clean (l : list string) :
  forallb clean_entry l = true ->
  List.filter (fun x => negb (is_empty x)) l = l.
Proof.
  induction l as [|s l IH]; [reflexivity|].
  cbn [forallb]. intros H. apply andb_prop in H as [Hc Hl].
  cbn [List.filter].
  unfold clean_entry in Hc. apply andb_prop in Hc as [Hc _].
  apply andb_prop in Hc as [Hne _]. rewrite Hne, (IH Hl). reflexivity.
Qed.

(** Entries in the current shape pass the splitting at commas, the
    trimming and the removal of empty entries unchanged. *)
Lemma processed_clean (l : list string) :
  forallb clean_entry l = true -> processed (map JStr l) = Ok l.
Proof.
  intros H. unfold processed. rewrite (split_entries_clean l H).
  cbn [Js.bind]. now rewrite (filter_clean l H).
Qed.








End EditRoundTrip.


Section EditRoundTripTheorem.
Import JsString Js Browser Api Pages Products Samples.





End EditRoundTripTheorem.

(* ===================================================================== *)
(** * Further properties of the slug derivation *)
(* ===================================================================== *)

Section SlugFurther.
Import JsString Slug.

Lemma slug_alphabet_lower (c : ascii) :
  is_slug_char c || is_hyphen c = true -> lower_char c = c.
Proof. destruct c as [[] [] [] [] [] [] [] []]; vm_compute; congruence. Qed.

Lemma toLowerCase_slug_alphabet (t : string) :
  all_chars (fun c => is_slug_char c || is_hyphen c) t = true -> toLowerCase t = t.
Proof.
  induction t as [|c t IH]; [reflexivity|].
  cbn [all_chars toLowerCase]. intros H. apply andb_prop in H as [Hc Ht].
  now rewrite (slug_alphabet_lower c Hc), (IH Ht).
Qed.

Lemma is_hyphen_eq (c : ascii) : is_hyphen c = true -> c = "-"%char.
Proof. unfold is_hyphen. apply Ascii.eqb_eq. Qed.

Lemma collapse_scan_fixed (t : string) (b : bool) :
  all_chars (fun c => is_slug_char c || is_hyphen c) t = true ->
  no_double_hyphen t = true ->
  (b = true -> head_is_hyphen t = false) ->
  collapse_scan b t = t.
Proof.
  revert b. induction t as [|c t IH]; intros b Hall Hnd Hb; [reflexivity|].
  cbn [all_chars] in Hall. apply andb_prop in Hall as [Hc Ht].
  cbn [no_double_hyphen] in Hnd. apply andb_prop in Hnd as [Hadj Hnd].
  cbn [collapse_scan]. destruct (is_slug_char c) eqn:E.
  - f_equal. apply IH; [exact Ht | exact Hnd | discriminate].
  - cbn [orb] in Hc.
    destruct b; [specialize (Hb eq_refl); cbn in Hb; congruence|].
    rewrite Hc in Hadj. cbn [andb] in Hadj. apply negb_true_iff in Hadj.
    rewrite (is_hyphen_eq c Hc). f_equal.
    apply IH; [exact Ht | exact Hnd | intros _; exact Hadj].
Qed.

Lemma chop_trailing_fixed (t : string) :
  last_is_hyphen t = false -> chop_trailing_hyphen t = t.
Proof.
  induction t as [|c t IH]; [reflexivity|].
  destruct t as [|c' t].
  - cbn. now intros ->.
  - intros H.
    change (chop_trailing_hyphen (String c (String c' t)))
      with (String c (chop_trailing_hyphen (String c' t))).
    f_equal. apply IH. exact H.
Qed.

(** X1. A slug is its own slug: deriving the slug a second time changes
    nothing. *)
Theorem generateSlug_idempotent (name : string) :
  generateSlug (generateSlug name) = generateSlug name.
Proof.
  destruct (generateSlug_shape name) as (Hall & Hnd & Hhead & Hlast).
  set (t := generateSlug name) in *.
  rewrite generateSlug_scan, (toLowerCase_slug_alphabet t Hall).
  rewrite (collapse_scan_fixed t false Hall Hnd) by discriminate.
  assert (Hlead : chop_leading_hyphen t = t).
  { destruct t as [|c t']; [reflexivity|]. cbn in Hhead |- *. now rewrite Hhead. }
  rewrite Hlead. now apply chop_trailing_fixed.
Qed.

Lemma collapse_scan_keeps_letters (t : string) (b : bool) :
  all_chars (fun c => negb (is_slug_char c)) (collapse_scan b t) =
  all_chars (fun c => negb (is_slug_char c)) t.
Proof.
  revert b. induction t as [|c t IH]; intros b; [reflexivity|].
  cbn [collapse_scan all_chars]. destruct (is_slug_char c) eqn:E.
  - cbn [all_chars]. now rewrite E.
  - cbn [negb andb]. destruct b; [apply IH|]. cbn [all_chars]. now rewrite IH.
Qed.

Lemma chop_leading_keeps_letters (t : string) :
  all_chars (fun c => negb (is_slug_char c)) (chop_leading_hyphen t) =
  all_chars (fun c => negb (is_slug_char c)) t.
Proof.
  destruct t as [|c t]; [reflexivity|]. cbn [chop_leading_hyphen].
  destruct (is_hyphen c) eqn:E; [|reflexivity].
  cbn [all_chars]. rewrite (is_hyphen_eq c E). reflexivity.
Qed.

Lemma chop_trailing_keeps_letters (t : string) :
  all_chars (fun c => negb (is_slug_char c)) (chop_trailing_hyphen t) =
  all_chars (fun c => negb (is_slug_char c)) t.
Proof.
  induction t as [|c t IH]; [reflexivity|].
  destruct t as [|c' t].
  - cbn. destruct (is_hyphen c) eqn:E; [|reflexivity].
    rewrite (is_hyphen_eq c E). reflexivity.
  - change (chop_trailing_hyphen (String c (String c' t)))
      with (String c (chop_trailing_hyphen (String c' t))).
    cbn [all_chars] in IH |- *. now rewrite IH.
Qed.

Lemma all_chars_toLowerCase (p : ascii -> bool) (s : string) :
  all_chars p (toLowerCase s) = all_chars (fun c => p (lower_char c)) s.
Proof.
  induction s as [|c s IH]; [reflexivity|]. cbn [toLowerCase all_chars]. now rewrite IH.
Qed.

Lemma only_hyphens_without_edge (t : string) :
  all_chars (fun c => is_slug_char c || is_hyphen c) t = true ->
  all_chars (fun c => negb (is_slug_char c)) t = true ->
  head_is_hyphen t = false ->
  t = "".
Proof.
  destruct t as [|c t]; [reflexivity|]. cbn [all_chars head_is_hyphen].
  intros H1 H2 H3. apply andb_prop in H1 as [H1 _]. apply andb_prop in H2 as [H2 _].
  apply negb_true_iff in H2. rewrite H2, H3 in H1. discriminate.
Qed.

(** X2. The slug is empty exactly when the name, once lower-cased, holds
    no character of [a-z0-9]: the empty name and the names made of
    punctuation, white space and other characters only. *)
Theorem generateSlug_empty_iff (name : string) :
  generateSlug name = "" <->
  all_chars (fun c => negb (is_slug_char (lower_char c))) name = true.
Proof.
  rewrite <- (all_chars_toLowerCase (fun c => negb (is_slug_char c)) name).
  rewrite <- (collapse_scan_keeps_letters (toLowerCase name) false).
  rewrite <- chop_leading_keeps_letters, <- chop_trailing_keeps_letters.
  rewrite <- generateSlug_scan.
  destruct (generateSlug_shape name) as (Hall & _ & Hhead & _).
  split.
  - now intros ->.
  - intros H. now apply only_hyphens_without_edge.
Qed.

End SlugFurther.

Section SlugShape.
Import JsString Slug.

(** X3. Every slug is made of the characters [a-z0-9] and hyphens, has no
    two hyphens in a row, and neither starts nor ends with a hyphen. *)
Theorem slug_alphabet_and_edges (name : string) :
  all_chars (fun c => is_slug_char c || is_hyphen c) (generateSlug name) = true /\
  no_double_hyphen (generateSlug name) = true /\
  head_is_hyphen (generateSlug name) = false /\
  last_is_hyphen (generateSlug name) = false.
Proof. exact (generateSlug_shape name). Qed.

End SlugShape.

(* ===================================================================== *)
(** * Further properties of the API client *)
(* ===================================================================== *)

Section ApiFurther.
Import JsString Js Browser Api.

Lemma settle_not_401 (answer : ServerAnswer) (e : JsError) :
  (forall d, answer <> Reply 401 d) -> settle answer = Throw e ->
  e <> AxiosError (Some 401%Z).
Proof.
  intros Hne Hs. destruct answer as [|st d]; cbn in Hs.
  - injection Hs as <-. discriminate.
  - destruct ((200 <=? st)%Z && (st <? 300)%Z); [discriminate|].
    injection Hs as <-. intros H. injection H as ->. now apply (Hne d).
Qed.

(** X4. An answer with any status other than 401, and a request that got
    no answer, leave local storage, the cookies and the location as they
    are and cause no navigation: the client only records the request and
    hands the outcome to the caller. *)
Theorem only_401_touches_the_session
  (config : Request) (answer : ServerAnswer) (w : World)
  (Hother : forall d, answer <> Reply 401 d) :
  eval (send config answer) w = settle answer /\
  localStorage (exec (send config answer) w) = localStorage w /\
  cookie_jar (exec (send config answer) w) = cookie_jar w /\
  pathname (exec (send config answer) w) = pathname w /\
  events_of (send config answer) w =
    [RequestSent (eval (request_interceptor config) w)].
Proof.
  split; [apply send_eval|].
  assert (Hw : exec (send config answer) w =
               logged w [RequestSent (eval (request_interceptor config) w)]).
  { unfold exec. rewrite send_unfold. cbv zeta.
    destruct (settle answer) as [r|e] eqn:Hs; [reflexivity|].
    cbn [snd]. rewrite (response_rejected_other e (settle_not_401 answer e Hother Hs)).
    reflexivity. }
  rewrite Hw. repeat split.
  apply events_of_logged. rewrite Hw. reflexivity.
Qed.

Lemma only_401_touches_the_session_witness :
  (forall d, Reply 403 (JStr "Forbidden") <> Reply 401 d) /\
  localStorage (exec (send Samples.list_products (Reply 403 (JStr "Forbidden")))
                     Samples.signed_in)
    = localStorage Samples.signed_in /\
  pathname (exec (send Samples.list_products (Reply 403 (JStr "Forbidden")))
                 Samples.signed_in) = "/orders".
Proof.
  assert (H : forall d, Reply 403 (JStr "Forbidden") <> Reply 401 d) by (intros d; discriminate).
  split; [exact H|].
  destruct (only_401_touches_the_session Samples.list_products
              (Reply 403 (JStr "Forbidden")) Samples.signed_in H)
    as (_ & Hls & _ & Hpath & _).
  split; [exact Hls | exact Hpath].
Defined.

(** X5. The request interceptor changes nothing in the browser and
    nothing of the request but the [Authorization] header: method,
    address, body and every other header stay; the header is either left
    as it was or set to "Bearer " followed by a token that is not empty. *)
Theorem request_interceptor_adds_only_authorization (config : Request) (w : World) :
  exec (request_interceptor config) w = w /\
  method (eval (request_interceptor config) w) = method config /\
  url (eval (request_interceptor config) w) = url config /\
  body (eval (request_interceptor config) w) = body config /\
  (forall k, k <> "Authorization" ->
     headers (eval (request_interceptor config) w) !! k = headers config !! k) /\
  (eval (request_interceptor config) w = config \/
   exists t, t <> "" /\
     eval (request_interceptor config) w = with_authorization config t).
Proof.
  destruct (request_interceptor_reads config w) as (Hw & Hm & Hu & Hb).
  do 4 (split; [assumption|]).
  assert (Hcases : eval (request_interceptor config) w = config \/
                   exists t, t <> "" /\
                     eval (request_interceptor config) w = with_authorization config t).
  { unfold request_interceptor, exec, eval, Browser.bind, getItem, document_cookie,
      read, ret.
    assert (Htok : forall t, has_token (Some t) = true -> t <> "")
      by (intros t H ->; discriminate).
    destruct (has_token (localStorage w !! "admin_token")) eqn:Hs.
    - destruct (localStorage w !! "admin_token") as [t|]; [|now left].
      cbn [fst snd]. rewrite Hs. right. exists t. split; [now apply Htok | reflexivity].
    - destruct (List.find _ _) as [authCookie|].
      + destruct (nth_error (split "=" authCookie) 1) as [t|]; [|now left].
        cbn [fst snd]. destruct (has_token (Some t)) eqn:Ht; [|now left].
        right. exists t. split; [now apply Htok | reflexivity].
      + destruct (localStorage w !! "admin_token") as [t|]; [|now left].
        cbn [fst snd]. rewrite Hs. now left. }
  split; [|exact Hcases].
  intros k Hk. destruct Hcases as [->|(t & _ & ->)]; [reflexivity|].
  cbn [headers with_authorization]. now apply lookup_insert_ne.
Qed.

End ApiFurther.

(* ===================================================================== *)
(** * The token that the cookie fallback reads *)
(* ===================================================================== *)

Section CookieLookup.
Import JsString Js Browser Api.

Lemma split_cons_other (sep c : ascii) (s : string) :
  Ascii.eqb c sep = false ->
  split sep (String c s) =
  match split sep s with
  | p :: ps => String c p :: ps
  | [] => [String c ""]
  end.
Proof. intros H. cbn [split]. now rewrite H. Qed.

Lemma split_head (sep : ascii) (s : string) :
  exists ps, split sep s = Browser.before sep s :: ps.
Proof.
  induction s as [|c s [ps IH]]; [now exists []|].
  cbn [split Browser.before]. destruct (Ascii.eqb c sep); [eauto|].
  rewrite IH. eauto.
Qed.

Lemma join_cons2 (sep x y : string) (rest : list string) :
  join sep (x :: y :: rest) = x +:+ sep +:+ join sep (y :: rest).
Proof. reflexivity. Qed.

(** Cutting the text of [document.cookie] at the semicolons gives the
    cookies back, all but the first with a space in front. *)
Lemma split_joined_cookies (texts : list string) :
  forallb (all_chars (fun c => negb (Ascii.eqb c ";"))) texts = true ->
  split ";" (join "; " texts) =
  match texts with
  | [] => [""]
  | t :: rest => t :: map (String " ") rest
  end.
Proof.
  induction texts as [|x texts IH]; [reflexivity|].
  cbn [forallb]. intros H. apply andb_prop in H as [Hx Hrest].
  destruct texts as [|y rest].
  - cbn [join map]. now destruct (split_no_sep ";" x Hx) as [-> _].
  - rewrite join_cons2.
    change ("; " +:+ join "; " (y :: rest))
      with (String ";" (String " " (join "; " (y :: rest)))).
    destruct (split_no_sep ";" x Hx) as [_ ->].
    rewrite (split_cons_other ";" " " _ eq_refl), (IH Hrest).
    reflexivity.
Qed.

Lemma startsWith_name (p n v : string) :
  all_chars (fun c => negb (Ascii.eqb c "=")) p = true ->
  all_chars (fun c => negb (Ascii.eqb c "=")) n = true ->
  startsWith (n +:+ String "=" v) (p +:+ "=") = String.eqb n p.
Proof.
  revert n. induction p as [|a p IH]; intros n Hp Hn.
  - destruct n as [|c n]; [reflexivity|].
    cbn [all_chars] in Hn. apply andb_prop in Hn as [Hc _].
    apply negb_true_iff in Hc. rewrite append_cons.
    change ("" +:+ "=") with "=". cbn [startsWith String.eqb].
    rewrite Ascii.eqb_sym, Hc. reflexivity.
  - cbn [all_chars] in Hp. apply andb_prop in Hp as [Ha Hp].
    apply negb_true_iff in Ha. rewrite append_cons.
    destruct n as [|c n].
    + change ("" +:+ String "=" v) with (String "=" v).
      cbn [startsWith String.eqb]. now rewrite Ha.
    + cbn [all_chars] in Hn. apply andb_prop in Hn as [_ Hn].
      rewrite append_cons. cbn [startsWith String.eqb].
      rewrite (IH n Hp Hn), (Ascii.eqb_sym a c). reflexivity.
Qed.

Lemma name_char_plain (c : ascii) :
  cookie_name_char c = true ->
  cookie_octet c = true /\ negb (Ascii.eqb c "=") = true.
Proof. unfold cookie_name_char. intros H. now apply andb_prop in H. Qed.

(** What the interceptor sees of one well-formed cookie, with or without
    the space in front. *)
Lemma cookie_piece (c : Cookie) (spaced : bool) :
  well_formed_cookie c = true ->
  let piece := if spaced then String " " (cookie_text c) else cookie_text c in
  all_chars (fun x => negb (Ascii.eqb x ";")) (cookie_text c) = true /\
  startsWith (trim piece) "admin_token=" = String.eqb (ck_name c) "admin_token" /\
  nth_error (split "=" piece) 1 = Some (Browser.before "=" (ck_value c)).
Proof.
  unfold well_formed_cookie. intros H.
  apply andb_prop in H as [H Hval]. apply andb_prop in H as [Hne Hname].
  apply negb_true_iff in Hne.
  assert (Htext : cookie_text c = ck_name c +:+ String "=" (ck_value c))
    by (unfold cookie_text; now rewrite Hne).
  assert (Hname_eq : all_chars (fun x => negb (Ascii.eqb x "=")) (ck_name c) = true).
  { revert Hname. apply all_chars_impl. intros x Hx. now apply name_char_plain. }
  assert (Hplain : forall q,
             (forall x, cookie_octet x = true -> q x = true) -> q "="%char = true ->
             all_chars q (cookie_text c) = true).
  { intros q Hq Heq. rewrite Htext, all_chars_app. cbn [all_chars].
    rewrite Heq. cbn [andb]. apply andb_true_intro. split.
    - revert Hname. apply all_chars_impl. intros x Hx. apply Hq. now apply name_char_plain.
    - revert Hval. apply all_chars_impl. exact Hq. }
  assert (Hsemi : all_chars (fun x => negb (Ascii.eqb x ";")) (cookie_text c) = true)
    by (apply Hplain; [intros x Hx; now apply cookie_octet_plain | reflexivity]).
  assert (Hspace : all_chars (fun x => negb (is_space x)) (cookie_text c) = true)
    by (apply Hplain; [intros x Hx; now apply cookie_octet_plain | reflexivity]).
  assert (Htrim : forall piece,
             piece = cookie_text c \/ piece = String " " (cookie_text c) ->
             trim piece = cookie_text c).
  { intros piece [->| ->]; [now apply trim_no_space|].
    unfold trim. cbn [trimStart].
    change (is_space " ") with true. cbv iota.
    now apply trim_no_space. }
  cbv zeta. split; [exact Hsemi|]. split.
  - rewrite Htrim by (destruct spaced; auto).
    rewrite Htext. apply (startsWith_name "admin_token"); [reflexivity | exact Hname_eq].
  - destruct (split_head "=" (ck_value c)) as [ps Hps].
    destruct spaced.
    + rewrite Htext, <- append_cons.
      assert (Hn' : all_chars (fun x => negb (Ascii.eqb x "="))
                              (String " " (ck_name c)) = true)
        by (cbn [all_chars]; now rewrite Hname_eq).
      destruct (split_no_sep "=" _ Hn') as [_ ->]. now rewrite Hps.
    + rewrite Htext.
      destruct (split_no_sep "=" _ Hname_eq) as [_ ->]. now rewrite Hps.
Qed.

Lemma forallb_insert_by_path (q : Cookie -> bool) (c : Cookie) (l : list Cookie) :
  forallb q (insert_by_path c l) = q c && forallb q l.
Proof.
  induction l as [|c' l IH]; [reflexivity|].
  cbn [insert_by_path].
  destruct (String.length (ck_path c) <? String.length (ck_path c'))%nat;
    cbn [forallb]; [|reflexivity].
  rewrite IH. now rewrite !andb_assoc, (andb_comm (q c') (q c)).
Qed.

(** Listing the cookies changes their order only. *)
Lemma forallb_listing_order (q : Cookie -> bool) (l : list Cookie) :
  forallb q (listing_order l) = forallb q l.
Proof.
  unfold listing_order. induction l as [|c l IH]; [reflexivity|].
  cbn [List.fold_right forallb]. now rewrite forallb_insert_by_path, IH.
Qed.

Lemma find_none_forallb {A : Type} (p : A -> bool) (l : list A) :
  List.find p l = None <-> forallb (fun x => negb (p x)) l = true.
Proof.
  induction l as [|x l IH]; [easy|].
  cbn [List.find forallb]. destruct (p x); cbn [negb andb]; [easy | exact IH].
Qed.

Lemma forallb_filter {A : Type} (p q : A -> bool) (l : list A) :
  forallb p l = true -> forallb p (List.filter q l) = true.
Proof.
  induction l as [|x l IH]; [reflexivity|].
  cbn [forallb List.filter]. intros H. apply andb_prop in H as [Hx Hl].
  destruct (q x); cbn [forallb]; rewrite ?Hx; auto.
Qed.

(** The value that the source reads for the token out of a list of
    pieces of [document.cookie]. *)
Lemma token_of_pieces (cs : list Cookie) (spaced : bool) :
  forallb well_formed_cookie cs = true ->
  let pieces := map (fun c => if spaced then String " " (cookie_text c)
                              else cookie_text c) cs in
  forall rest_pieces rest,
    forallb well_formed_cookie rest = true ->
    rest_pieces = map (fun c => String " " (cookie_text c)) rest ->
    match List.find (fun cookie => startsWith (trim cookie) "admin_token=")
                    (pieces ++ rest_pieces) with
    | Some authCookie => nth_error (split "=" authCookie) 1
    | None => None
    end =
    option_map (fun c => Browser.before "=" (ck_value c))
               (List.find (fun c => String.eqb (ck_name c) "admin_token") (cs ++ rest)) /\
    (List.find (fun cookie => startsWith (trim cookie) "admin_token=")
               (pieces ++ rest_pieces) = None <->
     List.find (fun c => String.eqb (ck_name c) "admin_token") (cs ++ rest) = None).
Proof.
  intros Hcs pieces rest_pieces rest Hrest ->. unfold pieces. clear pieces.
  induction cs as [|c cs IH].
  - cbn [map app]. clear Hcs.
    induction rest as [|c rest IH]; [split; [reflexivity | tauto]|].
    cbn [forallb] in Hrest. apply andb_prop in Hrest as [Hc Hrest].
    destruct (cookie_piece c true Hc) as (_ & Hstart & Hnth).
    cbn [map List.find]. cbv zeta in Hstart, Hnth. rewrite Hstart.
    destruct (String.eqb (ck_name c) "admin_token").
    + cbn [option_map]. split; [exact Hnth | split; discriminate].
    + apply IH. exact Hrest.
  - cbn [forallb] in Hcs. apply andb_prop in Hcs as [Hc Hcs].
    destruct (cookie_piece c spaced Hc) as (_ & Hstart & Hnth).
    cbn [map app List.find]. cbv zeta in Hstart, Hnth. rewrite Hstart.
    destruct (String.eqb (ck_name c) "admin_token").
    + cbn [option_map]. split; [exact Hnth | split; discriminate].
    + apply IH. exact Hcs.
Qed.

(** The cookie fallback of the source, on a jar of well-formed cookies:
    it finds the first visible cookie named admin_token and reads its
    value up to the first equals sign. *)
Lemma cookie_fallback (w : World) :
  forallb well_formed_cookie (cookie_jar w) = true ->
  match List.find (fun cookie => startsWith (trim cookie) "admin_token=")
                  (split ";" (eval document_cookie w)) with
  | Some authCookie => nth_error (split "=" authCookie) 1
  | None => None
  end = option_map (Browser.before "=") (cookie_value "admin_token" w) /\
  (List.find (fun cookie => startsWith (trim cookie) "admin_token=")
             (split ";" (eval document_cookie w)) = None <->
   cookie_value "admin_token" w = None).
Proof.
  intros Hwf. unfold document_cookie, read, eval. cbn [fst].
  assert (Hvis : forallb well_formed_cookie (visible_cookies w) = true).
  { unfold visible_cookies. rewrite forallb_listing_order.
    apply forallb_filter; exact Hwf. }
  assert (Hvalue : cookie_value "admin_token" w =
                   option_map ck_value
                     (List.find (fun c => String.eqb (ck_name c) "admin_token")
                                (visible_cookies w))) by reflexivity.
  set (visible := visible_cookies w) in *.
  assert (Hsplit : split ";" (join "; " (map cookie_text visible)) =
                   match visible with
                   | [] => [""]
                   | c :: rest => cookie_text c :: map (fun c => String " " (cookie_text c)) rest
                   end).
  { rewrite split_joined_cookies.
    - destruct visible; [reflexivity|]. cbn [map]. now rewrite map_map.
    - clear -Hvis. induction visible as [|c l IH]; [reflexivity|].
      cbn [forallb map] in *. apply andb_prop in Hvis as [Hc Hl].
      destruct (cookie_piece c false Hc) as (-> & _). now apply IH. }
  rewrite Hsplit, Hvalue.
  destruct visible as [|c rest].
  - cbn. split; [reflexivity | tauto].
  - cbn [forallb] in Hvis. apply andb_prop in Hvis as [Hc Hrest].
    destruct (token_of_pieces [c] false) with
      (rest_pieces := map (fun c => String " " (cookie_text c)) rest) (rest := rest)
      as [H1 H2]; [cbn; now rewrite Hc | exact Hrest | reflexivity|].
    cbn [map app] in H1, H2. split.
    + rewrite H1. now destruct (List.find _ (c :: rest)).
    + rewrite H2. destruct (List.find _ (c :: rest)); cbn; split; congruence.
Qed.

End CookieLookup.

Section TokenSource.
Import JsString Js Browser Api Samples.

Lemma request_interceptor_run (config : Request) (w : World) :
  forallb well_formed_cookie (cookie_jar w) = true ->
  let stored := localStorage w !! "admin_token" in
  let token :=
    if has_token stored then stored
    else match cookie_value "admin_token" w with
         | Some v => Some (Browser.before "=" v)
         | None => stored
         end in
  request_interceptor config w =
    (if has_token token then with_authorization config (default "" token) else config, w).
Proof.
  intros Hwf stored token.
  destruct (cookie_fallback w Hwf) as [Hread Hnone].
  unfold eval in Hread, Hnone. subst token.
  unfold request_interceptor, Browser.bind, getItem, read, ret.
  fold stored.
  destruct (has_token stored) eqn:Hstored.
  - rewrite Hstored. destruct stored as [t|]; [|discriminate]. reflexivity.
  - assert (Hdc : document_cookie w = (fst (document_cookie w), w)) by reflexivity.
    rewrite Hdc. clear Hdc.
    destruct (List.find _ (split ";" (fst (document_cookie w)))) as [authCookie|] eqn:Hfind.
    + rewrite Hread.
      destruct (cookie_value "admin_token" w) as [v|] eqn:Hv.
      * cbn [option_map default].
        destruct (has_token (Some (Browser.before "=" v))); reflexivity.
      * destruct Hnone as [_ Hnone]. now specialize (Hnone eq_refl).
    + destruct Hnone as [Hnone _]. rewrite (Hnone eq_refl).
      rewrite Hstored. destruct stored; reflexivity.
Qed.

(** X6. On any jar of well-formed cookies the request interceptor takes
    the token from local storage when a non-empty one is stored there,
    and otherwise from the first cookie named admin_token that
    document.cookie lists (the visible cookies, longer paths first and
    among equal path lengths the older first), read up to its first
    equals sign; it sends the header Authorization: Bearer <token>
    exactly when that token is not empty, and it changes nothing in the
    browser. *)
Theorem request_interceptor_token_source (config : Request) (w : World) :
  forallb well_formed_cookie (cookie_jar w) = true ->
  let stored := localStorage w !! "admin_token" in
  let token :=
    if has_token stored then stored
    else match cookie_value "admin_token" w with
         | Some v => Some (Browser.before "=" v)
         | None => stored
         end in
  eval (request_interceptor config) w =
    (if has_token token then with_authorization config (default "" token) else config)
  /\ exec (request_interceptor config) w = w.
Proof.
  intros Hwf stored token. unfold eval, exec.
  rewrite (request_interceptor_run config w Hwf). split; reflexivity.
Qed.

Lemma request_interceptor_token_source_witness :
  eval (request_interceptor list_products) cookie_only =
    with_authorization list_products "YWJjZA"
  /\ exec (request_interceptor list_products) cookie_only = cookie_only
  /\ eval (request_interceptor list_products) two_paths =
    with_authorization list_products "DEEP".
Proof.
  split; [|split].
  - exact (proj1 (request_interceptor_token_source list_products cookie_only eq_refl)).
  - exact (proj2 (request_interceptor_token_source list_products cookie_only eq_refl)).
  - exact (proj1 (request_interceptor_token_source list_products two_paths eq_refl)).
Defined.

End TokenSource.

(* ===================================================================== *)
(** * The session: logout, fetchUser, the mount effect and login *)
(* ===================================================================== *)

Section AuthFurther.
Import JsString Js Browser Api Auth Samples.

Lemma logout_run (st : State) (w : World) :
  (0 <= now w)%Z ->
  logout st w =
  (mkState JNull false false,
   mkWorld (delete "admin_token" (localStorage w))
           (evict_cookie "admin_token" "/" (cookie_jar w))
           (pathname w) (now w)
           (log w ++ [StorageRemoved "admin_token"; CookieAssigned expired_cookie_text])).
Proof.
  intros Hnow.
  unfold logout, Browser.bind, removeItem, assign_cookie, ret, emit, logged.
  cbn [fst snd localStorage cookie_jar pathname now log].
  rewrite expired_cookie_parsed. unfold is_live.
  cbn [ck_expires ck_name ck_path].
  replace (now w <? 0)%Z with false by lia.
  now rewrite <- app_assoc.
Qed.

Lemma logout_world (st : State) (w : World) :
  (0 <= now w)%Z ->
  exec (logout st) w =
  mkWorld (delete "admin_token" (localStorage w))
          (evict_cookie "admin_token" "/" (cookie_jar w))
          (pathname w) (now w)
          (log w ++ [StorageRemoved "admin_token"; CookieAssigned expired_cookie_text]).
Proof. intros H. unfold exec. now rewrite logout_run. Qed.

Lemma evicted_names (name : string) (jar : list Cookie) :
  site_wide name jar = true ->
  forallb (fun c => negb (String.eqb (ck_name c) name)) (evict_cookie name "/" jar) = true.
Proof.
  unfold site_wide, evict_cookie.
  induction jar as [|c jar IH]; [reflexivity|].
  cbn [forallb List.filter]. intros H. apply andb_prop in H as [Hc Hjar].
  unfold same_cookie at 1.
  destruct (String.eqb (ck_name c) name) eqn:Hname.
  - cbn [implb] in Hc. rewrite Hc. cbn [andb negb]. now apply IH.
  - cbn [andb negb forallb]. rewrite Hname. cbn [negb andb]. now apply IH.
Qed.

Lemma cookie_value_evicted (name : string) (w w' : World) :
  site_wide name (cookie_jar w) = true ->
  cookie_jar w' = evict_cookie name "/" (cookie_jar w) ->
  cookie_value name w' = None.
Proof.
  intros Hsite Hjar. unfold cookie_value, visible_cookies.
  assert (Hnone : List.find (fun c => String.eqb (ck_name c) name)
            (listing_order
               (List.filter (fun c => is_live (now w') c
                                      && path_matches (ck_path c) (pathname w'))
                            (cookie_jar w'))) = None).
  { apply find_none_forallb. rewrite forallb_listing_order.
    apply forallb_filter. rewrite Hjar. now apply evicted_names. }
  now rewrite Hnone.
Qed.

Lemma well_formed_evicted (name path : string) (jar : list Cookie) :
  forallb well_formed_cookie jar = true ->
  forallb well_formed_cookie (evict_cookie name path jar) = true.
Proof. apply forallb_filter. Qed.

(** X7. Logging out removes the token from local storage and evicts the
    site-wide token cookie, sends nothing and navigates nowhere, and
    leaves a state for which a private route redirects to /login. When
    the only token cookies are the site-wide ones that login writes, no
    token is visible afterwards and the next request goes out as it was
    configured, without an Authorization header of the interceptor. *)
Theorem logout_ends_the_session (st : State) (w : World) (config : Request) :
  (0 <= now w)%Z ->
  forallb well_formed_cookie (cookie_jar w) = true ->
  site_wide "admin_token" (cookie_jar w) = true ->
  let st' := eval (logout st) w in
  let w' := exec (logout st) w in
  st' = mkState JNull false false /\
  PrivateRoute st' = NavigateTo "/login" /\
  localStorage w' = delete "admin_token" (localStorage w) /\
  cookie_jar w' = evict_cookie "admin_token" "/" (cookie_jar w) /\
  cookie_value "admin_token" w' = None /\
  pathname w' = pathname w /\
  events_of (logout st) w =
    [StorageRemoved "admin_token"; CookieAssigned expired_cookie_text] /\
  eval (request_interceptor config) w' = config.
Proof.
  intros Hnow Hwf Hsite st' w'.
  assert (Hst : st' = mkState JNull false false)
    by (unfold st', eval; now rewrite logout_run).
  assert (Hw : w' = mkWorld (delete "admin_token" (localStorage w))
                            (evict_cookie "admin_token" "/" (cookie_jar w))
                            (pathname w) (now w)
                            (log w ++ [StorageRemoved "admin_token";
                                       CookieAssigned expired_cookie_text]))
    by (unfold w', exec; now rewrite logout_run).
  assert (Hgone : cookie_value "admin_token" w' = None).
  { apply (cookie_value_evicted "admin_token" w w' Hsite). now rewrite Hw. }
  split; [exact Hst|]. split; [now rewrite Hst|].
  split; [now rewrite Hw|]. split; [now rewrite Hw|].
  split; [exact Hgone|]. split; [now rewrite Hw|].
  split; [apply events_of_logged; fold w'; now rewrite Hw|].
  unfold eval. rewrite request_interceptor_run.
  - rewrite Hgone.
    replace (localStorage w' !! "admin_token") with (@None string)
      by (rewrite Hw; cbn [localStorage]; symmetry; apply lookup_delete_eq).
    reflexivity.
  - rewrite Hw. cbn [cookie_jar]. now apply well_formed_evicted.
Qed.

Lemma logout_ends_the_session_witness :
  localStorage (exec (logout Auth.initial) signed_in) !! "admin_token" = None /\
  cookie_value "admin_token" (exec (logout Auth.initial) signed_in) = None /\
  eval (request_interceptor list_products) (exec (logout Auth.initial) signed_in)
    = list_products.
Proof.
  destruct (logout_ends_the_session Auth.initial signed_in list_products)
    as (_ & _ & Hls & _ & Hgone & _ & _ & Hreq);
    [vm_compute; discriminate | reflexivity | reflexivity |].
  split; [rewrite Hls; apply lookup_delete_eq|]. split; [exact Hgone | exact Hreq].
Defined.

End AuthFurther.

Section FetchUser.
Import JsString Js Browser Api Auth Samples.

Lemma response_rejected_clock (e : JsError) (w : World) :
  now (exec (response_rejected e) w) = now w.
Proof.
  assert (Hcases : e = AxiosError (Some 401%Z) \/ e <> AxiosError (Some 401%Z)).
  { destruct e as [m|m|[z|]]; try (right; discriminate).
    destruct (Z.eq_dec z 401%Z) as [->|Hz]; [now left | right; congruence]. }
  destruct Hcases as [->|Hne]; [|now rewrite (response_rejected_other e Hne)].
  unfold response_rejected, exec, Browser.bind, removeItem, assign_cookie, read,
    navigate, ret, emit, logged.
  cbn [fst snd localStorage cookie_jar pathname now log].
  now destruct (negb (pathname w =? "/login")%string).
Qed.

Lemma send_clock (config : Request) (answer : ServerAnswer) (w : World) :
  now (exec (send config answer) w) = now w.
Proof.
  unfold exec. rewrite send_unfold. cbv zeta.
  destruct (settle answer) as [r|e]; cbn [snd]; [reflexivity|].
  now rewrite response_rejected_clock.
Qed.

Lemma send_resolved_world (config : Request) (answer : ServerAnswer)
      (r : Response) (w : World) :
  settle answer = Ok r ->
  exec (send config answer) w =
  logged w [RequestSent (eval (request_interceptor config) w)].
Proof. intros H. unfold exec. rewrite send_unfold. cbv zeta. now rewrite H. Qed.

Lemma fetchUser_run (answer : ServerAnswer) (st : State) (w : World) :
  let w1 := exec (api_get "/users/me" answer) w in
  fetchUser answer st w =
  match admin_of (settle answer) with
  | Ok (Some userData) => (mkState userData true false, w1)
  | Ok None => (mkState JNull false false, exec (logout st) w1)
  | Throw _ =>
      (mkState JNull false false,
       exec (logout st) (logged w1 [ConsoleError "Failed to fetch user:"]))
  end.
Proof.
  intros w1. unfold fetchUser, Browser.bind at 1.
  rewrite (split_run (api_get "/users/me" answer) w).
  unfold api_get at 1. rewrite send_eval. fold w1.
  destruct (admin_of (settle answer)) as [[u|]|e].
  - reflexivity.
  - unfold Browser.bind, ret. rewrite (split_run (logout st) w1).
    unfold logout, eval, Browser.bind, ret.
    destruct (removeItem _ w1) as [? v1]. now destruct (assign_cookie _ v1) as [? v2].
  - unfold Browser.bind, ret, emit.
    rewrite (split_run (logout st) (logged w1 _)).
    unfold logout, eval, Browser.bind, ret.
    destruct (removeItem _ _) as [? v1]. now destruct (assign_cookie _ v1) as [? v2].
Qed.

Lemma issues_logout (st : State) (w : World) : issues (logout st) w [].
Proof.
  unfold logout.
  apply (issues_bind _ _ w [] []); [eexists; split; reflexivity|].
  apply (issues_bind _ _ _ [] []); [eexists; split; reflexivity|].
  apply issues_ret.
Qed.

Lemma issues_fetchUser (answer : ServerAnswer) (st : State) (w : World) :
  issues (fetchUser answer st) w [(GET, "/users/me", JUndefined)].
Proof.
  unfold fetchUser.
  apply (issues_bind _ _ w [(GET, "/users/me", JUndefined)] []); [apply issues_send|].
  apply (issues_bind _ _ _ [] []); [|apply issues_ret].
  destruct (admin_of _) as [[u|]|e].
  - apply issues_ret.
  - apply issues_logout.
  - apply (issues_bind _ _ _ [] []); [now apply issues_emit_quiet | apply issues_logout].
Qed.

(** X8. Fetching the user sends one GET /users/me and always ends the
    loading state. Only an accepted answer whose user, enveloped or not,
    has the role admin authenticates, and it leaves local storage and the
    cookies alone. Every other outcome (a user of another role, a
    rejected request, a body without a user) logs out: the user is null,
    the token is gone from local storage, the site-wide token cookie is
    evicted and a private route redirects to /login. *)
Theorem fetchUser_outcomes (answer : ServerAnswer) (st : State) (w : World) :
  (0 <= now w)%Z ->
  let st' := eval (fetchUser answer st) w in
  let w' := exec (fetchUser answer st) w in
  issues (fetchUser answer st) w [(GET, "/users/me", JUndefined)] /\
  isLoading st' = false /\
  match admin_of (settle answer) with
  | Ok (Some userData) =>
      st' = mkState userData true false /\
      get userData "role" = Ok (JStr "admin") /\
      localStorage w' = localStorage w /\ cookie_jar w' = cookie_jar w
  | _ =>
      st' = mkState JNull false false /\
      PrivateRoute st' = NavigateTo "/login" /\
      localStorage w' !! "admin_token" = None /\
      List.existsb (same_cookie "admin_token" "/") (cookie_jar w') = false
  end.
Proof.
  intros Hnow st' w'.
  split; [apply issues_fetchUser|].
  pose proof (fetchUser_run answer st w) as Hrun. cbv zeta in Hrun.
  assert (Hclock : (0 <= now (exec (api_get "/users/me" answer) w))%Z)
    by (unfold api_get; now rewrite send_clock).
  assert (Hsame : forall r, settle answer = Ok r ->
            exec (api_get "/users/me" answer) w =
            logged w [RequestSent (eval (request_interceptor
                        (mkRequest GET "/users/me" base_headers JUndefined)) w)])
    by (intros r Hr; unfold api_get; now rewrite (send_resolved_world _ _ _ _ Hr)).
  set (w1 := exec (api_get "/users/me" answer) w) in *.
  unfold st', w'. unfold eval, exec. rewrite Hrun. clear Hrun.
  destruct (admin_of (settle answer)) as [[u|]|e] eqn:Hadmin; cbn [fst snd isLoading].
  - split; [reflexivity|]. split; [reflexivity|].
    unfold admin_of in Hadmin.
    destruct (settle answer) as [r|e] eqn:Hsettle; [|discriminate].
    cbn [Js.bind] in Hadmin.
    destruct (unwrap (data r)) as [ud|e]; [|discriminate]. cbn [Js.bind] in Hadmin.
    destruct (get ud "role") as [role|e] eqn:Hrole; [|discriminate].
    cbn [Js.bind] in Hadmin.
    destruct (strict_eq_str role "admin") eqn:Heq; [|discriminate].
    injection Hadmin as <-. apply strict_eq_str_true in Heq. subst role.
    split; [exact Hrole|]. rewrite (Hsame r eq_refl). now split.
  - split; [reflexivity|]. split; [reflexivity|]. split; [reflexivity|].
    rewrite (logout_world st _ Hclock). cbn [localStorage cookie_jar].
    split; [apply lookup_delete_eq | apply evict_cookie_gone].
  - split; [reflexivity|]. split; [reflexivity|]. split; [reflexivity|].
    rewrite (logout_world st (logged w1 _) Hclock). cbn [localStorage cookie_jar logged].
    split; [apply lookup_delete_eq | apply evict_cookie_gone].
Qed.

Lemma fetchUser_outcomes_witness :
  eval (fetchUser (Reply 200 (envelope customer_user (JStr "2024-01-01T00:00:00.000Z"))) Auth.initial) signed_in
    = mkState JNull false false /\
  localStorage (exec (fetchUser (Reply 200 (envelope customer_user (JStr "2024-01-01T00:00:00.000Z"))) Auth.initial)
                     signed_in) !! "admin_token" = None.
Proof.
  destruct (fetchUser_outcomes (Reply 200 (envelope customer_user (JStr "2024-01-01T00:00:00.000Z"))) Auth.initial signed_in)
    as (_ & _ & H); [vm_compute; discriminate|].
  change (admin_of (settle (Reply 200 (envelope customer_user (JStr "2024-01-01T00:00:00.000Z"))))) with (@Ok (option JsVal) None) in H.
  destruct H as (Hst & _ & Hls & _). split; [exact Hst | exact Hls].
Defined.

End FetchUser.

Section Mount.
Import JsString Js Browser Api Auth Samples.

Lemma mount_run (answer : ServerAnswer) (st : State) (w : World) :
  forallb well_formed_cookie (cookie_jar w) = true ->
  let stored := localStorage w !! "admin_token" in
  let idle := mkState (user st) (isAuthenticated st) false in
  mount answer st w =
  if has_token stored then fetchUser answer st w
  else match cookie_value "admin_token" w with
       | Some v =>
           let t := Browser.before "=" v in
           let w1 := exec (setItem "admin_token" t) w in
           if negb (is_empty t) then fetchUser answer st w1 else (idle, w1)
       | None => (idle, w)
       end.
Proof.
  intros Hwf stored idle.
  destruct (cookie_fallback w Hwf) as [Hread Hnone].
  unfold eval in Hread, Hnone.
  unfold mount, Browser.bind at 1, getItem, read. fold stored.
  destruct (has_token stored) eqn:Hstored.
  - unfold Browser.bind, ret. now rewrite Hstored.
  - unfold Browser.bind at 1 2.
    assert (Hdc : document_cookie w = (fst (document_cookie w), w)) by reflexivity.
    rewrite Hdc. clear Hdc.
    destruct (List.find _ (split ";" (fst (document_cookie w)))) as [authCookie|] eqn:Hfind.
    + rewrite Hread.
      destruct (cookie_value "admin_token" w) as [v|] eqn:Hv.
      * cbn [option_map default]. unfold Browser.bind, ret, id.
        rewrite (split_run (setItem "admin_token" (Browser.before "=" v)) w).
        cbv zeta. unfold has_token. now destruct (negb (is_empty _)).
      * destruct Hnone as [_ Hnone]. now specialize (Hnone eq_refl).
    + destruct Hnone as [Hnone _]. rewrite (Hnone eq_refl).
      unfold ret. now rewrite Hstored.
Qed.

Lemma issues_setItem (key value : string) (w : World) : issues (setItem key value) w [].
Proof. eexists. split; reflexivity. Qed.

(** X9. When the provider mounts over a jar of well-formed cookies, it
    looks for a token in local storage and then in the first cookie
    named admin_token that document.cookie lists (the visible cookies,
    longer paths first and among equal path lengths the older first),
    read up to its first equals sign. With a non-empty token it sends
    exactly one request, GET /users/me; without one it sends nothing and
    only ends the loading state, keeping user and authentication as they
    were. The loading state is over in every case, and a token read from
    the cookie is first written back to local storage. *)
Theorem mount_outcomes (answer : ServerAnswer) (st : State) (w : World) :
  forallb well_formed_cookie (cookie_jar w) = true ->
  let stored := localStorage w !! "admin_token" in
  let token :=
    if has_token stored then stored
    else match cookie_value "admin_token" w with
         | Some v => Some (Browser.before "=" v)
         | None => stored
         end in
  isLoading (eval (mount answer st) w) = false /\
  issues (mount answer st) w
         (if has_token token then [(GET, "/users/me", JUndefined)] else []) /\
  (has_token token = false ->
   eval (mount answer st) w = mkState (user st) (isAuthenticated st) false) /\
  (has_token stored = false ->
   forall v, cookie_value "admin_token" w = Some v ->
     hd_error (events_of (mount answer st) w)
       = Some (StorageSet "admin_token" (Browser.before "=" v))).
Proof.
  intros Hwf stored token.
  pose proof (mount_run answer st w Hwf) as Hrun. cbv zeta in Hrun. fold stored in Hrun.
  assert (Hloading : forall v, isLoading (eval (fetchUser answer st) v) = false).
  { intros v. unfold eval. rewrite fetchUser_run.
    now destruct (admin_of (settle answer)) as [[u|]|e]. }
  assert (Hissues : forall (c d : Eff State) reqs, c w = d w -> issues d w reqs -> issues c w reqs).
  { intros c d reqs Heq (evs & Hlog & Hreq). exists evs. split; [|exact Hreq].
    unfold exec in *. now rewrite Heq. }
  subst token.
  destruct (has_token stored) eqn:Hstored.
  - rewrite Hstored. unfold eval. rewrite Hrun.
    split; [apply Hloading|].
    split; [apply (Hissues _ (fetchUser answer st)); [exact Hrun | apply issues_fetchUser]|].
    split; discriminate.
  - destruct (cookie_value "admin_token" w) as [v|] eqn:Hv.
    + set (t := Browser.before "=" v) in *.
      set (w1 := exec (setItem "admin_token" t) w) in *.
      assert (Hlog1 : log w1 = log w ++ [StorageSet "admin_token" t]) by reflexivity.
      unfold has_token at 1 2.
      destruct (negb (is_empty t)) eqn:Ht.
      * split; [unfold eval; rewrite Hrun; apply Hloading|].
        split.
        { destruct (issues_fetchUser answer st w1) as (evs & Hlog & Hreq).
          exists (StorageSet "admin_token" t :: evs). split.
          - unfold exec in *. rewrite Hrun, Hlog, Hlog1. now rewrite <- app_assoc.
          - exact Hreq. }
        split; [discriminate|].
        intros _ v' [= <-].
        destruct (issues_fetchUser answer st w1) as (evs & Hlog & _).
        rewrite (events_of_logged _ w (StorageSet "admin_token" t :: evs)); [reflexivity|].
        unfold exec in *. rewrite Hrun, Hlog, Hlog1. now rewrite <- app_assoc.
      * split; [unfold eval; now rewrite Hrun|].
        split; [exists [StorageSet "admin_token" t]; split;
                [unfold exec; now rewrite Hrun | reflexivity]|].
        split; [intros _; unfold eval; now rewrite Hrun|].
        intros _ v' [= <-].
        rewrite (events_of_logged _ w [StorageSet "admin_token" t]); [reflexivity|].
        unfold exec. now rewrite Hrun.
    + rewrite Hstored.
      split; [unfold eval; now rewrite Hrun|].
      split; [exists []; split; [unfold exec; rewrite Hrun; cbn [snd]; now rewrite app_nil_r
                                | reflexivity]|].
      split; [intros _; unfold eval; now rewrite Hrun|].
      intros _ v' [=].
Qed.

Lemma mount_outcomes_witness :
  issues (mount NoResponse Auth.initial) signed_out [] /\
  issues (mount NoResponse Auth.initial) cookie_only [(GET, "/users/me", JUndefined)] /\
  hd_error (events_of (mount NoResponse Auth.initial) cookie_only)
    = Some (StorageSet "admin_token" "YWJjZA") /\
  hd_error (events_of (mount NoResponse Auth.initial) two_paths)
    = Some (StorageSet "admin_token" "DEEP").
Proof.
  split; [|split; [|split]].
  - exact (proj1 (proj2 (mount_outcomes NoResponse Auth.initial signed_out eq_refl))).
  - exact (proj1 (proj2 (mount_outcomes NoResponse Auth.initial cookie_only eq_refl))).
  - exact (proj2 (proj2 (proj2 (mount_outcomes NoResponse Auth.initial cookie_only eq_refl)))
             eq_refl "YWJjZA==" eq_refl).
  - exact (proj2 (proj2 (proj2 (mount_outcomes NoResponse Auth.initial two_paths eq_refl)))
             eq_refl "DEEP" eq_refl).
Defined.

End Mount.

Section LoginFurther.
Import JsString Js Browser Api Auth Samples.

Lemma evict_stored (c : Cookie) (jar : list Cookie) :
  evict_cookie (ck_name c) (ck_path c) (store_cookie c jar)
  = evict_cookie (ck_name c) (ck_path c) jar.
Proof.
  assert (Hself : same_cookie (ck_name c) (ck_path c) c = true)
    by (unfold same_cookie; now rewrite !String.eqb_refl).
  unfold evict_cookie. induction jar as [|c' jar IH].
  - cbn. now rewrite Hself.
  - cbn [store_cookie List.filter].
    destruct (same_cookie (ck_name c) (ck_path c) c') eqn:E;
      cbn [List.filter negb]; rewrite ?Hself, ?E; cbn [negb]; [reflexivity|].
    now rewrite IH.
Qed.

(** What a login answered with an admin user leaves behind. *)
Lemma login_admin_run (email password : string) (status : Z)
      (body responseData userData access_token : JsVal) (st : State) (w : World) :
  (200 <= status < 300)%Z ->
  unwrap body = Ok responseData ->
  get responseData "user" = Ok userData ->
  truthy userData = true ->
  get_opt userData "role" = JStr "admin" ->
  get responseData "access_token" = Ok access_token ->
  exists w1,
    localStorage w1 = localStorage w /\ cookie_jar w1 = cookie_jar w /\
    pathname w1 = pathname w /\ now w1 = now w /\
    login email password (Reply status body) st w =
    (Ok tt, mkState userData true (isLoading st),
     exec (assign_cookie (token_cookie_text access_token))
          (exec (setItem "admin_token" (to_string access_token)) w1)).
Proof.
  intros Hst Hun Hu Htr Hrole Htok.
  destruct (login_unfold email password status body st w Hst)
    as (w1 & Hls & Hjar & Hpath & Hnow & Heq).
  exists w1. repeat (split; [assumption|]).
  rewrite Heq, Hun, Htok, Hu, Htr, Hrole. cbn [negb strict_eq_str].
  now rewrite String.eqb_refl.
Qed.

(** X10. After a login answered with an admin user, local storage holds
    the text of the access token of the answer, and every later request
    carries it as Authorization: Bearer <text>, whatever the cookies
    hold. The text is the token converted to a string, so that an answer
    without access_token still resolves and makes the requests carry
    Bearer undefined. *)
Theorem login_authorizes_later_requests
  (email password : string) (status : Z)
  (body responseData userData access_token : JsVal) (st : State) (w : World)
  (config : Request) :
  (200 <= status < 300)%Z ->
  unwrap body = Ok responseData ->
  get responseData "user" = Ok userData ->
  truthy userData = true ->
  get_opt userData "role" = JStr "admin" ->
  get responseData "access_token" = Ok access_token ->
  to_string access_token <> "" ->
  let out := login email password (Reply status body) st w in
  fst out = (Ok tt, mkState userData true (isLoading st)) /\
  localStorage (snd out) !! "admin_token" = Some (to_string access_token) /\
  eval (request_interceptor config) (snd out)
    = with_authorization config (to_string access_token) /\
  headers (eval (request_interceptor config) (snd out)) !! "Authorization"
    = Some ("Bearer " +:+ to_string access_token).
Proof.
  intros Hst Hun Hu Htr Hrole Htok Hne out.
  destruct (login_admin_run email password status body responseData userData
              access_token st w Hst Hun Hu Htr Hrole Htok)
    as (w1 & Hls & _ & _ & _ & Heq).
  unfold out. rewrite Heq. cbn [fst snd].
  assert (Hstored : localStorage
            (exec (assign_cookie (token_cookie_text access_token))
                  (exec (setItem "admin_token" (to_string access_token)) w1))
            !! "admin_token" = Some (to_string access_token))
    by apply lookup_insert_eq.
  split; [reflexivity|]. split; [exact Hstored|].
  exact (request_token_from_storage config _ _ Hstored Hne).
Qed.

Lemma login_authorizes_later_requests_witness :
  let body := JObj [("user", admin_user)] in
  fst (login "a@b.c" "pw" (Reply 201 body) Auth.initial signed_out)
    = (Ok tt, mkState admin_user true true) /\
  headers (eval (request_interceptor list_products)
                (snd (login "a@b.c" "pw" (Reply 201 body) Auth.initial signed_out)))
    !! "Authorization" = Some "Bearer undefined".
Proof.
  cbv zeta.
  destruct (login_authorizes_later_requests "a@b.c" "pw" 201
              (JObj [("user", admin_user)]) (JObj [("user", admin_user)])
              admin_user JUndefined Auth.initial signed_out list_products)
    as (Hres & _ & _ & Hhdr);
    [lia | reflexivity | reflexivity | reflexivity | reflexivity | reflexivity
     | discriminate |].
  split; [exact Hres | exact Hhdr].
Defined.

(** X11. Logging out after a login answered with an admin user and a
    cookie-safe token undoes the login on both stores: local storage and
    the cookie jar are what a logout without the login would have left,
    so every other key and cookie is kept and no token remains. *)
Theorem logout_undoes_login
  (email password : string) (status : Z)
  (body responseData userData : JsVal) (tok : string) (st : State) (w : World) :
  (0 <= now w)%Z ->
  (200 <= status < 300)%Z ->
  unwrap body = Ok responseData ->
  get responseData "user" = Ok userData ->
  truthy userData = true ->
  get_opt userData "role" = JStr "admin" ->
  get responseData "access_token" = Ok (JStr tok) ->
  cookie_safe tok = true ->
  let out := login email password (Reply status body) st w in
  let w' := exec (logout (snd (fst out))) (snd out) in
  eval (logout (snd (fst out))) (snd out) = mkState JNull false false /\
  localStorage w' = delete "admin_token" (localStorage w) /\
  cookie_jar w' = evict_cookie "admin_token" "/" (cookie_jar w) /\
  localStorage w' = localStorage (exec (logout st) w) /\
  cookie_jar w' = cookie_jar (exec (logout st) w) /\
  localStorage w' !! "admin_token" = None /\
  List.existsb (same_cookie "admin_token" "/") (cookie_jar w') = false.
Proof.
  intros Hnow Hst Hun Hu Htr Hrole Htok Hsafe out w'.
  destruct (login_admin_run email password status body responseData userData
              (JStr tok) st w Hst Hun Hu Htr Hrole Htok)
    as (w1 & Hls & Hjar & Hpath & Hnow1 & Heq).
  assert (Hout : snd out =
            mkWorld (<["admin_token" := tok]> (localStorage w))
                    (store_cookie (mkCookie "admin_token" tok "/"
                                            (Some (now w + seven_days)%Z))
                                  (cookie_jar w))
                    (pathname w) (now w)
                    (log (snd out))).
  { unfold out. rewrite Heq. cbn [fst snd to_string].
    unfold exec, setItem, assign_cookie, emit, logged.
    cbn [fst snd localStorage cookie_jar pathname now log].
    rewrite (token_cookie_parsed _ _ _ Hsafe).
    unfold is_live. cbn [ck_expires ck_name ck_path].
    replace (now w1 <? now w1 + seven_days)%Z with true
      by (symmetry; apply Z.ltb_lt; unfold seven_days; lia).
    now rewrite Hls, Hjar, Hpath, Hnow1. }
  assert (Hclock : (0 <= now (snd out))%Z) by (rewrite Hout; exact Hnow).
  assert (Hls' : localStorage w' = delete "admin_token" (localStorage w)).
  { unfold w'. rewrite (logout_world _ _ Hclock). cbn [localStorage].
    rewrite Hout. cbn [localStorage]. apply delete_insert_eq. }
  assert (Hjar' : cookie_jar w' = evict_cookie "admin_token" "/" (cookie_jar w)).
  { unfold w'. rewrite (logout_world _ _ Hclock). cbn [cookie_jar].
    rewrite Hout. cbn [cookie_jar].
    apply (evict_stored (mkCookie "admin_token" tok "/" (Some (now w + seven_days)%Z))). }
  split; [unfold eval; now rewrite (logout_run _ _ Hclock)|].
  split; [exact Hls'|]. split; [exact Hjar'|].
  rewrite (logout_world st w Hnow). cbn [localStorage cookie_jar].
  split; [exact Hls'|]. split; [exact Hjar'|].
  rewrite Hls', Hjar'. split; [apply lookup_delete_eq | apply evict_cookie_gone].
Qed.

Lemma logout_undoes_login_witness :
  let out := login "a@b.c" "pw" (Reply 201 (login_body admin_user)) Auth.initial signed_out in
  localStorage (exec (logout (snd (fst out))) (snd out)) = localStorage signed_out /\
  cookie_jar (exec (logout (snd (fst out))) (snd out)) = cookie_jar signed_out.
Proof.
  cbv zeta.
  destruct (logout_undoes_login "a@b.c" "pw" 201 (login_body admin_user)
              (JObj [("access_token", JStr "T0K3N"); ("user", admin_user)])
              admin_user "T0K3N" Auth.initial signed_out)
    as (_ & Hls & Hjar & _);
    [vm_compute; discriminate | lia | reflexivity | reflexivity | reflexivity
     | reflexivity | reflexivity | reflexivity |].
  split; [rewrite Hls | rewrite Hjar]; reflexivity.
Defined.

Lemma rejected_send_storage (config : Request) (answer : ServerAnswer) (e : JsError)
      (w : World) :
  settle answer = Throw e ->
  (e = AxiosError (Some 401%Z) ->
   localStorage (exec (send config answer) w) = delete "admin_token" (localStorage w)) /\
  (e <> AxiosError (Some 401%Z) ->
   exec (send config answer) w
   = logged w [RequestSent (eval (request_interceptor config) w)]).
Proof.
  intros Hsettle. unfold exec at 1 2. rewrite send_unfold. cbv zeta.
  rewrite Hsettle. cbn [snd]. split.
  - intros ->. unfold response_rejected, exec, Browser.bind, removeItem, assign_cookie,
      read, navigate, ret, emit, logged.
    cbn [fst snd localStorage cookie_jar pathname now log].
    now destruct (negb (pathname w =? "/login")%string).
  - intros Hne. now rewrite (response_rejected_other e Hne).
Qed.

(** X12. A login whose request is rejected (no answer, or a status
    outside 2xx) rejects with the error of the request and leaves the
    state of the provider as it was. It sends the one POST /auth/login
    with the credentials and stores no token: local storage is left
    without the token after a 401, and as it was, like the cookies,
    after any other rejection. *)
Theorem rejected_login_stores_nothing
  (email password : string) (answer : ServerAnswer) (e : JsError)
  (st : State) (w : World) :
  settle answer = Throw e ->
  let out := login email password answer st w in
  fst out = (Throw e, st) /\
  requests_in (events_of (login email password answer st) w) =
    [(POST, "/auth/login", JObj [("email", JStr email); ("password", JStr password)])] /\
  (localStorage (snd out) = localStorage w \/
   localStorage (snd out) = delete "admin_token" (localStorage w)) /\
  (e = AxiosError (Some 401%Z) ->
   localStorage (snd out) = delete "admin_token" (localStorage w)) /\
  (e <> AxiosError (Some 401%Z) ->
   localStorage (snd out) = localStorage w /\ cookie_jar (snd out) = cookie_jar w).
Proof.
  intros Hsettle out.
  set (config := mkRequest POST "/auth/login" base_headers
                   (JObj [("email", JStr email); ("password", JStr password)])).
  assert (Hrun : login email password answer st w =
                 (Throw e, st, exec (send config answer) w)).
  { unfold login, api_post, Browser.bind at 1. fold config.
    rewrite (split_run (send config answer) w), send_eval, Hsettle. reflexivity. }
  split; [unfold out; now rewrite Hrun|]. split.
  - apply issues_events. destruct (issues_send config answer w) as (evs & Hlog & Hreq).
    exists evs. split; [|exact Hreq]. unfold exec at 1. rewrite Hrun. exact Hlog.
  - unfold out. rewrite Hrun. cbn [snd].
    destruct (rejected_send_storage config answer e w Hsettle) as [H401 Hother].
    assert (Hcases : e = AxiosError (Some 401%Z) \/ e <> AxiosError (Some 401%Z)).
    { destruct e as [m|m|[z|]]; try (right; discriminate).
      destruct (Z.eq_dec z 401%Z) as [->|Hz]; [now left | right; congruence]. }
    split; [|split].
    + destruct Hcases as [H|H]; [right; now apply H401 | left; now rewrite (Hother H)].
    + exact H401.
    + intros Hne. now rewrite (Hother Hne).
Qed.

Lemma rejected_login_stores_nothing_witness :
  fst (login "a@b.c" "pw" (Reply 401 JNull) Auth.initial signed_out)
    = (Throw (AxiosError (Some 401%Z)), Auth.initial).
Proof.
  exact (proj1 (rejected_login_stores_nothing "a@b.c" "pw" (Reply 401 JNull)
                  (AxiosError (Some 401%Z)) Auth.initial signed_out eq_refl)).
Defined.

End LoginFurther.

(* ===================================================================== *)
(** * Requests and notifications of a handler *)
(* ===================================================================== *)

Section Reports.
Import JsString Js Browser Api Pages.

Lemma reports_ret {A : Type} (a : A) (w : World) : reports (ret a) w [] [].
Proof. exists []. cbn. now rewrite app_nil_r. Qed.

Lemma reports_bind {A B : Type} (c : Eff A) (k : A -> Eff B) (w : World)
      (r1 r2 : list (Method * string * JsVal)) (n1 n2 : list (string * string)) :
  reports c w r1 n1 -> reports (k (eval c w)) (exec c w) r2 n2 ->
  reports (Browser.bind c k) w (r1 ++ r2) (n1 ++ n2).
Proof.
  intros (e1 & H1 & <- & <-) (e2 & H2 & <- & <-). exists (e1 ++ e2). split; [|split].
  - rewrite exec_bind, H2, H1. now rewrite app_assoc.
  - unfold requests_in. apply omap_app.
  - unfold notifications_in. apply omap_app.
Qed.

Lemma reports_notified (message kind : string) (w : World) :
  reports (emit (Notified message kind)) w [] [(message, kind)].
Proof. exists [Notified message kind]. now split. Qed.

Lemma reports_console (label : string) (w : World) :
  reports (emit (ConsoleError label)) w [] [].
Proof. exists [ConsoleError label]. now split. Qed.

Lemma reports_response_rejected (e : JsError) (w : World) :
  reports (response_rejected e) w [] [].
Proof.
  assert (Hcases : e = AxiosError (Some 401%Z) \/ e <> AxiosError (Some 401%Z)).
  { destruct e as [m|m|[z|]]; try (right; discriminate).
    destruct (Z.eq_dec z 401%Z) as [->|Hz]; [now left | right; congruence]. }
  destruct Hcases as [->|Hne]; [|rewrite (response_rejected_other e Hne); apply reports_ret].
  unfold response_rejected.
  apply (reports_bind _ _ w [] [] [] []); [eexists; split; [reflexivity | now split]|].
  apply (reports_bind _ _ _ [] [] [] []); [eexists; split; [reflexivity | now split]|].
  apply (reports_bind _ _ _ [] [] [] []); [exists []; cbn; now rewrite app_nil_r|].
  apply (reports_bind _ _ _ [] [] [] []); [|apply reports_ret].
  destruct (negb _); [eexists; split; [reflexivity | now split] | apply reports_ret].
Qed.

Lemma reports_send (config : Request) (answer : ServerAnswer) (w : World) :
  reports (send config answer) w [(method config, url config, body config)] [].
Proof.
  destruct (request_interceptor_reads config w) as (_ & Hm & Hu & Hb).
  unfold reports. unfold exec at 1. rewrite send_unfold. cbv zeta.
  destruct (settle answer) as [r|e]; cbn [snd].
  - eexists. split; [reflexivity|]. cbn. now rewrite Hm, Hu, Hb.
  - destruct (reports_response_rejected e
               (logged w [RequestSent (eval (request_interceptor config) w)]))
      as (evs & Hlog & Hreq & Hnote).
    exists (RequestSent (eval (request_interceptor config) w) :: evs). split; [|split].
    + rewrite Hlog. cbn. now rewrite <- app_assoc.
    + cbn. rewrite Hm, Hu, Hb. unfold requests_in in Hreq. now rewrite Hreq.
    + exact Hnote.
Qed.

Lemma reports_events {A : Type} (c : Eff A) (w : World)
      (reqs : list (Method * string * JsVal)) (notes : list (string * string)) :
  reports c w reqs notes ->
  requests_in (events_of c w) = reqs /\ notifications_in (events_of c w) = notes.
Proof. intros (evs & Hlog & <- & <-). now rewrite (events_of_logged c w evs Hlog). Qed.

Lemma reports_load_list (url label : string) (answer : ServerAnswer) (w : World) :
  reports (load_list url label answer) w [(GET, url, JUndefined)] [].
Proof.
  unfold load_list.
  apply (reports_bind _ _ w [(GET, url, JUndefined)] [] [] []); [apply reports_send|].
  destruct (collection_of _); [apply reports_ret|].
  apply (reports_bind _ _ _ [] [] [] []); [apply reports_console | apply reports_ret].
Qed.

(** A failure branch: one notification, one line on the console. *)
Lemma reports_failure {A : Type} (message : string) (label : string) (a : A) (w : World) :
  reports (Browser.bind (emit (Notified message "error"))
             (fun _ => Browser.bind (emit (ConsoleError label)) (fun _ => ret a)))
          w [] [(message, "error")].
Proof.
  apply (reports_bind _ _ w [] [] [_] []); [apply reports_notified|].
  apply (reports_bind _ _ _ [] [] [] []); [apply reports_console | apply reports_ret].
Qed.

(** The collection that a list fetch leaves. *)
Lemma load_list_value (url label : string) (answer : ServerAnswer) (w : World) :
  eval (load_list url label answer) w =
  match collection_of (settle answer) with
  | Ok l => l
  | Throw _ => []
  end.
Proof.
  unfold load_list, api_get. rewrite eval_bind, send_eval.
  now destruct (collection_of (settle answer)).
Qed.

End Reports.

(* ===================================================================== *)
(** * The Orders page *)
(* ===================================================================== *)

Section OrdersFurther.
Import JsString Js Browser Api Pages Orders.

Lemma fetchOrders_value (answer : ServerAnswer) (st : State) (w : World) :
  eval (fetchOrders answer st) w =
  mkState (match collection_of (settle answer) with Ok l => l | Throw _ => [] end)
          false (selectedOrder st) (showModal st).
Proof.
  unfold fetchOrders.
  rewrite (eval_bind_ret _ (fun l => mkState l false (selectedOrder st) (showModal st))).
  now rewrite load_list_value.
Qed.

Lemma reports_fetchOrders (answer : ServerAnswer) (st : State) (w : World) :
  reports (fetchOrders answer st) w [(GET, "/orders/admin/all", JUndefined)] [].
Proof.
  unfold fetchOrders.
  apply (reports_bind _ _ w [_] [] [] []); [apply reports_load_list | apply reports_ret].
Qed.

Lemma updateStatus_value (id status : string) (pa la : ServerAnswer)
      (st : State) (w : World) :
  eval (updateStatus id status pa la st) w =
  match settle pa with
  | Ok _ =>
      mkState (match collection_of (settle la) with Ok l => l | Throw _ => [] end)
              false
              (if is_selected st id
               then spread_with (selectedOrder st) "status" (JStr status)
               else selectedOrder st)
              (showModal st)
  | Throw _ => st
  end.
Proof.
  unfold updateStatus, api_patch. rewrite eval_bind, send_eval.
  destruct (settle pa) as [r|e].
  - rewrite eval_bind, eval_bind, fetchOrders_value.
    unfold ret, eval. cbn [fst orders loading showModal].
    now destruct (is_selected st id).
  - now rewrite !eval_bind.
Qed.

Lemma reports_updateStatus (id status : string) (pa la : ServerAnswer)
      (st : State) (w : World) :
  reports (updateStatus id status pa la st) w
    ((PATCH, "/orders/" +:+ id +:+ "/status", JObj [("status", JStr status)])
     :: match settle pa with
        | Ok _ => [(GET, "/orders/admin/all", JUndefined)]
        | Throw _ => []
        end)
    [match settle pa with
     | Ok _ => ("Order status updated successfully", "success")
     | Throw _ => ("Failed to update order status", "error")
     end].
Proof.
  unfold updateStatus, api_patch.
  apply (reports_bind _ _ w [_] _ [] [_]); [apply reports_send|].
  rewrite send_eval.
  destruct (settle pa) as [r|e].
  - apply (reports_bind _ _ _ [] [_] [_] []); [apply reports_notified|].
    apply (reports_bind _ _ _ [_] [] [] []); [apply reports_fetchOrders | apply reports_ret].
  - apply reports_failure.
Qed.

(** X13. A status update whose PATCH is rejected leaves the page as it
    was, shows the error notification and sends no list request. An
    accepted one shows the success notification and replaces the table by
    the answer of the list fetch, which is the empty table when that
    fetch fails; the modal keeps its order unless it shows the updated
    one, whose status alone is then overwritten. *)
Theorem updateStatus_outcomes (id status : string) (pa la : ServerAnswer)
        (st : State) (w : World) :
  let st' := eval (updateStatus id status pa la st) w in
  let events := events_of (updateStatus id status pa la st) w in
  match settle pa with
  | Ok _ =>
      orders st' = match collection_of (settle la) with Ok l => l | Throw _ => [] end /\
      loading st' = false /\
      showModal st' = showModal st /\
      selectedOrder st' =
        (if is_selected st id
         then spread_with (selectedOrder st) "status" (JStr status)
         else selectedOrder st) /\
      notifications_in events = [("Order status updated successfully", "success")]
  | Throw _ =>
      st' = st /\
      notifications_in events = [("Failed to update order status", "error")] /\
      requests_in events =
        [(PATCH, "/orders/" +:+ id +:+ "/status", JObj [("status", JStr status)])]
  end.
Proof.
  intros st' events.
  destruct (reports_events _ _ _ _ (reports_updateStatus id status pa la st w))
    as [Hreq Hnote].
  fold events in Hreq, Hnote.
  pose proof (updateStatus_value id status pa la st w) as Hval. fold st' in Hval.
  destruct (settle pa) as [r|e]; rewrite Hval.
  - repeat split; exact Hnote.
  - repeat split; assumption.
Qed.

(** X14. Closing an order sends the PATCH to delivered and then always
    reports "Order closed successfully" and closes the modal, also when
    the PATCH was rejected: the failure is caught inside the status
    update, whose error notification then comes first, and the table is
    left as it was. The notification "Failed to close order" is never
    shown. *)
Theorem closeOrder_reports_success_regardless
        (orderId : string) (pa la : ServerAnswer) (st : State) (w : World) :
  let st' := eval (closeOrder orderId pa la st) w in
  let events := events_of (closeOrder orderId pa la st) w in
  showModal st' = false /\
  selectedOrder st' = JNull /\
  orders st' = match settle pa with
               | Ok _ => match collection_of (settle la) with Ok l => l | Throw _ => [] end
               | Throw _ => orders st
               end /\
  requests_in events =
    (PATCH, "/orders/" +:+ orderId +:+ "/status", JObj [("status", JStr "delivered")])
    :: match settle pa with
       | Ok _ => [(GET, "/orders/admin/all", JUndefined)]
       | Throw _ => []
       end /\
  notifications_in events =
    [match settle pa with
     | Ok _ => ("Order status updated successfully", "success")
     | Throw _ => ("Failed to update order status", "error")
     end;
     ("Order closed successfully", "success")] /\
  ~ In ("Failed to close order", "error") (notifications_in events).
Proof.
  intros st' events.
  assert (Hrep : reports (closeOrder orderId pa la st) w
            ((PATCH, "/orders/" +:+ orderId +:+ "/status", JObj [("status", JStr "delivered")])
             :: match settle pa with
                | Ok _ => [(GET, "/orders/admin/all", JUndefined)]
                | Throw _ => []
                end)
            [match settle pa with
             | Ok _ => ("Order status updated successfully", "success")
             | Throw _ => ("Failed to update order status", "error")
             end;
             ("Order closed successfully", "success")]).
  { unfold closeOrder.
    rewrite <- (app_nil_r (_ :: match settle pa with Ok _ => _ | Throw _ => _ end)).
    apply (reports_bind _ _ w _ [] [_] [_]); [apply reports_updateStatus|].
    apply (reports_bind _ _ _ [] [] [_] []); [apply reports_notified | apply reports_ret]. }
  destruct (reports_events _ _ _ _ Hrep) as [Hreq Hnote].
  fold events in Hreq, Hnote.
  assert (Hval : st' = closeModal (eval (updateStatus orderId "delivered" pa la st) w)).
  { unfold st', closeOrder. rewrite eval_bind, eval_bind. reflexivity. }
  rewrite Hval, updateStatus_value.
  split; [reflexivity|]. split; [reflexivity|].
  split; [now destruct (settle pa)|].
  split; [exact Hreq|]. split; [exact Hnote|].
  rewrite Hnote. destruct (settle pa); cbn; intros [H|[H|[]]]; discriminate.
Qed.

(** X15. Opening the details of an order sends one GET
    /orders/admin/<id>. An accepted answer opens the modal on the order
    of the answer, enveloped or not, and shows no notification; a
    rejected or unreadable one shows the error notification and leaves
    the page as it was. The table is never touched, and closing the
    modal afterwards gives the page that closing it before would have
    given. *)
Theorem openOrderDetails_outcomes
        (orderId : string) (answer : ServerAnswer) (st : State) (w : World) :
  let st' := eval (openOrderDetails orderId answer st) w in
  let events := events_of (openOrderDetails orderId answer st) w in
  requests_in events = [(GET, "/orders/admin/" +:+ orderId, JUndefined)] /\
  match Js.bind (settle answer) (fun response => unwrap (data response)) with
  | Ok orderData =>
      st' = mkState (orders st) (loading st) orderData true /\
      notifications_in events = []
  | Throw _ =>
      st' = st /\ notifications_in events = [("Failed to load order details", "error")]
  end /\
  orders st' = orders st /\
  closeModal st' = closeModal st.
Proof.
  intros st' events.
  assert (Hrep : reports (openOrderDetails orderId answer st) w
            [(GET, "/orders/admin/" +:+ orderId, JUndefined)]
            match Js.bind (settle answer) (fun response => unwrap (data response)) with
            | Ok _ => []
            | Throw _ => [("Failed to load order details", "error")]
            end).
  { unfold openOrderDetails, api_get.
    apply (reports_bind _ _ w [_] [] [] _); [apply reports_send|].
    rewrite send_eval.
    destruct (Js.bind (settle answer) _); [apply reports_ret | apply reports_failure]. }
  destruct (reports_events _ _ _ _ Hrep) as [Hreq Hnote].
  fold events in Hreq, Hnote.
  assert (Hval : st' = match Js.bind (settle answer) (fun response => unwrap (data response)) with
                       | Ok orderData => mkState (orders st) (loading st) orderData true
                       | Throw _ => st
                       end).
  { unfold st', openOrderDetails, api_get. rewrite eval_bind, send_eval.
    destruct (Js.bind (settle answer) _); [reflexivity|]. now rewrite !eval_bind. }
  split; [exact Hreq|]. rewrite Hval.
  destruct (Js.bind (settle answer) _); repeat split; assumption.
Qed.

End OrdersFurther.

(* ===================================================================== *)
(** * The Products page: the payload *)
(* ===================================================================== *)

Section Trimming.
Import JsString.

Lemma trimEnd_idem (s : string) : trimEnd (trimEnd s) = trimEnd s.
Proof.
  induction s as [|c s IH]; [reflexivity|].
  cbn [trimEnd]. destruct (trimEnd s) as [|d r] eqn:E.
  - destruct (is_space c) eqn:Hc; [reflexivity|]. cbn [trimEnd]. now rewrite Hc.
  - cbn [trimEnd] in *. now rewrite IH.
Qed.

Lemma trimEnd_head (c : ascii) (s : string) :
  is_space c = false -> exists t, trimEnd (String c s) = String c t.
Proof.
  intros Hc. cbn [trimEnd]. destruct (trimEnd s) as [|d r]; rewrite ?Hc; eauto.
Qed.

Lemma trimStart_head (s : string) :
  trimStart s = "" \/ exists c t, trimStart s = String c t /\ is_space c = false.
Proof.
  induction s as [|c s IH]; [now left|].
  cbn [trimStart]. destruct (is_space c) eqn:Hc; [exact IH|]. right. eauto.
Qed.

Lemma trim_idem (s : string) : trim (trim s) = trim s.
Proof.
  unfold trim. destruct (trimStart_head s) as [->|(c & t & -> & Hc)]; [reflexivity|].
  destruct (trimEnd_head c t Hc) as [t' Ht']. rewrite Ht'.
  cbn [trimStart]. rewrite Hc, <- Ht'. apply trimEnd_idem.
Qed.

Lemma all_chars_trimStart (p : ascii -> bool) (s : string) :
  all_chars p s = true -> all_chars p (trimStart s) = true.
Proof.
  induction s as [|c s IH]; [reflexivity|].
  cbn [all_chars trimStart]. intros H. pose proof H as H'.
  apply andb_prop in H as [_ Hs].
  destruct (is_space c); [now apply IH | exact H'].
Qed.

Lemma all_chars_trimEnd (p : ascii -> bool) (s : string) :
  all_chars p s = true -> all_chars p (trimEnd s) = true.
Proof.
  induction s as [|c s IH]; [reflexivity|].
  cbn [all_chars trimEnd]. intros H. apply andb_prop in H as [Hc Hs].
  specialize (IH Hs). destruct (trimEnd s) as [|d r].
  - destruct (is_space c); [reflexivity|]. cbn [all_chars]. now rewrite Hc.
  - cbn [all_chars] in *. now rewrite Hc, IH.
Qed.

Lemma all_chars_trim (p : ascii -> bool) (s : string) :
  all_chars p s = true -> all_chars p (trim s) = true.
Proof. intros H. now apply all_chars_trimEnd, all_chars_trimStart. Qed.

Lemma split_pieces (sep : ascii) (s : string) :
  forallb (all_chars (fun c => negb (Ascii.eqb c sep))) (split sep s) = true.
Proof.
  induction s as [|c s IH]; [reflexivity|].
  cbn [split]. destruct (Ascii.eqb c sep) eqn:Hc; [exact IH|].
  destruct (split sep s) as [|p ps]; cbn [forallb all_chars] in *; rewrite Hc; [reflexivity|].
  exact IH.
Qed.

End Trimming.

Section PayloadProperties.
Import JsString Js Browser Api Pages Products.

(** The entries that survive the normalisation of a variant list are
    clean. *)
Lemma trimmed_pieces_clean (s : string) :
  forallb clean_entry
    (List.filter (fun x => negb (is_empty x)) (map trim (split "," s))) = true.
Proof.
  pose proof (split_pieces "," s) as H.
  induction (split "," s) as [|p ps IH]; [reflexivity|].
  cbn [forallb] in H. apply andb_prop in H as [Hp Hps].
  cbn [map List.filter].
  destruct (negb (is_empty (trim p))) eqn:Hne; [|now apply IH].
  cbn [forallb]. rewrite (IH Hps), andb_true_r.
  unfold clean_entry. rewrite Hne, (all_chars_trim _ p Hp), trim_idem.
  now rewrite String.eqb_refl.
Qed.

Lemma filter_app_clean (a b : list string) :
  forallb clean_entry (List.filter (fun x => negb (is_empty x)) a) = true ->
  forallb clean_entry (List.filter (fun x => negb (is_empty x)) b) = true ->
  forallb clean_entry (List.filter (fun x => negb (is_empty x)) (a ++ b)) = true.
Proof. intros Ha Hb. rewrite List.filter_app, forallb_app. now rewrite Ha, Hb. Qed.

Lemma split_entries_strings (l : list string) :
  exists r, split_entries (map JStr l) = Ok r /\
            forallb clean_entry (List.filter (fun x => negb (is_empty x)) r) = true.
Proof.
  induction l as [|s l (r & Hr & Hclean)]; [now exists []|].
  exists (map trim (split "," s) ++ r). cbn [map split_entries]. rewrite Hr.
  split; [reflexivity|].
  rewrite List.filter_app, forallb_app, Hclean, andb_true_r.
  apply trimmed_pieces_clean.
Qed.

Lemma processed_strings (l : list string) :
  exists r, processed (map JStr l) = Ok r /\ forallb clean_entry r = true.
Proof.
  destruct (split_entries_strings l) as (r & Hr & Hclean).
  exists (List.filter (fun x => negb (is_empty x)) r).
  unfold processed. rewrite Hr. now split.
Qed.

(** X16. The normalisation of a variant list (cut every entry at the
    commas, trim the pieces, drop the empty ones) never fails on a list
    of strings; what it returns has only entries that are not empty,
    hold no comma and have no white space around them, and normalising
    the result again changes nothing. *)
Theorem processed_normalises (l : list string) :
  exists r, processed (map JStr l) = Ok r /\
            forallb clean_entry r = true /\
            processed (map JStr r) = Ok r.
Proof.
  destruct (processed_strings l) as (r & Hr & Hclean).
  exists r. split; [exact Hr|]. split; [exact Hclean|].
  now apply processed_clean.
Qed.

End PayloadProperties.

Section Buildable.
Import JsString Js Browser Api Pages Products.

Lemma split_entries_only_strings (l : list JsVal) (r : list string) :
  split_entries l = Ok r -> exists strs, l = map JStr strs.
Proof.
  revert r. induction l as [|v l IH]; intros r H; [now exists []|].
  destruct v; try discriminate. cbn [split_entries] in H.
  destruct (split_entries l) as [r'|e]; [|discriminate].
  destruct (IH r' eq_refl) as [strs ->]. now exists (s :: strs).
Qed.

Lemma non_blank_only_strings (l r : list JsVal) :
  non_blank l = Ok r -> exists strs, l = map JStr strs.
Proof.
  revert r. induction l as [|v l IH]; intros r H; [now exists []|].
  destruct v; try discriminate. cbn [non_blank] in H.
  destruct (non_blank l) as [r'|e]; [|discriminate].
  destruct (IH r' eq_refl) as [strs ->]. now exists (s :: strs).
Qed.

Lemma non_blank_strings (l : list string) :
  non_blank (map JStr l) = Ok (map JStr (List.filter not_blank l)).
Proof.
  induction l as [|s l IH]; [reflexivity|].
  cbn [map non_blank List.filter]. rewrite IH. cbn [Js.bind].
  unfold not_blank. now destruct (is_empty (trim s)).
Qed.

(** X17. The payload of the product form can be built exactly when the
    three variant lists and the image list of the form hold only
    strings. It then carries the slug derived from the name, the images
    whose text is not blank, in their order and untrimmed, and variant
    lists whose entries are clean. *)
Theorem payload_needs_strings (f : Form.t) :
  ((exists d, dataToSend f = Ok d) <->
   (exists cs ss vs imgs,
       colors (Form.variants f) = map JStr cs /\
       storage (Form.variants f) = map JStr ss /\
       versions (Form.variants f) = map JStr vs /\
       Form.images f = map JStr imgs)) /\
  (forall d imgs,
      dataToSend f = Ok d -> Form.images f = map JStr imgs ->
      Payload.slug d = Slug.generateSlug (Form.name f) /\
      Payload.images d = map JStr (List.filter not_blank imgs) /\
      forallb clean_entry (colors (Payload.variants d)) = true /\
      forallb clean_entry (storage (Payload.variants d)) = true /\
      forallb clean_entry (versions (Payload.variants d)) = true).
Proof.
  split; [split|].
  - intros [d H]. unfold dataToSend, processed in H.
    destruct (split_entries (colors _)) as [cs|e] eqn:Hc; [|discriminate].
    destruct (split_entries (storage _)) as [ss|e] eqn:Hs; [|discriminate].
    destruct (split_entries (versions _)) as [vs|e] eqn:Hv; [|discriminate].
    cbn [Js.bind] in H.
    destruct (non_blank (Form.images f)) as [imgs|e] eqn:Hi; [|discriminate].
    destruct (split_entries_only_strings _ _ Hc) as [cs' Hcs].
    destruct (split_entries_only_strings _ _ Hs) as [ss' Hss].
    destruct (split_entries_only_strings _ _ Hv) as [vs' Hvs].
    destruct (non_blank_only_strings _ _ Hi) as [imgs' Himgs].
    now exists cs', ss', vs', imgs'.
  - intros (cs & ss & vs & imgs & Hc & Hs & Hv & Hi).
    destruct (processed_strings cs) as (cs' & Hcs & _).
    destruct (processed_strings ss) as (ss' & Hss & _).
    destruct (processed_strings vs) as (vs' & Hvs & _).
    unfold dataToSend. rewrite Hc, Hs, Hv, Hi, Hcs, Hss, Hvs, non_blank_strings.
    cbn [Js.bind]. eauto.
  - intros d imgs H Hi. unfold dataToSend in H.
    destruct (processed (colors _)) as [cs|e] eqn:Hc; [|discriminate].
    destruct (processed (storage _)) as [ss|e] eqn:Hs; [|discriminate].
    destruct (processed (versions _)) as [vs|e] eqn:Hv; [|discriminate].
    cbn [Js.bind] in H. rewrite Hi, non_blank_strings in H. cbn [Js.bind] in H.
    injection H as <-. cbn.
    assert (Hclean : forall l r, processed l = Ok r -> forallb clean_entry r = true).
    { intros l r Hl. unfold processed in Hl.
      destruct (split_entries l) as [r'|e] eqn:Hr'; [|discriminate].
      destruct (split_entries_only_strings _ _ Hr') as [strs ->].
      destruct (split_entries_strings strs) as (r2 & Hr2 & Hc2).
      rewrite Hr2 in Hr'. injection Hr' as <-. cbn [Js.bind] in Hl.
      now injection Hl as <-. }
    repeat split; eauto.
Qed.

Lemma payload_needs_strings_witness :
  exists d, dataToSend empty_form = Ok d.
Proof.
  apply (proj1 (payload_needs_strings empty_form)).
  exists [], [], [], [""]. repeat split; reflexivity.
Defined.

End Buildable.

Section ProductsSubmit.
Import JsString Js Browser Api Pages Products.

Lemma fetchProducts_value (answer : ServerAnswer) (st : State) (w : World) :
  eval (fetchProducts answer st) w =
  mkState (match collection_of (settle answer) with Ok l => l | Throw _ => [] end)
          (categories st) false (showModal st) (editingProduct st)
          (saving st) (uploadingImages st) (formData st).
Proof.
  unfold fetchProducts.
  rewrite (eval_bind_ret _ (fun l => mkState l (categories st) false (showModal st)
                                             (editingProduct st) (saving st)
                                             (uploadingImages st) (formData st))).
  now rewrite load_list_value.
Qed.

Lemma reports_fetchProducts (answer : ServerAnswer) (st : State) (w : World) :
  reports (fetchProducts answer st) w [(GET, "/products", JUndefined)] [].
Proof.
  unfold fetchProducts.
  apply (reports_bind _ _ w [_] [] [] []); [apply reports_load_list | apply reports_ret].
Qed.



End ProductsSubmit.

(* ===================================================================== *)
(** * The Products page: image fields, upload checks, specifications *)
(* ===================================================================== *)

Section ImageFields.
Import JsString Js Browser Api Pages Products.

Lemma array_set_lookup (index : nat) (value : JsVal) (l : list JsVal) :
  index < length l ->
  array_set index value l !! index = Some value /\
  length (array_set index value l) = length l /\
  forall j, j <> index -> array_set index value l !! j = l !! j.
Proof.
  revert index. induction l as [|x l IH]; intros index H; [cbn in H; lia|].
  destruct index as [|i]; cbn [array_set].
  - split; [reflexivity|]. split; [reflexivity|]. intros [|j] Hj; [lia | reflexivity].
  - cbn [length] in H. destruct (IH i ltac:(lia)) as (H1 & H2 & H3).
    split; [exact H1|]. split; [cbn [length]; now rewrite H2|].
    intros [|j] Hj; [reflexivity|]. cbn. apply H3. lia.
Qed.

Lemma remove_at_last {A : Type} (l : list A) (x : A) :
  remove_at (length l) (l ++ [x]) = l.
Proof. induction l as [|y l IH]; [reflexivity|]. cbn. now rewrite IH. Qed.

Lemma remove_at_beyond {A : Type} (index : nat) (l : list A) :
  length l <= index -> remove_at index l = l.
Proof.
  revert index. induction l as [|y l IH]; intros index H; [now destruct index|].
  destruct index as [|i]; cbn in H |- *; [lia|]. rewrite IH; [reflexivity | lia].
Qed.

Lemma remove_at_length {A : Type} (index : nat) (l : list A) :
  index < length l -> length (remove_at index l) = length l - 1.
Proof.
  revert index. induction l as [|y l IH]; intros index H; [cbn in H; lia|].
  destruct index as [|i]; cbn in H |- *; [lia|]. rewrite IH; lia.
Qed.

Lemma remove_at_lookup {A : Type} (index j : nat) (l : list A) :
  remove_at index l !! j = if Nat.ltb j index then l !! j else l !! S j.
Proof.
  revert index j. induction l as [|y l IH]; intros index j.
  - destruct index; cbn [remove_at]; rewrite !lookup_nil; now destruct (Nat.ltb j _).
  - destruct index as [|i]; [reflexivity|].
    destruct j as [|j]; [reflexivity|]. cbn [remove_at]. cbn. apply IH.
Qed.

(** X19. On the image fields of the product form: typing into field
    [index] changes that field alone and keeps the number of fields;
    removing field [index] shifts the later fields up by one and leaves
    one empty field when it was the only one; adding a field and
    removing it again gives the fields back. *)
Theorem image_fields_edit (f : Form.t) (index : nat) (value : string) :
  index < length (Form.images f) ->
  let imgs := Form.images f in
  let updated := Form.images (updateImageField index value f) in
  let removed := Form.images (removeImageField index f) in
  updated !! index = Some (JStr value) /\
  length updated = length imgs /\
  (forall j, j <> index -> updated !! j = imgs !! j) /\
  (length imgs = 1 -> removed = [JStr ""]) /\
  (1 < length imgs ->
   length removed = length imgs - 1 /\
   forall j, removed !! j = if Nat.ltb j index then imgs !! j else imgs !! S j) /\
  Form.images (removeImageField (length imgs) (addImageField f)) = imgs.
Proof.
  intros Hindex imgs updated removed.
  destruct (array_set_lookup index (JStr value) imgs Hindex) as (H1 & H2 & H3).
  split; [exact H1|]. split; [exact H2|]. split; [exact H3|].
  unfold removed, removeImageField. cbn. fold imgs.
  pose proof (remove_at_length index imgs Hindex) as Hlen.
  split; [|split].
  - intros Hone. destruct (remove_at index imgs) as [|y r]; [reflexivity|].
    cbn [length] in Hlen. lia.
  - intros Hmore. destruct (remove_at index imgs) as [|y r] eqn:E.
    + cbn [length] in Hlen. lia.
    + split; [exact Hlen|]. intros j. rewrite <- E. apply remove_at_lookup.
  - rewrite remove_at_last.
    assert (Hne : imgs <> [])
      by (intros E; unfold imgs in E; rewrite E in Hindex; cbn in Hindex; lia).
    revert Hne. generalize imgs. intros [|y r] Hne; [contradiction | reflexivity].
Qed.

Lemma image_fields_edit_witness :
  Form.images (updateImageField 0 "a.png" empty_form) = [JStr "a.png"] /\
  Form.images (removeImageField 0 empty_form) = [JStr ""].
Proof.
  destruct (image_fields_edit empty_form 0 "a.png") as (_ & _ & _ & Hone & _);
    [cbn; lia|].
  split; [reflexivity | exact (Hone eq_refl)].
Defined.

End ImageFields.

Section UploadChecks.
Import JsString Js Browser Api Pages Products.

(** The loop stops at the first file that fails a check, with the
    message of the check that it fails: the type is checked before the
    size. *)
Lemma first_refusal_cases (files : list File) :
  let acceptable file :=
    startsWith (file_type file) "image/" && (file_size file <=? max_image_size)%Z in
  match first_refusal files with
  | None => forallb acceptable files = true
  | Some message =>
      forallb acceptable files = false /\
      exists passed offending rest,
        files = passed ++ offending :: rest /\
        forallb acceptable passed = true /\
        acceptable offending = false /\
        message = if startsWith (file_type offending) "image/"
                  then "Image size must be less than 5MB"
                  else "Please select only image files"
  end.
Proof.
  cbv zeta. induction files as [|file files IH]; [reflexivity|].
  cbn [first_refusal forallb].
  destruct (startsWith (file_type file) "image/") eqn:Htype; cbn [negb andb].
  - destruct (file_size file >? max_image_size)%Z eqn:Hsize.
    + replace (file_size file <=? max_image_size)%Z with false by lia.
      split; [reflexivity|]. exists [], file, files.
      rewrite Htype. replace (file_size file <=? max_image_size)%Z with false by lia.
      now repeat split.
    + replace (file_size file <=? max_image_size)%Z with true by lia.
      destruct (first_refusal files) as [message|]; [|exact IH].
      destruct IH as (Hall & passed & offending & rest & -> & Hpassed & Hbad & ->).
      split; [exact Hall|]. exists (file :: passed), offending, rest.
      cbn [forallb app]. rewrite Htype, Hpassed.
      replace (file_size file <=? max_image_size)%Z with true by lia.
      now repeat split.
  - split; [reflexivity|]. exists [], file, files. rewrite Htype. now repeat split.
Qed.

Lemma reports_handleImageUpload (files : JsVal) (answer : ServerAnswer)
      (st : State) (w : World) :
  reports (handleImageUpload files answer st) w [(POST, "/products/images", files)]
    [match Js.bind (settle answer) (fun response =>
           Js.bind (uploaded_images (data response)) spread_elements) with
     | Ok uploadedImages =>
         (number_toString (Z.of_nat (List.length uploadedImages))
            +:+ " image(s) uploaded successfully", "success")
     | Throw _ => ("Failed to upload images", "error")
     end].
Proof.
  unfold handleImageUpload.
  apply (reports_bind _ _ w [_] [] [] [_]);
    [apply (reports_send (mkRequest POST "/products/images" _ files))|].
  rewrite send_eval.
  destruct (Js.bind (settle answer) _) as [uploaded|e].
  - apply (reports_bind _ _ _ [] [] [_] []); [apply reports_notified | apply reports_ret].
  - apply reports_failure.
Qed.

(** X20. The file input of the product form sends the upload only when
    every selected file has a MIME type that starts with image/ and a
    size of at most 5MB: then exactly one POST /products/images carries
    all files. Otherwise nothing is sent, the page stays as it was, and
    the one error notification is that of the first file that fails a
    check: "Please select only image files" when it is no image,
    "Image size must be less than 5MB" when it is an image that is too
    large. With no file selected nothing happens at all. *)
Theorem onImageInput_checks (selected : list File) (answer : ServerAnswer)
        (st : State) (w : World) :
  selected <> [] ->
  let acceptable file :=
    startsWith (file_type file) "image/" && (file_size file <=? max_image_size)%Z in
  let st' := eval (onImageInput (Some selected) answer st) w in
  let events := events_of (onImageInput (Some selected) answer st) w in
  (if forallb acceptable selected
   then requests_in events = [(POST, "/products/images", JArr (map file_json selected))]
   else requests_in events = [] /\ st' = st /\
        exists passed offending rest,
          selected = passed ++ offending :: rest /\
          forallb acceptable passed = true /\
          acceptable offending = false /\
          notifications_in events =
            [(if startsWith (file_type offending) "image/"
              then "Image size must be less than 5MB"
              else "Please select only image files", "error")]) /\
  events_of (onImageInput None answer st) w = [] /\
  events_of (onImageInput (Some []) answer st) w = [] /\
  eval (onImageInput None answer st) w = st /\
  eval (onImageInput (Some []) answer st) w = st.
Proof.
  intros Hne acceptable st' events.
  split.
  - pose proof (first_refusal_cases selected) as Hcases. cbv zeta in Hcases.
    fold acceptable in Hcases.
    unfold st', events, onImageInput.
    destruct selected as [|file rest]; [contradiction|].
    destruct (first_refusal (file :: rest)) as [message|].
    + destruct Hcases as (Hacc & passed & offending & rest' & Hsplit & Hpassed & Hbad & Hmsg).
      rewrite Hacc.
      assert (Hrep : reports (Browser.bind (emit (Notified message "error"))
                                (fun _ => ret st)) w [] [(message, "error")]).
      { apply (reports_bind _ _ w [] [] [_] []); [apply reports_notified | apply reports_ret]. }
      destruct (reports_events _ _ _ _ Hrep) as [Hreq Hnote].
      split; [exact Hreq|]. split; [now rewrite eval_bind|].
      exists passed, offending, rest'. rewrite Hnote, Hmsg. now repeat split.
    + rewrite Hcases.
      exact (proj1 (reports_events _ _ _ _
               (reports_handleImageUpload (JArr (map file_json (file :: rest))) answer st w))).
  - repeat split; apply events_of_logged; cbn; now rewrite app_nil_r.
Qed.

Lemma onImageInput_checks_witness :
  let selected := [mkFile "image/png" 10; mkFile "image/png" 6000000;
                   mkFile "text/plain" 10] in
  requests_in (events_of (onImageInput (Some selected) NoResponse initial)
                         Samples.signed_in) = [] /\
  notifications_in (events_of (onImageInput (Some selected) NoResponse initial)
                              Samples.signed_in)
    = [("Image size must be less than 5MB", "error")].
Proof.
  cbv zeta.
  destruct (onImageInput_checks
              [mkFile "image/png" 10; mkFile "image/png" 6000000; mkFile "text/plain" 10]
              NoResponse initial Samples.signed_in)
    as [H _]; [discriminate|].
  cbv zeta in H.
  match type of H with
  | if ?b then _ else _ => assert (E : b = false) by reflexivity; rewrite E in H
  end.
  destruct H as (Hreq & _ & _). split; [exact Hreq | reflexivity].
Defined.

End UploadChecks.

Section Upload.
Import JsString Js Browser Api Pages Products.

(** X21. An accepted upload whose answer lists the uploaded images,
    under data.images or under images, drops the image fields of the
    form that are empty, keeps the others in their order and appends the
    uploaded images; the notification counts the uploaded images. A
    rejected upload leaves the form as it was. In both cases one POST
    /products/images is sent and the uploading state ends. *)
Theorem upload_appends_to_filled_fields
        (files : JsVal) (status : Z) (body : JsVal) (imgs : list JsVal)
        (rejected : ServerAnswer) (e : JsError) (st : State) (w : World) :
  (200 <= status < 300)%Z ->
  uploaded_images body = Ok (JArr imgs) ->
  settle rejected = Throw e ->
  let accepted := handleImageUpload files (Reply status body) st in
  let failed := handleImageUpload files rejected st in
  Form.images (formData (eval accepted w)) =
    List.filter (fun img => negb (is_empty_string img)) (Form.images (formData st)) ++ imgs /\
  uploadingImages (eval accepted w) = false /\
  notifications_in (events_of accepted w) =
    [(number_toString (Z.of_nat (length imgs)) +:+ " image(s) uploaded successfully",
      "success")] /\
  requests_in (events_of accepted w) = [(POST, "/products/images", files)] /\
  eval failed w = with_uploading st false /\
  notifications_in (events_of failed w) = [("Failed to upload images", "error")] /\
  requests_in (events_of failed w) = [(POST, "/products/images", files)] /\
  uploaded_images (JObj [("data", JObj [("images", JArr imgs)])]) = Ok (JArr imgs) /\
  uploaded_images (JObj [("images", JArr imgs)]) = Ok (JArr imgs).
Proof.
  intros Hstatus Hbody Hrejected accepted failed.
  assert (Hsettle : settle (Reply status body) = Ok (mkResponse status body)).
  { cbn. replace (200 <=? status)%Z with true by lia.
    now replace (status <? 300)%Z with true by lia. }
  destruct (reports_events _ _ _ _
              (reports_handleImageUpload files (Reply status body) st w)) as [Hreq Hnote].
  destruct (reports_events _ _ _ _
              (reports_handleImageUpload files rejected st w)) as [Hreq' Hnote'].
  rewrite Hsettle in Hnote. cbn [Js.bind data] in Hnote.
  rewrite Hbody in Hnote. cbn [Js.bind spread_elements] in Hnote.
  rewrite Hrejected in Hnote'. cbn [Js.bind] in Hnote'.
  assert (Hacc : eval accepted w =
            with_uploading
              (with_form st (with_images (formData st)
                 (List.filter (fun img => negb (is_empty_string img))
                              (Form.images (formData st)) ++ imgs))) false).
  { unfold accepted, handleImageUpload. rewrite eval_bind, send_eval, Hsettle.
    cbn [Js.bind data]. rewrite Hbody. cbn [Js.bind spread_elements].
    now rewrite eval_bind. }
  assert (Hfail : eval failed w = with_uploading st false).
  { unfold failed, handleImageUpload. rewrite eval_bind, send_eval, Hrejected.
    cbn [Js.bind]. now rewrite !eval_bind. }
  rewrite Hacc. repeat split; assumption.
Qed.

Lemma upload_appends_to_filled_fields_witness :
  Form.images (formData (eval (handleImageUpload (JArr []) 
     (Reply 201 (JObj [("images", JArr [JStr "/uploads/a.png"])])) initial) Samples.signed_in))
  = [JStr "/uploads/a.png"].
Proof.
  exact (proj1 (upload_appends_to_filled_fields (JArr []) 201
           (JObj [("images", JArr [JStr "/uploads/a.png"])]) [JStr "/uploads/a.png"]
           NoResponse (AxiosError None) initial Samples.signed_in
           ltac:(lia) eq_refl eq_refl)).
Defined.

End Upload.

Section SpecRows.
Import JsString Js Browser Api Pages Products.

Lemma lookup_remove_field (k k' : string) (fields : list (string * JsVal)) :
  lookup_field k' (remove_field k fields) =
  if String.eqb k' k then None else lookup_field k' fields.
Proof.
  unfold remove_field. induction fields as [|[k0 v0] fields IH]; cbn.
  - now destruct (String.eqb k' k).
  - destruct (String.eqb k k0) eqn:E0; cbn.
    + apply String.eqb_eq in E0. subst k0. rewrite IH.
      now destruct (String.eqb k' k).
    + destruct (String.eqb k' k0) eqn:E1; [|exact IH].
      apply String.eqb_eq in E1. subst k0.
      rewrite String.eqb_sym in E0. now rewrite E0.
Qed.

Lemma assign_field_plain (k : string) (x : JsVal) (fields : list (string * JsVal)) :
  k <> "__proto__" \/ lookup_field k fields <> None ->
  assign_field k x fields = set_field k x fields.
Proof.
  unfold assign_field. intros H.
  destruct (lookup_field k fields); [reflexivity|].
  destruct H as [H|H]; [|contradiction].
  apply String.eqb_neq in H. now rewrite H.
Qed.

Lemma assign_field_proto (x : JsVal) (fields : list (string * JsVal)) :
  lookup_field "__proto__" fields = None ->
  assign_field "__proto__" x fields = fields.
Proof. unfold assign_field. now intros ->. Qed.

Lemma lookup_assign_field_other (k k' : string) (x : JsVal)
      (fields : list (string * JsVal)) :
  k' <> k -> lookup_field k' (assign_field k x fields) = lookup_field k' fields.
Proof.
  intros Hne. apply String.eqb_neq in Hne. unfold assign_field.
  destruct (lookup_field k fields); [now rewrite lookup_set_field, Hne|].
  destruct (String.eqb k "__proto__"); [reflexivity|].
  now rewrite lookup_set_field, Hne.
Qed.

(** X22. On the rows of the specifications that the form shows, for a
    form whose specifications are an object with a row [key]: renaming
    the row to [name] makes [name] show the value of the row, also when
    another row was called [name] (whose value is lost), removes [key]
    unless it is [name], and keeps every other row; but renaming it to
    __proto__, when no row has that name, loses the row, since that
    assignment creates no property. Typing a value into the row changes
    that row alone; removing the row keeps the others; adding a row
    creates spec_<clock> with the empty text and keeps the others. *)
Theorem spec_rows_edit (f : Form.t) (fields : list (string * JsVal))
        (key name text : string) (value : JsVal) (date_now : Z) :
  Form.specs f = JObj fields ->
  lookup_field key fields = Some value ->
  safe_integer date_now = true ->
  let row (g : Form.t) (k : string) := lookup_field k (spec_rows g) in
  (name <> "__proto__" -> row (renameSpec key name f) name = Some value) /\
  (name <> key -> row (renameSpec key name f) key = None) /\
  (forall k, k <> key -> k <> name -> row (renameSpec key name f) k = row f k) /\
  (lookup_field "__proto__" fields = None ->
   forall k, row (renameSpec key "__proto__" f) k
             = if String.eqb k key then None else row f k) /\
  row (updateSpec key text f) key = Some (JStr text) /\
  (forall k, k <> key -> row (updateSpec key text f) k = row f k) /\
  row (removeSpec key f) key = None /\
  (forall k, k <> key -> row (removeSpec key f) k = row f k) /\
  row (addSpec date_now f) ("spec_" +:+ number_toString date_now) = Some (JStr "") /\
  (forall k, k <> "spec_" +:+ number_toString date_now ->
             row (addSpec date_now f) k = row f k).
Proof.
  intros Hspecs Hrow _ row.
  unfold row, spec_rows, renameSpec, updateSpec, removeSpec, addSpec.
  cbn [Form.specs with_specs]. rewrite Hspecs. cbn [own_fields].
  rewrite Hrow. cbn [default].
  assert (Hneq : forall a b : string, a <> b -> String.eqb a b = false)
    by (intros a b; apply String.eqb_neq).
  split; [|split; [|split; [|split; [|split; [|split; [|split; [|split; [|split]]]]]]]].
  - intros Hname. rewrite assign_field_plain by now left.
    now rewrite lookup_set_field, String.eqb_refl.
  - intros Hne. rewrite lookup_assign_field_other by congruence.
    now rewrite lookup_remove_field, String.eqb_refl.
  - intros k Hk Hn. rewrite lookup_assign_field_other by exact Hn.
    now rewrite lookup_remove_field, (Hneq k key Hk).
  - intros Hproto k. rewrite assign_field_proto.
    + apply lookup_remove_field.
    + rewrite lookup_remove_field, Hproto. now destruct (String.eqb "__proto__" key).
  - rewrite assign_field_plain by (right; rewrite Hrow; discriminate).
    now rewrite lookup_set_field, String.eqb_refl.
  - intros k Hk. now apply lookup_assign_field_other.
  - now rewrite lookup_remove_field, String.eqb_refl.
  - intros k Hk. now rewrite lookup_remove_field, (Hneq k key Hk).
  - rewrite assign_field_plain by (left; discriminate).
    now rewrite lookup_set_field, String.eqb_refl.
  - intros k Hk. now apply lookup_assign_field_other.
Qed.

Lemma spec_rows_edit_witness :
  let f := with_specs empty_form (JObj [("Display", JStr "6.1"); ("Chip", JStr "A17")]) in
  lookup_field "Chip" (spec_rows (renameSpec "Display" "Chip" f)) = Some (JStr "6.1") /\
  lookup_field "Display" (spec_rows (renameSpec "Display" "Chip" f)) = None /\
  spec_rows (renameSpec "Display" "__proto__" f) = [("Chip", JStr "A17")].
Proof.
  cbv zeta.
  destruct (spec_rows_edit
              (with_specs empty_form (JObj [("Display", JStr "6.1"); ("Chip", JStr "A17")]))
              [("Display", JStr "6.1"); ("Chip", JStr "A17")]
              "Display" "Chip" "" (JStr "6.1") 0 eq_refl eq_refl eq_refl)
    as (Hname & Hkey & _).
  split; [apply Hname; discriminate|]. split; [apply Hkey; discriminate | reflexivity].
Defined.

End SpecRows.

(* ===================================================================== *)
(** * Deleting a product, a category, an About Us section *)
(* ===================================================================== *)

Section Deleting.
Import JsString Js Browser Api Pages.

Lemma list_fetch_value (url label : string) (answer : ServerAnswer) (w : World) :
  eval (Browser.bind (load_list url label answer) (fun l => ret (mkListState l false))) w =
  mkListState (match collection_of (settle answer) with Ok l => l | Throw _ => [] end) false.
Proof.
  rewrite (eval_bind_ret _ (fun l => mkListState l false)). now rewrite load_list_value.
Qed.

Lemma reports_list_fetch (url label : string) (answer : ServerAnswer) (w : World) :
  reports (Browser.bind (load_list url label answer) (fun l => ret (mkListState l false)))
          w [(GET, url, JUndefined)] [].
Proof.
  apply (reports_bind _ _ w [_] [] [] []); [apply reports_load_list | apply reports_ret].
Qed.

Lemma reports_nothing {A : Type} (a : A) (w : World) : events_of (ret a) w = [].
Proof. apply events_of_logged. cbn. now rewrite app_nil_r. Qed.

(** X23. On the Products, Categories and About Us pages a delete that is
    not confirmed sends nothing, shows nothing and leaves the page as it
    was. A confirmed one sends one DELETE to the address of the item;
    only when it is accepted is the list fetched again and replaced by
    the answer (the empty list when that fetch fails), with the success
    notification; a rejected delete shows the failure notification and
    leaves the page as it was. *)
Theorem delete_flows (da la : ServerAnswer) (w : World) :
  let fetched := match collection_of (settle la) with Ok l => l | Throw _ => [] end in
  (forall (id : string) (st : Products.State),
      let run confirmed := Products.handleDelete id confirmed da la st in
      events_of (run false) w = [] /\ eval (run false) w = st /\
      requests_in (events_of (run true) w) =
        (DELETE, "/products/" +:+ id, JUndefined)
        :: match settle da with Ok _ => [(GET, "/products", JUndefined)] | Throw _ => [] end /\
      notifications_in (events_of (run true) w) =
        [match settle da with
         | Ok _ => ("Product deleted successfully", "success")
         | Throw _ => ("Failed to delete product", "error")
         end] /\
      eval (run true) w =
        match settle da with
        | Ok _ => Products.mkState fetched (Products.categories st) false
                    (Products.showModal st) (Products.editingProduct st)
                    (Products.saving st) (Products.uploadingImages st)
                    (Products.formData st)
        | Throw _ => st
        end) /\
  (forall (category : Categories.Category.t) (st : Categories.State),
      let run confirmed := Categories.handleDelete category confirmed da la st in
      events_of (run false) w = [] /\ eval (run false) w = st /\
      requests_in (events_of (run true) w) =
        (DELETE, "/categories/" +:+ Categories.Category.id category, JUndefined)
        :: match settle da with Ok _ => [(GET, "/categories", JUndefined)] | Throw _ => [] end /\
      notifications_in (events_of (run true) w) =
        [match settle da with
         | Ok _ => ("Category deleted successfully", "success")
         | Throw _ => ("Failed to delete category", "error")
         end] /\
      eval (run true) w =
        match settle da with
        | Ok _ => Categories.with_list st (mkListState fetched false)
        | Throw _ => st
        end) /\
  (forall (key : string) (st : AboutUs.State),
      let run confirmed := AboutUs.handleDelete key confirmed da la st in
      events_of (run false) w = [] /\ eval (run false) w = st /\
      requests_in (events_of (run true) w) =
        (DELETE, "/settings/about-us/" +:+ key, JUndefined)
        :: match settle da with
           | Ok _ => [(GET, "/settings/about-us", JUndefined)]
           | Throw _ => []
           end /\
      notifications_in (events_of (run true) w) =
        [match settle da with
         | Ok _ => ("About Us section deleted successfully", "success")
         | Throw _ => ("Failed to delete About Us section", "error")
         end] /\
      eval (run true) w =
        match settle da with
        | Ok _ => AboutUs.with_list st (mkListState fetched false)
        | Throw _ => st
        end).
Proof.
  intros fetched. split; [|split].
  - intros id st run.
    split; [apply reports_nothing|]. split; [reflexivity|].
    assert (Hrep : reports (run true) w
              ((DELETE, "/products/" +:+ id, JUndefined)
               :: match settle da with Ok _ => [(GET, "/products", JUndefined)] | Throw _ => [] end)
              [match settle da with
               | Ok _ => ("Product deleted successfully", "success")
               | Throw _ => ("Failed to delete product", "error")
               end]).
    { unfold run, Products.handleDelete, api_delete. cbn [negb].
      apply (reports_bind _ _ w [_] _ [] [_]); [apply reports_send|].
      rewrite send_eval. destruct (settle da).
      - apply (reports_bind _ _ _ [] [_] [_] []); [apply reports_notified|].
        apply reports_fetchProducts.
      - apply reports_failure. }
    destruct (reports_events _ _ _ _ Hrep) as [Hreq Hnote].
    split; [exact Hreq|]. split; [exact Hnote|].
    unfold run, Products.handleDelete, api_delete. cbn [negb].
    rewrite eval_bind, send_eval. destruct (settle da).
    + rewrite eval_bind. apply fetchProducts_value.
    + now rewrite !eval_bind.
  - intros category st run.
    split; [apply reports_nothing|]. split; [reflexivity|].
    assert (Hrep : reports (run true) w
              ((DELETE, "/categories/" +:+ Categories.Category.id category, JUndefined)
               :: match settle da with Ok _ => [(GET, "/categories", JUndefined)] | Throw _ => [] end)
              [match settle da with
               | Ok _ => ("Category deleted successfully", "success")
               | Throw _ => ("Failed to delete category", "error")
               end]).
    { unfold run, Categories.handleDelete, api_delete. cbn [negb].
      apply (reports_bind _ _ w [_] _ [] [_]); [apply reports_send|].
      rewrite send_eval. destruct (settle da).
      - apply (reports_bind _ _ _ [] [_] [_] []); [apply reports_notified|].
        apply (reports_bind _ _ _ [_] [] [] []); [apply reports_list_fetch | apply reports_ret].
      - apply reports_failure. }
    destruct (reports_events _ _ _ _ Hrep) as [Hreq Hnote].
    split; [exact Hreq|]. split; [exact Hnote|].
    unfold run, Categories.handleDelete, api_delete. cbn [negb].
    rewrite eval_bind, send_eval. destruct (settle da).
    + rewrite eval_bind, eval_bind. unfold fetchCategories. now rewrite list_fetch_value.
    + now rewrite !eval_bind.
  - intros key st run.
    split; [apply reports_nothing|]. split; [reflexivity|].
    assert (Hrep : reports (run true) w
              ((DELETE, "/settings/about-us/" +:+ key, JUndefined)
               :: match settle da with
                  | Ok _ => [(GET, "/settings/about-us", JUndefined)]
                  | Throw _ => []
                  end)
              [match settle da with
               | Ok _ => ("About Us section deleted successfully", "success")
               | Throw _ => ("Failed to delete About Us section", "error")
               end]).
    { unfold run, AboutUs.handleDelete, api_delete. cbn [negb].
      apply (reports_bind _ _ w [_] _ [] [_]); [apply reports_send|].
      rewrite send_eval. destruct (settle da).
      - apply (reports_bind _ _ _ [] [_] [_] []); [apply reports_notified|].
        apply (reports_bind _ _ _ [_] [] [] []); [apply reports_list_fetch | apply reports_ret].
      - apply reports_failure. }
    destruct (reports_events _ _ _ _ Hrep) as [Hreq Hnote].
    split; [exact Hreq|]. split; [exact Hnote|].
    unfold run, AboutUs.handleDelete, api_delete. cbn [negb].
    rewrite eval_bind, send_eval. destruct (settle da).
    + rewrite eval_bind, eval_bind. unfold fetchAboutUs. now rewrite list_fetch_value.
    + now rewrite !eval_bind.
Qed.

End Deleting.

(* ===================================================================== *)
(** * The Categories page *)
(* ===================================================================== *)

Section CategoriesFurther.
Import JsString Js Browser Api Pages.
Import Categories.

(** X24. Opening a category for editing and submitting the form
    unchanged sends its name and description, the slug derived from its
    name whatever slug the record had, its image address unless that is
    empty, and its translations when the record has all three; a
    language that the record lacks is filled with name and description
    of the category. *)
Theorem category_edit_roundtrip (category : Category.t) :
  let d := dataToSend (edit_form category) in
  let fallback := Products.translation (Category.name category)
                                       (Category.description category) in
  Payload.name d = Category.name category /\
  Payload.description d = Category.description category /\
  Payload.slug d = Slug.generateSlug (Category.name category) /\
  Payload.imageUrl d = match Category.imageUrl category with
                       | Some url => if is_empty url then None else Some url
                       | None => None
                       end /\
  match Category.translations category with
  | Some t =>
      Products.en (Payload.translations d) = or_else (Products.en t) fallback /\
      Products.ru (Payload.translations d) = or_else (Products.ru t) fallback /\
      Products.ar (Payload.translations d) = or_else (Products.ar t) fallback /\
      (truthy (Products.en t) && truthy (Products.ru t) && truthy (Products.ar t) = true ->
       Payload.translations d = t)
  | None =>
      Payload.translations d = Products.mkTranslations fallback fallback fallback
  end.
Proof.
  destruct category as [id name description slug imageUrl translations].
  cbn. repeat split.
  - now destruct imageUrl.
  - destruct translations as [[en ru ar]|]; [|reflexivity].
    cbn. repeat split. intros H.
    apply andb_prop in H as [H Har]. apply andb_prop in H as [Hen Hru].
    unfold or_else. now rewrite Hen, Hru, Har.
Qed.

Lemma category_edit_roundtrip_witness :
  let phones := Category.mk "c1" "Smart Phones" "All phones" "phones" (Some "")
                  (Some (Products.mkTranslations (JObj []) (JObj []) (JObj []))) in
  Payload.slug (dataToSend (edit_form phones)) = "smart-phones" /\
  Payload.imageUrl (dataToSend (edit_form phones)) = None /\
  Payload.translations (dataToSend (edit_form phones))
    = Products.mkTranslations (JObj []) (JObj []) (JObj []).
Proof.
  cbv zeta.
  destruct (category_edit_roundtrip
              (Category.mk "c1" "Smart Phones" "All phones" "phones" (Some "")
                 (Some (Products.mkTranslations (JObj []) (JObj []) (JObj [])))))
    as (_ & _ & Hslug & Hurl & _ & _ & _ & Htr).
  split; [rewrite Hslug; vm_compute; reflexivity|].
  split; [exact Hurl | exact (Htr eq_refl)].
Defined.

(** X25. Submitting the category form sends exactly one save request
    with the payload of the form: a PATCH to /categories/<id> for a
    category under edit, a POST to /categories for a new one. When it is
    accepted the list is fetched again, the modal is closed and the form
    is reset to the empty form; when it is rejected nothing is fetched
    and the modal stays open on the form as it was. The saving state
    ends in both cases. *)
Theorem category_submit_outcomes (sa la : ServerAnswer) (st : State) (w : World) :
  let st' := eval (handleSubmit sa la st) w in
  let events := events_of (handleSubmit sa la st) w in
  let d := payload_json (dataToSend (formData st)) in
  let request :=
    match editingCategory st with
    | Some c => (PATCH, "/categories/" +:+ Category.id c, d)
    | None => (POST, "/categories", d)
    end in
  saving st' = false /\
  match settle sa with
  | Ok _ =>
      requests_in events = [request; (GET, "/categories", JUndefined)] /\
      st' = mkState (mkListState
                       (match collection_of (settle la) with Ok l => l | Throw _ => [] end)
                       false)
                    false None empty_form false /\
      notifications_in events =
        [(match editingCategory st with
          | Some _ => "Category updated successfully"
          | None => "Category created successfully"
          end, "success")]
  | Throw _ =>
      requests_in events = [request] /\
      st' = with_saving st false /\
      notifications_in events =
        [(match editingCategory st with
          | Some _ => "Failed to update category"
          | None => "Failed to create category"
          end, "error")]
  end.
Proof.
  intros st' events d request.
  set (save := match editingCategory st with
               | Some c => api_patch ("/categories/" +:+ Category.id c) d sa
               | None => api_post "/categories" d sa
               end).
  assert (Hsave : reports save w [request] [] /\ eval save w = settle sa).
  { unfold save, request, api_patch, api_post.
    destruct (editingCategory st) as [c|]; split;
      try apply send_eval; apply reports_send. }
  destruct Hsave as [Hsave Hr].
  assert (Hrep : reports (handleSubmit sa la st) w
            (request :: match settle sa with
                        | Ok _ => [(GET, "/categories", JUndefined)]
                        | Throw _ => []
                        end)
            [match settle sa with
             | Ok _ => (match editingCategory st with
                        | Some _ => "Category updated successfully"
                        | None => "Category created successfully"
                        end, "success")
             | Throw _ => (match editingCategory st with
                           | Some _ => "Failed to update category"
                           | None => "Failed to create category"
                           end, "error")
             end]).
  { unfold handleSubmit. cbv zeta. fold d. fold save.
    apply (reports_bind _ _ w [_] _ [] [_]); [exact Hsave|]. rewrite Hr.
    destruct (settle sa) as [r|e].
    - apply (reports_bind _ _ _ [] [_] [_] []); [apply reports_notified|].
      apply (reports_bind _ _ _ [_] [] [] []); [apply reports_list_fetch | apply reports_ret].
    - apply reports_failure. }
  destruct (reports_events _ _ _ _ Hrep) as [Hreq Hnote].
  fold events in Hreq, Hnote.
  assert (Hval : st' = match settle sa with
                       | Ok _ => mkState (mkListState
                                   (match collection_of (settle la) with
                                    | Ok l => l | Throw _ => [] end) false)
                                   false None empty_form false
                       | Throw _ => with_saving st false
                       end).
  { unfold st', handleSubmit. cbv zeta. fold d. fold save.
    rewrite eval_bind, Hr. destruct (settle sa) as [r|e].
    - rewrite eval_bind, eval_bind. unfold fetchCategories. now rewrite list_fetch_value.
    - now rewrite !eval_bind. }
  rewrite Hval. destruct (settle sa); repeat split; assumption.
Qed.

End CategoriesFurther.

(* ===================================================================== *)
(** * The About Us page *)
(* ===================================================================== *)

Section AboutUsFurther.
Import JsString Js Browser Api Pages.
Import AboutUs.

(** X26. On the About Us form, whose translations are objects: a field
    written with [updateTranslation] reads back through
    [getTranslationValue] as the value written, or as the empty text
    when that value is falsy; every other field of every language reads
    as before, and the key of the section is kept. *)
Theorem translation_field_roundtrip
        (lang : Lang) (field : string) (value : JsVal) (f : Form.t)
        (fields : Datatypes.list (string * JsVal)) :
  translation_of (Form.translations f) lang = JObj fields ->
  let f' := updateTranslation lang field value f in
  getTranslationValue lang field f' = or_else value (JStr "") /\
  (forall lang' field',
      (lang', field') <> (lang, field) ->
      getTranslationValue lang' field' f' = getTranslationValue lang' field' f) /\
  Form.key f' = Form.key f.
Proof.
  intros Hobj f'.
  assert (Hsame : translation_of (Form.translations f') lang
                  = JObj (set_field field value fields)).
  { unfold f', updateTranslation. cbv zeta. rewrite Hobj.
    destruct lang; reflexivity. }
  assert (Hother : forall lang', lang' <> lang ->
            translation_of (Form.translations f') lang'
            = translation_of (Form.translations f) lang').
  { intros lang' Hne. unfold f', updateTranslation.
    destruct lang, lang'; try reflexivity; contradiction. }
  split; [|split].
  - unfold getTranslationValue. cbv zeta. rewrite Hsame.
    unfold get_opt. cbn [get]. now rewrite lookup_set_field, String.eqb_refl.
  - intros lang' field' Hne. unfold getTranslationValue. cbv zeta.
    assert (Hcases : lang' <> lang \/ (lang' = lang /\ field' <> field)).
    { destruct (String.eqb field' field) eqn:E.
      - apply String.eqb_eq in E. subst field'. left. congruence.
      - apply String.eqb_neq in E. destruct lang, lang'; auto; left; discriminate. }
    destruct Hcases as [Hl|[-> Hf]].
    + now rewrite (Hother lang' Hl).
    + rewrite Hsame, Hobj. unfold get_opt. cbn [get].
      apply String.eqb_neq in Hf. now rewrite lookup_set_field, Hf.
  - unfold f', updateTranslation. reflexivity.
Qed.

Lemma translation_field_roundtrip_witness :
  getTranslationValue ru "title" (updateTranslation ru "title" (JStr "About") empty_form)
    = JStr "About" /\
  getTranslationValue ru "title" (updateTranslation ru "title" (JStr "") empty_form)
    = JStr "".
Proof.
  split.
  - exact (proj1 (translation_field_roundtrip ru "title" (JStr "About") empty_form []
                    eq_refl)).
  - exact (proj1 (translation_field_roundtrip ru "title" (JStr "") empty_form []
                    eq_refl)).
Defined.

(** X27. Submitting the About Us form sends exactly one save request
    whose body carries the key and the translations of the form. For a
    section under edit it is a PUT addressed by the key that the section
    had when the modal was opened, also when the key of the form was
    changed since; for a new section it is a POST to
    /settings/about-us. An accepted save fetches the list again and
    closes the modal, keeping the form; a rejected one fetches nothing
    and leaves the modal open. The saving state ends in both cases. *)
Theorem about_us_submit_outcomes (sa la : ServerAnswer) (st : State) (w : World) :
  let st' := eval (handleSubmit sa la st) w in
  let events := events_of (handleSubmit sa la st) w in
  let d := JObj [("key", JStr (Form.key (formData st)));
                 ("translations",
                  JObj [("en", t_en (Form.translations (formData st)));
                        ("ru", t_ru (Form.translations (formData st)));
                        ("ar", t_ar (Form.translations (formData st)))])] in
  let request :=
    match editingSection st with
    | Some section => (PUT, "/settings/about-us/" +:+ Section.key section, d)
    | None => (POST, "/settings/about-us", d)
    end in
  saving st' = false /\
  formData st' = formData st /\
  match settle sa with
  | Ok _ =>
      requests_in events = [request; (GET, "/settings/about-us", JUndefined)] /\
      st' = mkState (mkListState
                       (match collection_of (settle la) with Ok l => l | Throw _ => [] end)
                       false)
                    false None (formData st) false /\
      notifications_in events =
        [(match editingSection st with
          | Some _ => "About Us section updated successfully"
          | None => "About Us section created successfully"
          end, "success")]
  | Throw _ =>
      requests_in events = [request] /\
      st' = with_saving st false /\
      notifications_in events =
        [(match editingSection st with
          | Some _ => "Failed to update About Us section"
          | None => "Failed to create About Us section"
          end, "error")]
  end.
Proof.
  intros st' events d request.
  set (save := match editingSection st with
               | Some section =>
                   api_put ("/settings/about-us/" +:+ Section.key section) d sa
               | None => api_post "/settings/about-us" d sa
               end).
  assert (Hsave : reports save w [request] [] /\ eval save w = settle sa).
  { unfold save, request, api_put, api_post.
    destruct (editingSection st) as [c|]; split;
      try apply send_eval; apply reports_send. }
  destruct Hsave as [Hsave Hr].
  assert (Hunfold : handleSubmit sa la st =
            Browser.bind save (fun r =>
              match r with
              | Ok _ =>
                  Browser.bind (emit (Notified (match editingSection st with
                                                | Some _ => "About Us section updated successfully"
                                                | None => "About Us section created successfully"
                                                end) "success"))
                    (fun _ => Browser.bind (fetchAboutUs la (list st))
                       (fun l => ret (with_saving (closeModal (with_list st l)) false)))
              | Throw _ =>
                  Browser.bind (emit (Notified (match editingSection st with
                                                | Some _ => "Failed to update About Us section"
                                                | None => "Failed to create About Us section"
                                                end) "error"))
                    (fun _ => Browser.bind (emit (ConsoleError "Failed to save About Us section:"))
                       (fun _ => ret (with_saving st false)))
              end)) by reflexivity.
  assert (Hrep : reports (handleSubmit sa la st) w
            (request :: match settle sa with
                        | Ok _ => [(GET, "/settings/about-us", JUndefined)]
                        | Throw _ => []
                        end)
            [match settle sa with
             | Ok _ => (match editingSection st with
                        | Some _ => "About Us section updated successfully"
                        | None => "About Us section created successfully"
                        end, "success")
             | Throw _ => (match editingSection st with
                           | Some _ => "Failed to update About Us section"
                           | None => "Failed to create About Us section"
                           end, "error")
             end]).
  { rewrite Hunfold.
    apply (reports_bind _ _ w [_] _ [] [_]); [exact Hsave|]. rewrite Hr.
    destruct (settle sa) as [r|e].
    - apply (reports_bind _ _ _ [] [_] [_] []); [apply reports_notified|].
      apply (reports_bind _ _ _ [_] [] [] []); [apply reports_list_fetch | apply reports_ret].
    - apply reports_failure. }
  destruct (reports_events _ _ _ _ Hrep) as [Hreq Hnote].
  fold events in Hreq, Hnote.
  assert (Hval : st' = match settle sa with
                       | Ok _ => mkState (mkListState
                                   (match collection_of (settle la) with
                                    | Ok l => l | Throw _ => [] end) false)
                                   false None (formData st) false
                       | Throw _ => with_saving st false
                       end).
  { unfold st'. rewrite Hunfold.
    rewrite eval_bind, Hr. destruct (settle sa) as [r|e].
    - rewrite eval_bind, eval_bind. unfold fetchAboutUs. now rewrite list_fetch_value.
    - now rewrite !eval_bind. }
  rewrite Hval. destruct (settle sa); repeat split; assumption.
Qed.

End AboutUsFurther.

(* ===================================================================== *)
(** * The upload of the hero image *)
(* ===================================================================== *)

Section HeroFurther.
Import JsString Js Browser Api Pages.
Import Hero.

Lemma fetchSettings_value (answer : ServerAnswer) (h : HeroState) (w : World) :
  eval (fetchSettings answer h) w =
  mkHeroState (match Js.bind (settle answer) (fun response => unwrap (data response)) with
               | Ok settingsData => settingsData
               | Throw _ => settings h
               end) false.
Proof.
  unfold fetchSettings, api_get. rewrite eval_bind, send_eval.
  destruct (Js.bind (settle answer) _); [reflexivity|]. now rewrite eval_bind.
Qed.

Lemma reports_fetchSettings (answer : ServerAnswer) (h : HeroState) (w : World) :
  reports (fetchSettings answer h) w [(GET, "/settings/hero", JUndefined)] [].
Proof.
  unfold fetchSettings, api_get.
  apply (reports_bind _ _ w [_] [] [] []); [apply reports_send|].
  rewrite send_eval. destruct (Js.bind (settle answer) _); [apply reports_ret|].
  apply (reports_bind _ _ _ [] [] [] []); [apply reports_console | apply reports_ret].
Qed.

(** X28. The file input of the hero image sends the upload only for a
    file whose MIME type starts with image/ and whose size is at most
    5MB; another file causes one error notification, no request and no
    change, and no file causes nothing. An upload sends one POST
    /settings/hero/image; when it is accepted the settings are fetched
    again and replaced by the answer, or kept when that fetch fails;
    when it is rejected nothing is fetched and the settings are kept.
    The uploading state ends in both cases. *)
Theorem hero_upload_outcomes (file : Products.File) (ua sa : ServerAnswer)
        (st : State) (w : World) :
  let run := handleImageUpload (Some file) ua sa st in
  let st' := eval run w in
  let events := events_of run w in
  events_of (handleImageUpload None ua sa st) w = [] /\
  eval (handleImageUpload None ua sa st) w = st /\
  if negb (startsWith (Products.file_type file) "image/")
  then requests_in events = [] /\ st' = st /\
       notifications_in events = [("Please select an image file", "error")]
  else if (Products.file_size file >? 5 * 1024 * 1024)%Z
  then requests_in events = [] /\ st' = st /\
       notifications_in events = [("Image size must be less than 5MB", "error")]
  else
    uploading st' = false /\
    match settle ua with
    | Ok _ =>
        requests_in events =
          [(POST, "/settings/hero/image", Products.file_json file);
           (GET, "/settings/hero", JUndefined)] /\
        settings (hero st') =
          match Js.bind (settle sa) (fun response => unwrap (data response)) with
          | Ok settingsData => settingsData
          | Throw _ => settings (hero st)
          end /\
        notifications_in events = [("Image uploaded successfully", "success")]
    | Throw _ =>
        requests_in events = [(POST, "/settings/hero/image", Products.file_json file)] /\
        hero st' = hero st /\
        notifications_in events = [("Failed to upload image", "error")]
    end.
Proof.
  intros run st' events.
  split; [apply reports_nothing|]. split; [reflexivity|].
  assert (Hrefused : forall message,
            requests_in (events_of (Browser.bind (emit (Notified message "error"))
                                      (fun _ => ret st)) w) = [] /\
            eval (Browser.bind (emit (Notified message "error")) (fun _ => ret st)) w = st /\
            notifications_in (events_of (Browser.bind (emit (Notified message "error"))
                                           (fun _ => ret st)) w) = [(message, "error")]).
  { intros message.
    assert (Hrep : reports (Browser.bind (emit (Notified message "error"))
                              (fun _ => ret st)) w [] [(message, "error")]).
    { apply (reports_bind _ _ w [] [] [_] []); [apply reports_notified | apply reports_ret]. }
    destruct (reports_events _ _ _ _ Hrep) as [Hreq Hnote].
    split; [exact Hreq|]. split; [now rewrite eval_bind | exact Hnote]. }
  unfold st', events, run, handleImageUpload.
  destruct (negb (startsWith (Products.file_type file) "image/")); [apply Hrefused|].
  destruct (Products.file_size file >? 5 * 1024 * 1024)%Z; [apply Hrefused|].
  set (request := mkRequest POST "/settings/hero/image" _ (Products.file_json file)).
  match goal with
  | |- context [events_of ?c w] =>
      assert (Hrep : reports c w
                ((POST, "/settings/hero/image", Products.file_json file)
                 :: match settle ua with
                    | Ok _ => [(GET, "/settings/hero", JUndefined)]
                    | Throw _ => []
                    end)
                [match settle ua with
                 | Ok _ => ("Image uploaded successfully", "success")
                 | Throw _ => ("Failed to upload image", "error")
                 end])
  end.
  { apply (reports_bind _ _ w [_] _ [] [_]); [apply (reports_send request)|].
    rewrite send_eval. destruct (settle ua) as [r|e].
    - apply (reports_bind _ _ _ [] [_] [_] []); [apply reports_notified|].
      apply (reports_bind _ _ _ [_] [] [] []); [apply reports_fetchSettings | apply reports_ret].
    - apply reports_failure. }
  destruct (reports_events _ _ _ _ Hrep) as [Hreq Hnote].
  rewrite Hreq, Hnote. clear Hrep Hreq Hnote.
  rewrite eval_bind, send_eval. destruct (settle ua) as [r|e].
  - rewrite eval_bind, eval_bind, fetchSettings_value. now cbn.
  - rewrite !eval_bind. now cbn.
Qed.

End HeroFurther.
